(** * GBFS Explorer: feed discovery, classification and aggregation core

    A shallow embedding of the JavaScript / TypeScript sources

      - [src/utils/gbfsClassification.ts]   (classifyOperatorType,
                                             getVehicleFeedName,
                                             isHybridSystem,
                                             getClassificationDescription)
      - [src/utils/countryUtils.ts]         (searchSystems,
                                             groupSystemsByCity)
      - [src/app/analytics/index.ts]        (discoverFeeds,
                                             countFreeFloatingVehicles,
                                             parseStationStatusFeed,
                                             the phases of
                                             processOperatorsInBulk,
                                             debouncedSearch, handleKeyDown,
                                             handleSuggestionClick, the
                                             [?city] effect,
                                             formatNumberWithSpaces, the
                                             order of the operator cards)
      - [api/v2/gbfs-feeds.js]              (fetchSingleFeed, handler)
      - [api/feeds.js]                      (isTokenExpired, getAccessToken,
                                             refreshAccessToken,
                                             fetchAllGbfsFeeds,
                                             extractLocationFromFeed,
                                             processFeeds, isCacheValid,
                                             handler)
      - [api/proxy.js]                      (handler)

    together with the properties the specification states about them and
    further properties read off the code.

    Conventions of the embedding.

    - JavaScript values that come out of [JSON.parse] are terms of [JValue];
      [JUndefined] is the result of reading a property that is not there.
      Numbers are the integer-valued ones ([Z]) and a [Date] is its time
      value in milliseconds.  The sums of the station parser are exact up
      to 2^53 and [Unsupported] beyond; elsewhere the range limits of
      [Number] and [Date] are not part of the embedding.  Strings are
      sequences of code units
      ([string]), so of code units below 256.  The property list of a
      [JObj] is the list of the object's own properties in [Object.keys]
      order.
    - A computation that may raise is a term of [outcome]: [Ret v] for a
      normal return, [Throw e] for an exception that leaves the function,
      [Pending] for an [await] on a promise that never settles (in the
      feed fetch endpoint: [None], no reply),
      [Unsupported] where the source relies on an implicit string/number
      coercion, or calls a function, that the embedding does not cover.
    - [console.log] / [console.warn] calls have no effect on results and
      are left out.
    - Network exchanges and the clock are arguments of the functions that
      use them (an oracle for the upstream, the values [Date.now()] reads).
    - Component state is passed from one event handler to the next; effects
      on the DOM (scrolling, [preventDefault]) are left out.
*)

From Stdlib Require Import ZArith String Ascii List Bool Lia Permutation.
From stdpp Require Import base option list gmap strings pretty sorting.

(* ===================================================================== *)
(** * JavaScript values                                                   *)
(* ===================================================================== *)

Module JS.

#[warnings="-register-all"]
Inductive JValue : Type :=
| JUndefined
| JNull
| JBool (b : bool)
| JNum (n : Z)
| JStr (s : string)
| JArr (items : list JValue)
| JObj (props : list (string * JValue)).

Inductive JsError : Type :=
| TypeError
| Error (message : string).

Inductive outcome (A : Type) : Type :=
| Ret (a : A)
| Throw (e : JsError)
| Pending
| Unsupported.

Arguments Ret {A} a.
Arguments Throw {A} e.
Arguments Pending {A}.
Arguments Unsupported {A}.

#[global] Instance outcome_ret : MRet outcome := fun A a => Ret a.
#[global] Instance outcome_bind : MBind outcome := fun A B f m =>
  match m with
  | Ret a => f a
  | Throw e => Throw e
  | Pending => Pending
  | Unsupported => Unsupported
  end.

(** [!!v]: the ToBoolean conversion. *)
Definition truthy (v : JValue) : bool :=
  match v with
  | JUndefined | JNull => false
  | JBool b => b
  | JNum n => negb (n =? 0)%Z
  | JStr s => negb (String.eqb s "")
  | JArr _ | JObj _ => true
  end.

(** [typeof v === 'string'], [typeof v === 'number'], [typeof v === 'object']
    and [Array.isArray v]. *)
Definition is_string (v : JValue) : bool :=
  match v with JStr _ => true | _ => false end.

Definition is_number (v : JValue) : bool :=
  match v with JNum _ => true | _ => false end.

Definition typeof_object (v : JValue) : bool :=
  match v with JNull | JArr _ | JObj _ => true | _ => false end.

Definition is_array (v : JValue) : bool :=
  match v with JArr _ => true | _ => false end.

(** [v && Array.isArray(v)]: the elements of [v] when the test passes. *)
Definition as_array (v : JValue) : option (list JValue) :=
  if truthy v then
    match v with
    | JArr l => Some l
    | _ => None
    end
  else None.

(** Own-property lookup in a property list: the first binding of the key. *)
Fixpoint assoc (k : string) (props : list (string * JValue)) : JValue :=
  match props with
  | [] => JUndefined
  | (k', v) :: rest => if String.eqb k k' then v else assoc k rest
  end.

(** The element of an array (or of a string, seen as a list of one-character
    strings) whose index prints as the key [k]; counting starts at [i]. *)
Fixpoint at_index {A : Type} (dflt : A) (l : list A) (i : nat) (k : string) : A :=
  match l with
  | [] => dflt
  | x :: rest => if String.eqb (pretty i) k then x else at_index dflt rest (S i) k
  end.

Fixpoint chars (s : string) : list JValue :=
  match s with
  | EmptyString => []
  | String c s' => JStr (String c EmptyString) :: chars s'
  end.

(** [v[k]] and [v.k].  Reading a property of [undefined] or [null] raises a
    TypeError; primitives are boxed and have no own properties beyond the
    indices and [length] of a string.  The keys the sources read are never
    names of members inherited from a prototype. *)
Definition get (v : JValue) (k : string) : outcome JValue :=
  match v with
  | JUndefined | JNull => Throw TypeError
  | JBool _ | JNum _ => Ret JUndefined
  | JStr s =>
      if String.eqb k "length" then Ret (JNum (Z.of_nat (String.length s)))
      else Ret (at_index JUndefined (chars s) 0 k)
  | JArr l =>
      if String.eqb k "length" then Ret (JNum (Z.of_nat (length l)))
      else Ret (at_index JUndefined l 0 k)
  | JObj props => Ret (assoc k props)
  end.

(** [Object.keys(v)] for a value that is not [undefined] or [null]. *)
Definition object_keys (v : JValue) : list string :=
  match v with
  | JObj props => props.*1
  | JArr l => pretty <$> seq 0 (length l)
  | JStr s => pretty <$> seq 0 (String.length s)
  | _ => []
  end.

(** [s.includes(sub)] on strings. *)
Fixpoint includes (sub s : string) : bool :=
  String.prefix sub s ||
  match s with
  | EmptyString => false
  | String _ s' => includes sub s'
  end.

(** [Object.keys(rec)] of a [Record<string, string>], an object used as a
    map from names to strings; the order plays no role where it is used. *)
Definition record_keys (rec : gmap string string) : list string :=
  (map_to_list rec).*1.

(** [rec[k] = v] on an object literal [{}] used as a map.  The key
    [__proto__] reaches the accessor inherited from [Object.prototype],
    whose setter ignores a string: no own property is created. *)
Definition record_set (rec : gmap string string) (k v : string) : gmap string string :=
  if String.eqb k "__proto__" then rec else <[k:=v]> rec.

(** [l.includes(x)] on an array of strings. *)
Definition array_includes (l : list string) (x : string) : bool :=
  existsb (String.eqb x) l.

(** [[...new Set(l)]]: the elements of [l] in order of first occurrence. *)
Fixpoint set_order (seen l : list string) : list string :=
  match l with
  | [] => []
  | x :: rest =>
      if array_includes seen x then set_order seen rest
      else x :: set_order (x :: seen) rest
  end.

(** [arr.forEach(f)] / [arr.reduce(f, init)] for a callback that may raise
    while it updates an accumulator. *)
Fixpoint js_fold {A S : Type} (f : S -> A -> outcome S) (l : list A) (s : S) : outcome S :=
  match l with
  | [] => Ret s
  | x :: rest => s' ← f s x; js_fold f rest s'
  end.

(** [arr.filter(f)] for a callback that may raise. *)
Fixpoint js_filter {A : Type} (f : A -> outcome bool) (l : list A) : outcome (list A) :=
  match l with
  | [] => Ret []
  | x :: rest =>
      b ← f x;
      kept ← js_filter f rest;
      Ret (if b : bool then x :: kept else kept)
  end.

(** [arr.some(f)] for a callback that may raise: stops at the first element
    on which [f] is truthy. *)
Fixpoint js_some {A : Type} (f : A -> outcome bool) (l : list A) : outcome bool :=
  match l with
  | [] => Ret false
  | x :: rest => b ← f x; if b : bool then Ret true else js_some f rest
  end.

End JS.
Import JS.

(* ===================================================================== *)
(** * Operator classification  (src/utils/gbfsClassification.ts)          *)
(* ===================================================================== *)

Module Classification.

Inductive OperatorType : Type := station_based | free_floating | unknown.

#[global] Instance OperatorType_eq_dec : EqDecision OperatorType.
Proof. solve_decision. Defined.

Definition STATION_FEED_NAMES : list string :=
  ["station_information"; "station_status"]%string.

Definition VEHICLE_FEED_NAMES : list string :=
  ["vehicle_status"; "free_bike_status"]%string.

(** [vt.form_factor.includes('scooter')] once [vt.form_factor] is truthy:
    the method of a string or of an array; any other truthy value has no
    callable [includes]. *)
Definition form_factor_includes (ff : JValue) (needle : string) : outcome bool :=
  match ff with
  | JStr s => Ret (includes needle s)
  | JArr l =>
      Ret (existsb (fun x => match x with
                             | JStr s => String.eqb s needle
                             | _ => false
                             end) l)
  | _ => Throw TypeError
  end.

(** The callback [vt => vt.form_factor && vt.form_factor.includes('scooter')],
    read as a boolean. *)
Definition is_scooter_type (vt : JValue) : outcome bool :=
  ff ← get vt "form_factor";
  if truthy ff then form_factor_includes ff "scooter" else Ret false.

(** The scooter-override test of lines 56-68: [true] exactly when the
    function returns from inside that block. *)
Definition scooter_override (vehicleTypesData : JValue) : outcome bool :=
  if truthy vehicleTypesData then
    vehicleTypes ← get vehicleTypesData "vehicle_types";
    if truthy vehicleTypes then
      match vehicleTypes with
      | JArr l => js_some is_scooter_type l
      | _ => Ret false
      end
    else Ret false
  else Ret false.

(** [classifyOperatorType(feedsFromDiscovery, operatorName, vehicleTypesData)];
    an omitted third argument is [JUndefined]. *)
Definition classifyOperatorType (feedsFromDiscovery : gmap string string)
    (operatorName : string) (vehicleTypesData : JValue) : outcome OperatorType :=
  if (length (record_keys feedsFromDiscovery) =? 0)%nat then Ret unknown
  else
    let availableFeeds := record_keys feedsFromDiscovery in
    hasScooters ← scooter_override vehicleTypesData;
    if hasScooters : bool then Ret free_floating
    else
      let hasStationFeeds := forallb (array_includes availableFeeds) STATION_FEED_NAMES in
      let hasVehicleFeeds := existsb (array_includes availableFeeds) VEHICLE_FEED_NAMES in
      if hasStationFeeds then Ret station_based
      else if hasVehicleFeeds then Ret free_floating
      else Ret unknown.

End Classification.

(* ===================================================================== *)
(** * Discovery document parser  (src/app/analytics/index.ts, 64-110)     *)
(* ===================================================================== *)

Module Discovery.

(** The body of both [forEach] callbacks:
    [if (feed && typeof feed.name === 'string' && typeof feed.url === 'string')
       discoveredFeedUrls[feed.name] = feed.url]. *)
Definition add_feed (discoveredFeedUrls : gmap string string) (feed : JValue)
    : outcome (gmap string string) :=
  if truthy feed then
    name ← get feed "name";
    match name with
    | JStr n =>
        url ← get feed "url";
        match url with
        | JStr u => Ret (record_set discoveredFeedUrls n u)
        | _ => Ret discoveredFeedUrls
        end
    | _ => Ret discoveredFeedUrls
    end
  else Ret discoveredFeedUrls.

Definition langPriority : list string := ["en"; "nb"]%string.

(** How the [for (const lang of allLangKeys)] loop is left: by the [return]
    inside it, or by running out of keys. *)
Inductive scan : Type :=
| Returned (discoveredFeedUrls : gmap string string) (nameFromGbfsJson : JValue)
| Exhausted (discoveredFeedUrls : gmap string string) (nameFromGbfsJson : JValue).

Fixpoint scan_languages (gbfsContent : JValue) (langs : list string)
    (discoveredFeedUrls : gmap string string) (nameFromGbfsJson : JValue)
    : outcome scan :=
  match langs with
  | [] => Ret (Exhausted discoveredFeedUrls nameFromGbfsJson)
  | lang :: rest =>
      langData ← get gbfsContent lang;
      if truthy langData && typeof_object langData then
        feeds ← get langData "feeds";
        match as_array feeds with
        | Some l =>
            urls ← js_fold add_feed l discoveredFeedUrls;
            name ← get langData "name";
            let nameFromGbfsJson' := if truthy name then name else nameFromGbfsJson in
            if (0 <? length (record_keys urls))%nat
            then Ret (Returned urls nameFromGbfsJson')
            else scan_languages gbfsContent rest urls nameFromGbfsJson'
        | None => scan_languages gbfsContent rest discoveredFeedUrls nameFromGbfsJson
        end
      else scan_languages gbfsContent rest discoveredFeedUrls nameFromGbfsJson
  end.

(** Lines 70-73: the document itself, or its [data] field when it has a
    truthy one and no truthy [feeds]. *)
Definition unwrap (rawGbfsJson : JValue) : outcome JValue :=
  data ← get rawGbfsJson "data";
  if truthy data then
    feeds ← get rawGbfsJson "feeds";
    Ret (if negb (truthy feeds) then data else rawGbfsJson)
  else Ret rawGbfsJson.

(** [discoverFeeds(rawGbfsJson, initialOperatorName)]; the result is the pair
    [(discoveredFeedUrls, nameFromGbfsJson)]. *)
Definition discoverFeeds (rawGbfsJson : JValue) (initialOperatorName : string)
    : outcome (gmap string string * JValue) :=
  gbfsContent ← unwrap rawGbfsJson;
  let allLangKeys := set_order [] (langPriority ++ object_keys gbfsContent) in
  s ← scan_languages gbfsContent allLangKeys ∅ (JStr initialOperatorName);
  match s with
  | Returned urls name => Ret (urls, name)
  | Exhausted urls name =>
      feeds ← get gbfsContent "feeds";
      match as_array feeds with
      | Some l =>
          urls' ← js_fold add_feed l urls;
          rootName ← get gbfsContent "name";
          Ret (urls', if truthy rootName then rootName else name)
      | None => Ret (urls, name)
      end
  end.

End Discovery.

(* ===================================================================== *)
(** * Status feed normalizer  (src/app/analytics/index.ts, 114-201)       *)
(* ===================================================================== *)

Module Normalizer.

(** The argument [parsedFeed : { data: any }]; the caller always passes an
    object literal, so [!parsedFeed] is false. *)
Record ParsedFeed : Type := { data : JValue }.

Record VehicleCounts : Type := { total : Z; available : Z }.

(** [v === false] *)
Definition is_false (v : JValue) : bool :=
  match v with JBool false => true | _ => false end.

(** [v => v.is_disabled === false && v.is_reserved === false] *)
Definition is_available (v : JValue) : outcome bool :=
  d ← get v "is_disabled";
  if is_false d then r ← get v "is_reserved"; Ret (is_false r)
  else Ret false.

(** [countFreeFloatingVehicles(parsedFeed, primaryFormFactor, operatorName)];
    [None] is the [null] result. *)
Definition countFreeFloatingVehicles (parsedFeed : ParsedFeed)
    (primaryFormFactor : JValue) (operatorName : string)
    : outcome (option VehicleCounts) :=
  if negb (truthy (data parsedFeed)) then Ret None
  else
    vs ← get (data parsedFeed) "vehicles";
    chosen ←
      (match as_array vs with
       | Some l => Ret (Some l)
       | None => bs ← get (data parsedFeed) "bikes"; Ret (as_array bs)
       end);
    match chosen with
    | None => Ret None
    | Some vehicles =>
        let totalVehicles := Z.of_nat (length vehicles) in
        availableVehicles ← js_filter is_available vehicles;
        Ret (Some {| total := totalVehicles;
                     available := Z.of_nat (length availableVehicles) |})
    end.

Record StationTotals : Type := {
  bikesAvailable : Z;
  bikesTotal : Z;
  docksAvailable : Z;
  stationCount : Z;
  error : option string
}.

(** The SameValueZero comparison a [Set] uses, on values produced by
    [JSON.parse]: primitives are compared by value, and every array or
    object is a reference of its own. *)
Definition same_value_zero (a b : JValue) : bool :=
  match a, b with
  | JUndefined, JUndefined => true
  | JNull, JNull => true
  | JBool x, JBool y => Bool.eqb x y
  | JNum x, JNum y => (x =? y)%Z
  | JStr x, JStr y => String.eqb x y
  | _, _ => false
  end.

(** [set.add(v)] and [set.size] on a [Set] kept as the list of its members. *)
Definition set_add (v : JValue) (members : list JValue) : list JValue :=
  if existsb (same_value_zero v) members then members else members ++ [v].

Definition set_size (members : list JValue) : Z := Z.of_nat (length members).

(** A number is a double, kept here as an integer.  The integers of
    magnitude up to 2^53 are doubles, and the sum of two of them is the
    exact sum as long as it stays in that range. *)
Definition safe (n : Z) : bool := (- 2 ^ 53 <=? n)%Z && (n <=? 2 ^ 53)%Z.

(** [a + b] on two numbers: the exact sum within the range above; a sum
    that leaves it is rounded, and is outside the embedding. *)
Definition plus (a b : Z) : outcome Z :=
  if safe a && safe b && safe (a + b) then Ret (a + b)%Z else Unsupported.

(** [sum + (vt.count || 0)].  A truthy count that is not a number or [true]
    makes [+] a string concatenation. *)
Definition add_count (sum : Z) (vt : JValue) : outcome Z :=
  c ← get vt "count";
  match (if truthy c then c else JNum 0) with
  | JNum n => plus sum n
  | JBool true => plus sum 1
  | _ => Unsupported
  end.

(** [if (typeof v === 'number') acc += v] *)
Definition add_number (acc : Z) (v : JValue) : outcome Z :=
  match v with
  | JNum n => plus acc n
  | _ => Ret acc
  end.

Record Acc : Type := {
  totalBikesAvailable : Z;
  totalBikesTotal : Z;
  totalDocksAvailable : Z;
  stationIds : list JValue
}.

(** The body of [parsedFeed.data.stations.forEach(station => ...)]. *)
Definition visit_station (acc : Acc) (station : JValue) : outcome Acc :=
  station_id ← get station "station_id";
  let stationIds' := set_add station_id (stationIds acc) in
  vta ← get station "vehicle_types_available";
  bikesAtStation ←
    (match as_array vta with
     | Some l => js_fold add_count l 0%Z
     | None =>
         nba ← get station "num_bikes_available";
         nva ← get station "num_vehicles_available";
         nea ← get station "num_ebikes_available";
         regular ←
           match nba with
           | JNum n => plus 0 n
           | _ => add_number 0 nva
           end;
         add_number regular nea
     end);
  totalBikesAvailable' ← plus (totalBikesAvailable acc) bikesAtStation;
  nbd ← get station "num_bikes_disabled";
  nvd ← get station "num_vehicles_disabled";
  withBikesDisabled ← add_number bikesAtStation nbd;
  totalBikesAtStation ← add_number withBikesDisabled nvd;
  totalBikesTotal' ← plus (totalBikesTotal acc) totalBikesAtStation;
  nda ← get station "num_docks_available";
  totalDocksAvailable' ← add_number (totalDocksAvailable acc) nda;
  Ret {| totalBikesAvailable := totalBikesAvailable';
         totalBikesTotal := totalBikesTotal';
         totalDocksAvailable := totalDocksAvailable';
         stationIds := stationIds' |}.

(** [parseStationStatusFeed(parsedFeed, operatorName)]; [None] is [null]. *)
Definition parseStationStatusFeed (parsedFeed : ParsedFeed) (operatorName : string)
    : outcome (option StationTotals) :=
  if negb (truthy (data parsedFeed)) then Ret None
  else
    stations ← get (data parsedFeed) "stations";
    match stations with
    | JArr l =>
        acc ← js_fold visit_station l
                {| totalBikesAvailable := 0; totalBikesTotal := 0;
                   totalDocksAvailable := 0; stationIds := [] |};
        Ret (Some {| bikesAvailable := totalBikesAvailable acc;
                     bikesTotal := totalBikesTotal acc;
                     docksAvailable := totalDocksAvailable acc;
                     stationCount := set_size (stationIds acc);
                     error := None |})
    | _ => Ret None
    end.

End Normalizer.

(* ===================================================================== *)
(** * What a [fetch] can do                                               *)
(* ===================================================================== *)

Module Net.

(** [await response.json()]: the parsed body, the rejection raised on a
    body that is not JSON, with its message, or a body that never arrives,
    on which the promise stays pending. *)
Inductive Body : Type :=
| Json (v : JValue)
| NotJson (message : string)
| Stalled.

(** [await fetch(url, ...)]: no answer (the promise stays pending until
    something aborts it), a rejection with its message, or a response. *)
Inductive FetchResult : Type :=
| NoAnswer
| Rejected (message : string)
| Response (status : Z) (statusText : string) (body : Body).

(** [response.ok]: the status is in the range 200-299. *)
Definition ok (status : Z) : bool := (200 <=? status)%Z && (status <=? 299)%Z.

End Net.
Import Net.

(* ===================================================================== *)
(** * Concurrent feed fetch / cache layer  (api/v2/gbfs-feeds.js)         *)
(* ===================================================================== *)

Module FeedFetch.

(** The items of a request and of a response, as the API contract declares
    them ([GBFSFeed], [GBFSFeedData]); [data: null] is [JNull] and
    [error: null] is [None]. *)
Record GBFSFeed : Type := { name : string; url : string }.

Record GBFSFeedData : Type := {
  feed_name : string;
  data : JValue;
  error : option string
}.

Definition CACHE_TTL : Z := 60 * 1000.

(** The message of the AbortError with which [fetch] rejects when the
    10000 ms timer fires [controller.abort()]. *)
Definition abort_message : string := "This operation was aborted".

(** [error.message || 'Unknown error'] *)
Definition message_or_unknown (message : string) : string :=
  if String.eqb message "" then "Unknown error" else message.

(** [fetchSingleFeed(feed)], given what the network does for each URL.
    Every path of the source that comes to an end is a [return] of a result
    object; the [catch] covers the abort, a rejected fetch and a rejected
    [json()].  The 10000 ms timer is cleared as soon as the response is
    there (line 17), so nothing ends the wait for a body that never
    arrives: the promise stays pending ([None]). *)
Definition fetchSingleFeed (net : string -> FetchResult) (feed : GBFSFeed)
    : option GBFSFeedData :=
  match net (url feed) with
  | NoAnswer =>
      Some {| feed_name := name feed; data := JNull;
              error := Some (message_or_unknown abort_message) |}
  | Rejected message =>
      Some {| feed_name := name feed; data := JNull;
              error := Some (message_or_unknown message) |}
  | Response status statusText body =>
      if negb (ok status) then
        Some {| feed_name := name feed; data := JNull;
                error := Some ("HTTP " +:+ pretty status +:+ ": " +:+ statusText) |}
      else
        match body with
        | Json v => Some {| feed_name := name feed; data := v; error := None |}
        | NotJson message =>
            Some {| feed_name := name feed; data := JNull;
                    error := Some (message_or_unknown message) |}
        | Stalled => None
        end
  end.

(** The order of [Array.prototype.sort()] without a comparator: strings by
    code units. *)
Definition string_le (a b : string) : Prop := String.leb a b = true.

#[global] Instance string_le_dec : RelDecision string_le.
Proof. intros a b. unfold string_le. apply _. Defined.

(** [JSON.stringify(feeds.map((f) => f.url).sort())].  [JSON.stringify] is
    injective on arrays of strings, so the key is kept as the sorted array. *)
Definition cacheKey (feeds : list GBFSFeed) : list string :=
  merge_sort string_le (url <$> feeds).

Record CacheEntry : Type := { entry_data : list GBFSFeedData; timestamp : Z }.

(** [req.method] and [req.body.feeds]; [None] stands for a body whose
    [feeds] is missing or is not an array.  An item of the array is an object
    of the declared shape, or [null] / [undefined] ([None]). *)
Record Request : Type := {
  method : string;
  feeds : option (list (option GBFSFeed))
}.

(** The JSON body of a reply; [EngineMessage] is the body whose [error] is
    the message the engine gives a TypeError. *)
Inductive Payload : Type :=
| Empty
| ErrorMessage (error : string)
| EngineMessage
| Results (results : list GBFSFeedData).

Record Reply : Type := { status : Z; payload : Payload }.

(** [handler(req, res)]: the reply sent, if one is ever sent, and the
    module-level [cache] afterwards.  [feeds.map((f) => f.url)] raises a
    TypeError on a [null] item, which the [catch] turns into the 500 reply.
    [Promise.all] keeps the order of [feeds] and settles once every fetch
    has; no fetch rejects, so it stays pending ([None]) exactly when one
    does.  [now] is the [Date.now()] of the freshness test and [later] the
    one read when the new entry is stored, after all fetches have
    settled. *)
Definition handler (net : string -> FetchResult)
    (cache : gmap (list string) CacheEntry) (req : Request) (now later : Z)
    : option Reply * gmap (list string) CacheEntry :=
  if String.eqb (method req) "OPTIONS" then
    (Some {| status := 200; payload := Empty |}, cache)
  else if negb (String.eqb (method req) "POST") then
    (Some {| status := 405; payload := ErrorMessage "Method not allowed" |}, cache)
  else
    match feeds req with
    | None =>
        (Some {| status := 400; payload := ErrorMessage "feeds array is required" |},
         cache)
    | Some feeds =>
        match mapM id feeds with
        | None => (Some {| status := 500; payload := EngineMessage |}, cache)
        | Some feeds =>
            let key := cacheKey feeds in
            let fresh :=
              match cache !! key with
              | Some cached =>
                  if (now - timestamp cached <? CACHE_TTL)%Z
                  then Some (entry_data cached) else None
              | None => None
              end in
            match fresh with
            | Some cachedData =>
                (Some {| status := 200; payload := Results cachedData |}, cache)
            | None =>
                match mapM (fetchSingleFeed net) feeds with
                | Some results =>
                    (Some {| status := 200; payload := Results results |},
                     <[key := {| entry_data := results; timestamp := later |}]> cache)
                | None => (None, cache)
                end
            end
        end
    end.

End FeedFetch.

(* ===================================================================== *)
(** * Credential manager and catalog fetcher  (api/feeds.js)              *)
(* ===================================================================== *)

Module Catalog.

(** The module-level [tokenManager]; [tokenExpiresAt] is a [Date], kept as
    its time value in milliseconds, or [null]. *)
Record TokenManager : Type := {
  accessToken : JValue;
  tokenExpiresAt : option Z
}.

Definition initialTokenManager : TokenManager :=
  {| accessToken := JNull; tokenExpiresAt := None |}.

(** [isTokenExpired()], with [now] the value of [new Date()]. *)
Definition isTokenExpired (tokenManager : TokenManager) (now : Z) : bool :=
  if negb (truthy (accessToken tokenManager)) then true
  else
    match tokenExpiresAt tokenManager with
    | None => true
    | Some expiresAt =>
        let bufferTime := (5 * 60 * 1000)%Z in
        (now >=? expiresAt - bufferTime)%Z
    end.

(** The requests a run sends upstream, in order. *)
Inductive Sent : Type :=
| PostToken (refresh_token : string)
| GetFeeds (url : string).

(** [refreshAccessToken()].  [env] is
    [process.env.MOBILITY_DATABASE_REFRESH_TOKEN], [exchange] the answer of
    the token endpoint to a posted refresh token, [now] the [Date.now()]
    read after the answer.  Result: the outcome, the token manager
    afterwards and the requests sent. *)
Definition refreshAccessToken (env : option string)
    (exchange : string -> FetchResult) (tokenManager : TokenManager) (now : Z)
    : outcome JValue * TokenManager * list Sent :=
  match env with
  | None => (Throw (Error "MOBILITY_DATABASE_REFRESH_TOKEN not configured"),
             tokenManager, [])
  | Some refreshToken =>
      if String.eqb refreshToken "" then
        (Throw (Error "MOBILITY_DATABASE_REFRESH_TOKEN not configured"),
         tokenManager, [])
      else
        let sent := [PostToken refreshToken] in
        match exchange refreshToken with
        | NoAnswer => (Pending, tokenManager, sent)
        | Rejected message => (Throw (Error message), tokenManager, sent)
        | Response status _ body =>
            if negb (ok status) then
              (Throw (Error ("Failed to refresh access token: " +:+ pretty status)),
               tokenManager, sent)
            else
              match body with
              | NotJson message => (Throw (Error message), tokenManager, sent)
              | Stalled => (Pending, tokenManager, sent)
              | Json tokenData =>
                  match get tokenData "access_token", get tokenData "expires_in" with
                  | Ret token, Ret expires_in =>
                      let stored := {| accessToken := token;
                                       tokenExpiresAt := tokenExpiresAt tokenManager |} in
                      match (if truthy expires_in then expires_in else JNum 3600) with
                      | JNum expiresIn =>
                          (Ret token,
                           {| accessToken := token;
                              tokenExpiresAt := Some (now + expiresIn * 1000)%Z |},
                           sent)
                      | JBool true =>
                          (Ret token,
                           {| accessToken := token;
                              tokenExpiresAt := Some (now + 1 * 1000)%Z |},
                           sent)
                      | _ => (Unsupported, stored, sent)
                      end
                  | _, _ => (Throw TypeError, tokenManager, sent)
                  end
              end
        end
  end.

(** [getAccessToken()]: [now] is read by [isTokenExpired], [later] by the
    refresh. *)
Definition getAccessToken (env : option string)
    (exchange : string -> FetchResult) (tokenManager : TokenManager)
    (now later : Z) : outcome JValue * TokenManager * list Sent :=
  if isTokenExpired tokenManager now
  then refreshAccessToken env exchange tokenManager later
  else (Ret (accessToken tokenManager), tokenManager, []).

Definition baseUrl : string := "https://api.mobilitydatabase.org".
Definition limit : Z := 1000.

(** The URL of the page request at [offset]. *)
Definition page_url (dataType : string) (offset : Z) : string :=
  baseUrl +:+ "/v1/feeds?data_type=" +:+ dataType
          +:+ "&limit=" +:+ pretty limit +:+ "&offset=" +:+ pretty offset.

(** [Array.isArray(data) ? data : data.results || data.feeds || data.data || []] *)
Definition page_feeds (data : JValue) : outcome JValue :=
  if is_array data then Ret data
  else
    results ← get data "results";
    if truthy results then Ret results
    else
      feeds ← get data "feeds";
      if truthy feeds then Ret feeds
      else
        inner ← get data "data";
        if truthy inner then Ret inner else Ret (JArr []).

(** [allFeeds.push(...pageFeeds)]: the elements the spread iterates over.
    Of the values at hand only arrays and strings are iterable; a string is
    iterated by code points, which the embedding does not cover. *)
Definition spread (pageFeeds : JValue) : outcome (list JValue) :=
  match pageFeeds with
  | JArr l => Ret l
  | JStr _ => Unsupported
  | _ => Throw TypeError
  end.

(** What one turn of the [while (true)] loop does after the page has been
    parsed: leave the loop with the final list, or go on with a longer one. *)
Inductive turn : Type :=
| Break (allFeeds : list JValue)
| Next (allFeeds : list JValue).

Definition page_turn (allFeeds : list JValue) (data : JValue) : outcome turn :=
  pageFeeds ← page_feeds data;
  len ← get pageFeeds "length";
  match len with
  | JNum 0 => Ret (Break allFeeds)
  | _ =>
      items ← spread pageFeeds;
      let allFeeds' := allFeeds ++ items in
      match len with
      | JNum n => if (n <? limit)%Z then Ret (Break allFeeds') else Ret (Next allFeeds')
      | _ => Unsupported
      end
  end.

(** The [while (true)] loop of [fetchAllGbfsFeeds], with [catalog] the answer
    of the upstream to each page URL.  The bearer header is the same on
    every request and is not an argument of [catalog].  [None]: the loop has
    not ended within [fuel] turns. *)
Fixpoint page_loop (fuel : nat) (catalog : string -> FetchResult)
    (dataType : string) (offset : Z) (allFeeds : list JValue) (sent : list Sent)
    : option (outcome (list JValue) * list Sent) :=
  match fuel with
  | O => None
  | S fuel' =>
      let url := page_url dataType offset in
      let sent' := sent ++ [GetFeeds url] in
      match catalog url with
      | NoAnswer => Some (Pending, sent')
      | Rejected message => Some (Throw (Error message), sent')
      | Response status _ body =>
          if negb (ok status) then
            Some (Throw (Error ("Failed to fetch feeds: " +:+ pretty status)), sent')
          else
            match body with
            | NotJson message => Some (Throw (Error message), sent')
            | Stalled => Some (Pending, sent')
            | Json data =>
                match page_turn allFeeds data with
                | Ret (Break final) => Some (Ret final, sent')
                | Ret (Next allFeeds') =>
                    page_loop fuel' catalog dataType (offset + limit)%Z allFeeds' sent'
                | Throw e => Some (Throw e, sent')
                | Pending => Some (Pending, sent')
                | Unsupported => Some (Unsupported, sent')
                end
            end
      end
  end.

(** [fetchAllGbfsFeeds(dataType)]: first the token, then the pages. *)
Definition fetchAllGbfsFeeds (fuel : nat) (env : option string)
    (exchange catalog : string -> FetchResult) (tokenManager : TokenManager)
    (now later : Z) (dataType : string)
    : option (outcome (list JValue) * TokenManager * list Sent) :=
  match getAccessToken env exchange tokenManager now later with
  | (Ret _, tokenManager', sent) =>
      match page_loop fuel catalog dataType 0 [] sent with
      | Some (result, sent') => Some (result, tokenManager', sent')
      | None => None
      end
  | (Throw e, tokenManager', sent) => Some (Throw e, tokenManager', sent)
  | (Pending, tokenManager', sent) => Some (Pending, tokenManager', sent)
  | (Unsupported, tokenManager', sent) => Some (Unsupported, tokenManager', sent)
  end.

End Catalog.

(* ===================================================================== *)
(** * Reclassification step  (src/app/analytics/index.ts, 469-507)        *)
(* ===================================================================== *)

Module Pipeline.

(** The fields of an entry of [operatorDataMap] that the step reads or
    writes.  [operatorType] and [feedsFromDiscovery] are unset ([None]) for
    an operator whose discovery failed; [vehicleTypesRaw] is [JUndefined]
    until a [vehicle_types] document has been fetched.  [systemId] is
    [data.operatorInfo?.systemId], empty when missing, and [operatorName]
    the name passed on for logging. *)
Record OperatorData : Type := {
  systemId : string;
  operatorName : string;
  operatorType : option Classification.OperatorType;
  feedsFromDiscovery : option (gmap string string);
  vehicleTypesRaw : JValue
}.

(** [feeds[k]] read as a condition: the URL when it is a non-empty string. *)
Definition truthy_url (feeds : gmap string string) (k : string) : option string :=
  match feeds !! k with
  | Some u => if String.eqb u "" then None else Some u
  | None => None
  end.

(** [findIndex] followed by [splice(oldFeedIndex, 1)]: drop the first queued
    feed whose name starts with [prefix]. *)
Fixpoint drop_first (prefix : string) (queue : list FeedFetch.GBFSFeed)
    : list FeedFetch.GBFSFeed :=
  match queue with
  | [] => []
  | feed :: rest =>
      if String.prefix prefix (FeedFetch.name feed) then rest
      else feed :: drop_first prefix rest
  end.

(** The status feed to queue for a verdict (lines 495-503). *)
Definition status_feed (systemId : string) (feeds : gmap string string)
    (t : Classification.OperatorType) : list FeedFetch.GBFSFeed :=
  match t with
  | Classification.station_based =>
      match truthy_url feeds "station_status" with
      | Some u => [{| FeedFetch.name := systemId +:+ "::station_status";
                      FeedFetch.url := u |}]
      | None => []
      end
  | Classification.free_floating =>
      match truthy_url feeds "vehicle_status" with
      | Some u => [{| FeedFetch.name := systemId +:+ "::vehicle_status";
                      FeedFetch.url := u |}]
      | None =>
          match truthy_url feeds "free_bike_status" with
          | Some u => [{| FeedFetch.name := systemId +:+ "::free_bike_status";
                          FeedFetch.url := u |}]
          | None => []
          end
      end
  | Classification.unknown => []
  end.

(** The body of [Object.values(operatorDataMap).forEach(data => ...)]: the
    entry and the queue [allStatusFeedsToFetch] afterwards. *)
Definition reclassify (data : OperatorData) (queue : list FeedFetch.GBFSFeed)
    : outcome (OperatorData * list FeedFetch.GBFSFeed) :=
  match operatorType data, feedsFromDiscovery data with
  | Some oldOperatorType, Some feeds =>
      if truthy (vehicleTypesRaw data) then
        newOperatorType ←
          Classification.classifyOperatorType feeds (operatorName data)
                                              (vehicleTypesRaw data);
        if decide (newOperatorType = oldOperatorType) then Ret (data, queue)
        else
          let data' := {| systemId := systemId data;
                          operatorName := operatorName data;
                          operatorType := Some newOperatorType;
                          feedsFromDiscovery := feedsFromDiscovery data;
                          vehicleTypesRaw := vehicleTypesRaw data |} in
          if String.eqb (systemId data) "" then Ret (data', queue)
          else
            Ret (data',
                 drop_first (systemId data +:+ "::") queue
                   ++ status_feed (systemId data) feeds newOperatorType)
      else Ret (data, queue)
  | _, _ => Ret (data, queue)
  end.

End Pipeline.

(* ===================================================================== *)
(** * Classification helpers  (src/utils/gbfsClassification.ts, 99-157)   *)
(* ===================================================================== *)

Module Description.

(** [feedsFromDiscovery[feedName]] read as a condition. *)
Definition has_url (feedsFromDiscovery : gmap string string) (feedName : string) : bool :=
  match Pipeline.truthy_url feedsFromDiscovery feedName with
  | Some _ => true
  | None => false
  end.

(** [getVehicleFeedName(feedsFromDiscovery)]; [None] is [null]. *)
Definition getVehicleFeedName (feedsFromDiscovery : gmap string string) : option string :=
  List.find (has_url feedsFromDiscovery) Classification.VEHICLE_FEED_NAMES.

(** [isHybridSystem(feedsFromDiscovery)] *)
Definition isHybridSystem (feedsFromDiscovery : gmap string string) : bool :=
  let hasStationFeeds :=
    forallb (has_url feedsFromDiscovery) Classification.STATION_FEED_NAMES in
  let hasVehicleFeeds :=
    existsb (has_url feedsFromDiscovery) Classification.VEHICLE_FEED_NAMES in
  hasStationFeeds && hasVehicleFeeds.

(** [getClassificationDescription(operatorType, feedsFromDiscovery)]; the
    [default] branch is not reached on a value of [OperatorType]. *)
Definition getClassificationDescription (operatorType : Classification.OperatorType)
    (feedsFromDiscovery : gmap string string) : string :=
  match operatorType with
  | Classification.station_based =>
      if isHybridSystem feedsFromDiscovery
      then "Station-based with dockless vehicles (hybrid)"
      else "Station-based (docked bikes)"
  | Classification.free_floating =>
      let vehicleFeed := getVehicleFeedName feedsFromDiscovery in
      let gbfsVersion :=
        match vehicleFeed with
        | Some feedName => if String.eqb feedName "vehicle_status" then "3.0+" else "2.x"
        | None => "2.x"
        end in
      "Free-floating (dockless, GBFS " +:+ gbfsVersion +:+ ")"
  | Classification.unknown => "Unknown system type"
  end.

End Description.

(* ===================================================================== *)
(** * Single-URL proxy  (api/proxy.js)                                    *)
(* ===================================================================== *)

Module Proxy.

(** What reading a body ([response.text()], [response.json()]) gives: the
    value, or the error it rejects with. *)
Inductive read (A : Type) : Type :=
| Got (a : A)
| Failed (name message : string).

Arguments Got {A} a.
Arguments Failed {A} name message.

(** The parts of an upstream response the handler looks at;
    [contentType] is [response.headers.get('content-type')]. *)
Record Upstream : Type := {
  status : Z;
  contentType : option string;
  text : read string;
  json : read JValue
}.

(** [await fetch(targetUrl, ...)] under the 7000 ms abort timer. *)
Inductive Fetched : Type :=
| Silent
| Rejected (name message : string)
| Responded (response : Upstream).

(** [req.method] and [req.query.target_url]. *)
Record Request : Type := { method : string; target_url : option string }.

Inductive Payload : Type :=
| Empty
| ErrorMessage (error : string)
| Data (data : JValue).

Record Reply : Type := { code : Z; payload : Payload }.

(** The [catch] block. *)
Definition caught (targetUrl name message : string) : Reply :=
  if String.eqb name "AbortError" then
    {| code := 408;
       payload := ErrorMessage ("Request to " +:+ targetUrl +:+ " timed out after 7 seconds") |}
  else
    {| code := 502;
       payload := ErrorMessage ("Network error fetching " +:+ targetUrl +:+ ": " +:+ message) |}.

(** [handler(req, res)] *)
Definition handler (net : string -> Fetched) (req : Request) : Reply :=
  if String.eqb (method req) "OPTIONS" then {| code := 200; payload := Empty |}
  else if negb (String.eqb (method req) "GET") then
    {| code := 405; payload := ErrorMessage "Method not allowed" |}
  else
    match target_url req with
    | None =>
        {| code := 400; payload := ErrorMessage "target_url query parameter is required" |}
    | Some targetUrl =>
        if String.eqb targetUrl "" then
          {| code := 400; payload := ErrorMessage "target_url query parameter is required" |}
        else
          match net targetUrl with
          | Silent => caught targetUrl "AbortError" "This operation was aborted"
          | Rejected name message => caught targetUrl name message
          | Responded response =>
              if negb (ok (status response)) then
                match text response with
                | Got errorText =>
                    {| code := status response;
                       payload := ErrorMessage
                         ("Provider error: " +:+ pretty (status response) +:+ " - "
                            +:+ String.substring 0 200 errorText) |}
                | Failed name message => caught targetUrl name message
                end
              else
                let contentType :=
                  match contentType response with
                  | Some t => if String.eqb t "" then ""%string else t
                  | None => ""%string
                  end in
                if negb (includes "application/json" contentType)
                   && negb (includes "application/geo+json" contentType)
                then
                  match text response with
                  | Got text =>
                      {| code := 502;
                         payload := ErrorMessage
                           ("Unexpected Content-Type from " +:+ targetUrl +:+ ": "
                              +:+ contentType +:+ ". Expected JSON. Response: "
                              +:+ String.substring 0 200 text) |}
                  | Failed name message => caught targetUrl name message
                  end
                else
                  match json response with
                  | Got data => {| code := 200; payload := Data data |}
                  | Failed name message => caught targetUrl name message
                  end
          end
    end.

End Proxy.

(* ===================================================================== *)
(** * String built-ins                                                    *)
(* ===================================================================== *)

Module Text.

(** [s.toLowerCase()].  A [string] holds code units below 256, and on those
    the lower-case mapping is the one of Latin-1: A-Z, U+00C0-U+00D6 and
    U+00D8-U+00DE move up by 32, everything else stays.  Text with code
    units above 255, where the mapping of a unit can depend on its
    neighbours, is outside the embedding, so that nothing is derived from
    the mapping acting unit by unit: the search properties are stated on
    the lower-case forms. *)
Definition lower_unit (c : ascii) : ascii :=
  let n := nat_of_ascii c in
  if ((65 <=? n) && (n <=? 90)) || ((192 <=? n) && (n <=? 214))
     || ((216 <=? n) && (n <=? 222))
  then ascii_of_nat (n + 32) else c.

Fixpoint toLowerCase (s : string) : string :=
  match s with
  | EmptyString => EmptyString
  | String c s' => String (lower_unit c) (toLowerCase s')
  end.

(** White space that [parseInt] skips, among the code units below 256. *)
Definition is_space (c : ascii) : bool :=
  let n := nat_of_ascii c in
  ((9 <=? n) && (n <=? 13)) || (n =? 32) || (n =? 160).

Fixpoint skip_space (s : string) : string :=
  match s with
  | EmptyString => EmptyString
  | String c s' => if is_space c then skip_space s' else s
  end.

Definition digit (c : ascii) : option Z :=
  let n := nat_of_ascii c in
  if (48 <=? n) && (n <=? 57) then Some (Z.of_nat (n - 48)) else None.

(** The value of the longest prefix of decimal digits; [None] (NaN) when
    there is no digit. *)
Fixpoint digits (acc : Z) (seen : bool) (s : string) : option Z :=
  match s with
  | EmptyString => if seen then Some acc else None
  | String c s' =>
      match digit c with
      | Some d => digits (acc * 10 + d) true s'
      | None => if seen then Some acc else None
      end
  end.

(** [parseInt(s, 10)]; [None] is [NaN]. *)
Definition parseInt10 (s : string) : option Z :=
  match skip_space s with
  | String "-" s' => Z.opp <$> digits 0 false s'
  | String "+" s' => digits 0 false s'
  | s' => digits 0 false s'
  end.

(** [`${v}`] for a string, an integer or a boolean; the rendering of the
    other values is not covered. *)
Definition template (v : JValue) : outcome string :=
  match v with
  | JStr s => Ret s
  | JNum n => Ret (pretty n)
  | JBool true => Ret "true"%string
  | JBool false => Ret "false"%string
  | _ => Unsupported
  end.

End Text.

(* ===================================================================== *)
(** * Catalog listing endpoint  (api/feeds.js, 90-209)                    *)
(* ===================================================================== *)

Module Listing.

(** [v || d] *)
Definition or_else (v d : JValue) : JValue := if truthy v then v else d.

Record Location : Type := { location : string; countryCode : string }.

(** [cityPatterns], in [Object.entries] order. *)
Definition cityPatterns : list (string * (string * string)) :=
  [("oslo", ("Oslo", "NO")); ("bergen", ("Bergen", "NO"));
   ("trondheim", ("Trondheim", "NO")); ("stockholm", ("Stockholm", "SE"));
   ("copenhagen", ("Copenhagen", "DK")); ("helsinki", ("Helsinki", "FI"));
   ("paris", ("Paris", "FR")); ("london", ("London", "GB"));
   ("berlin", ("Berlin", "DE")); ("amsterdam", ("Amsterdam", "NL"));
   ("new york", ("New York", "US")); ("san francisco", ("San Francisco", "US"));
   ("chicago", ("Chicago", "US")); ("toronto", ("Toronto", "CA"));
   ("montreal", ("Montreal", "CA")); ("vancouver", ("Vancouver", "CA"));
   ("sydney", ("Sydney", "AU")); ("melbourne", ("Melbourne", "AU"))]%string.

(** The [for ... of Object.entries(cityPatterns)] loop. *)
Fixpoint first_city (searchText : string)
    (patterns : list (string * (string * string))) : Location :=
  match patterns with
  | [] => {| location := "Unknown Location"; countryCode := "" |}
  | (pattern, (city, country)) :: rest =>
      if includes pattern searchText
      then {| location := city; countryCode := country |}
      else first_city searchText rest
  end.

(** The text that is searched: [`${provider} ${producerUrl}`.toLowerCase()]. *)
Definition search_text (feed : JValue) : outcome string :=
  provider ← get feed "provider";
  source_info ← get feed "source_info";
  producer_url ← get (or_else source_info (JObj [])) "producer_url";
  p ← Text.template (or_else provider (JStr ""));
  u ← Text.template (or_else producer_url (JStr ""));
  Ret (Text.toLowerCase (p +:+ " " +:+ u)).

(** [extractLocationFromFeed(feed)] *)
Definition extractLocationFromFeed (feed : JValue) : outcome Location :=
  searchText ← search_text feed;
  Ret (first_city searchText cityPatterns).

(** An entry of the processed catalog. *)
Record System : Type := {
  systemId : JValue;
  name : JValue;
  systemLocation : string;
  systemCountryCode : string;
  url : JValue;
  autoDiscoveryUrl : JValue;
  provider : JValue;
  status : JValue;
  entity_type : JValue;
  features : JValue;
  note : JValue
}.

(** [feed => feed.data_type === 'gbfs'] *)
Definition is_gbfs (feed : JValue) : outcome bool :=
  data_type ← get feed "data_type";
  Ret (match data_type with JStr s => String.eqb s "gbfs" | _ => false end).

(** The [map] callback of [processFeeds]. *)
Definition to_system (feed : JValue) : outcome System :=
  source_info ← get feed "source_info";
  producer_url ← get (or_else source_info (JObj [])) "producer_url";
  let producerUrl := or_else producer_url (JStr "") in
  loc ← extractLocationFromFeed feed;
  id ← get feed "id";
  provider ← get feed "provider";
  status ← get feed "status";
  entity_type ← get feed "entity_type";
  features ← get feed "features";
  note ← get feed "note";
  Ret {| systemId := id; name := provider;
         systemLocation := location loc; systemCountryCode := countryCode loc;
         url := producerUrl; autoDiscoveryUrl := producerUrl;
         provider := provider; status := or_else status (JStr "unknown");
         entity_type := entity_type; features := or_else features (JArr []);
         note := or_else note (JStr "") |}.

(** [arr.map(f)] for a callback that may raise. *)
Fixpoint js_map {A B : Type} (f : A -> outcome B) (l : list A) : outcome (list B) :=
  match l with
  | [] => Ret []
  | x :: rest => y ← f x; ys ← js_map f rest; Ret (y :: ys)
  end.

(** [processFeeds(feeds)] *)
Definition processFeeds (feeds : list JValue) : outcome (list System) :=
  gbfs ← js_filter is_gbfs feeds;
  js_map to_system gbfs.

Definition CACHE_DURATION_HOURS : Z := 6.

(** The module-level [feedsCache] when it is set. *)
Record FeedsCache : Type := { data : list System; timestamp : Z }.

(** [isCacheValid()], with [now] the value of [Date.now()]. *)
Definition isCacheValid (feedsCache : option FeedsCache) (now : Z) : bool :=
  match feedsCache with
  | None => false
  | Some cache =>
      let age := (now - timestamp cache)%Z in
      (age <? CACHE_DURATION_HOURS * 60 * 60 * 1000)%Z
  end.

(** The module-level state of [api/feeds.js]. *)
Record Server : Type := {
  tokenManager : Catalog.TokenManager;
  feedsCache : option FeedsCache
}.

(** [req.method], [req.query.force_refresh] and [req.query.limit]. *)
Record Request : Type := {
  method : string;
  force_refresh : option string;
  limit : option string
}.

(** The clock reads of one call, in the order they occur: [Date.now()] in
    [isCacheValid], [new Date()] in [isTokenExpired], [Date.now()] in
    [refreshAccessToken], [new Date()] for the new cache entry and
    [new Date()] for [last_updated]. *)
Record Clock : Type := {
  at_check : Z; at_token : Z; at_refresh : Z; at_store : Z; at_reply : Z
}.

(** The JSON body of a reply.  [last_updated] is kept as the time value that
    [toISOString()] prints; the message of a TypeError is the engine's and
    is left open ([None]). *)
Inductive Payload : Type :=
| Empty
| ErrorMessage (error : option string)
| Systems (systems : list System) (total_count : Z) (last_updated : Z) (cache_hit : bool).

Record Reply : Type := { code : Z; payload : Payload }.

(** What a call comes to: a reply, an [await] that never settles, a coercion
    outside the embedding, or a paging loop still running after [fuel]
    turns. *)
Inductive run : Type :=
| Replied (reply : Reply) (server : Server) (sent : list Catalog.Sent)
| Hanging (server : Server) (sent : list Catalog.Sent)
| Uncovered
| Running.

(** [limit && limit > 0 ? systems.slice(0, limit) : systems] *)
Definition apply_limit (limit : option Z) (systems : list System) : list System :=
  match limit with
  | Some n => if (0 <? n)%Z then take (Z.to_nat n) systems else systems
  | None => systems
  end.

(** [error.message || 'Failed to fetch feeds'] *)
Definition failure (e : JsError) : Reply :=
  {| code := 500;
     payload := ErrorMessage
       match e with
       | Error message =>
           Some (if String.eqb message "" then "Failed to fetch feeds"%string else message)
       | TypeError => None
       end |}.

(** [handler(req, res)] *)
Definition handler (fuel : nat) (env : option string)
    (exchange catalog : string -> FetchResult) (server : Server)
    (req : Request) (clock : Clock) : run :=
  if String.eqb (method req) "OPTIONS" then
    Replied {| code := 200; payload := Empty |} server []
  else if negb (String.eqb (method req) "GET") then
    Replied {| code := 405; payload := ErrorMessage (Some "Method not allowed"%string) |}
            server []
  else
    let forceRefresh :=
      match force_refresh req with
      | Some s => String.eqb s "true"
      | None => false
      end in
    let limit :=
      match limit req with
      | Some s => if String.eqb s "" then None else Text.parseInt10 s
      | None => None
      end in
    let cached :=
      if negb forceRefresh && isCacheValid (feedsCache server) (at_check clock)
      then feedsCache server else None in
    match cached with
    | Some cache =>
        let systems := apply_limit limit (data cache) in
        Replied {| code := 200;
                   payload := Systems systems (Z.of_nat (length systems))
                                      (timestamp cache) true |}
                server []
    | None =>
        match Catalog.fetchAllGbfsFeeds fuel env exchange catalog (tokenManager server)
                (at_token clock) (at_refresh clock) "gbfs" with
        | None => Running
        | Some (result, tokenManager', sent) =>
            let server' := {| tokenManager := tokenManager';
                              feedsCache := feedsCache server |} in
            match result ≫= processFeeds with
            | Ret systems =>
                let resultSystems := apply_limit limit systems in
                Replied {| code := 200;
                           payload := Systems resultSystems
                                              (Z.of_nat (length resultSystems))
                                              (at_reply clock) false |}
                        {| tokenManager := tokenManager';
                           feedsCache := Some {| data := systems;
                                                 timestamp := at_store clock |} |}
                        sent
            | Throw e => Replied (failure e) server' sent
            | Pending => Hanging server' sent
            | Unsupported => Uncovered
            end
        end
    end.

End Listing.

(* ===================================================================== *)
(** * Search and grouping  (src/utils/countryUtils.ts, 13-176)            *)
(* ===================================================================== *)

Module Systems.

(** The fields of the [GBFSSystem] interface that the functions read; all
    declared as strings. *)
Record GBFSSystem : Type := {
  countryCode : string;
  name : string;
  location : string;
  systemId : string;
  url : string
}.

Record CitySystemGroup : Type := {
  city : string;
  groupCountryCode : string;
  operators : list GBFSSystem;
  systemIds : list string
}.

(** [searchSystems(systems, query)] *)
Definition searchSystems (systems : list GBFSSystem) (query : string) : list GBFSSystem :=
  if String.eqb query "" then []
  else
    let lowerCaseQuery := Text.toLowerCase query in
    List.filter
      (fun system =>
         let nameMatch := includes lowerCaseQuery (Text.toLowerCase (name system)) in
         let locationMatch := includes lowerCaseQuery (Text.toLowerCase (location system)) in
         nameMatch || locationMatch)
      systems.

(** [cityMap.get(cityKey)] on a [Map] kept as the list of its entries in
    insertion order. *)
Fixpoint map_get (key : string) (cityMap : list (string * CitySystemGroup))
    : option CitySystemGroup :=
  match cityMap with
  | [] => None
  | (k, group) :: rest => if String.eqb key k then Some group else map_get key rest
  end.

(** The two [push] calls on the group object held under [key]. *)
Fixpoint map_push (key : string) (system : GBFSSystem)
    (cityMap : list (string * CitySystemGroup)) : list (string * CitySystemGroup) :=
  match cityMap with
  | [] => []
  | (k, group) :: rest =>
      if String.eqb key k then
        (k, {| city := city group; groupCountryCode := groupCountryCode group;
               operators := operators group ++ [system];
               systemIds := systemIds group ++ [systemId system] |}) :: rest
      else (k, group) :: map_push key system rest
  end.

(** The body of [systems.forEach(system => ...)]. *)
Definition add_system (cityMap : list (string * CitySystemGroup)) (system : GBFSSystem)
    : list (string * CitySystemGroup) :=
  let cityKey := Text.toLowerCase (location system) in
  let cityMap' :=
    match map_get cityKey cityMap with
    | Some _ => cityMap
    | None =>
        cityMap ++ [(cityKey, {| city := location system;
                                 groupCountryCode := countryCode system;
                                 operators := []; systemIds := [] |})]
    end in
  map_push cityKey system cityMap'.

(** [groupSystemsByCity(systems)] *)
Definition groupSystemsByCity (systems : list GBFSSystem) : list CitySystemGroup :=
  if (length systems =? 0)%nat then []
  else (fold_left add_system systems []).*2.

End Systems.

(* ===================================================================== *)
(** * Search box  (src/app/analytics/index.ts, 252-267 and 604-671)       *)
(* ===================================================================== *)

Module SearchBox.

(** The component state that the handlers read and write, and the list of
    cities handed to [navigate(buildUrl({ city }))], oldest first.  Each
    handler runs against the state of the latest render, so the state is
    passed from one event to the next. *)
Record State : Type := {
  searchQuery : string;
  suggestions : list Systems.CitySystemGroup;
  isDropdownOpen : bool;
  activeIndex : Z;
  navigated : list string
}.

Inductive Key : Type := ArrowDown | ArrowUp | Enter | Escape | OtherKey.

(** The callback of [debouncedSearch], once it runs. *)
Definition debouncedSearch (query : string) (systems : list Systems.GBFSSystem)
    (st : State) : State :=
  if (1 <? String.length query)%nat then
    let filteredSystems := Systems.searchSystems systems query in
    let groupedByCity := Systems.groupSystemsByCity filteredSystems in
    {| searchQuery := searchQuery st;
       suggestions := groupedByCity;
       isDropdownOpen := isDropdownOpen st;
       activeIndex := if (0 <? length groupedByCity)%nat then 0%Z else (-1)%Z;
       navigated := navigated st |}
  else
    {| searchQuery := searchQuery st;
       suggestions := [];
       isDropdownOpen := false;
       activeIndex := activeIndex st;
       navigated := navigated st |}.

(** [handleSuggestionClick(cityGroup)] *)
Definition handleSuggestionClick (cityGroup : Systems.CitySystemGroup) (st : State) : State :=
  {| searchQuery := Systems.city cityGroup;
     suggestions := [];
     isDropdownOpen := false;
     activeIndex := activeIndex st;
     navigated := navigated st ++ [Systems.city cityGroup] |}.

Definition setActiveIndex (i : Z) (st : State) : State :=
  {| searchQuery := searchQuery st;
     suggestions := suggestions st;
     isDropdownOpen := isDropdownOpen st;
     activeIndex := i;
     navigated := navigated st |}.

(** [handleSuggestionClick(suggestions[i])]; reading [.city] of a missing
    element is a TypeError. *)
Definition click_at (i : nat) (st : State) : outcome State :=
  match suggestions st !! i with
  | Some cityGroup => Ret (handleSuggestionClick cityGroup st)
  | None => Throw TypeError
  end.

(** [handleKeyDown(e)].  [%] is the remainder that takes the sign of the
    dividend, [Z.rem].  The last branch of [Enter] calls
    [handleSearchClick], which is left out here. *)
Definition handleKeyDown (key : Key) (st : State) : outcome State :=
  let n := Z.of_nat (length (suggestions st)) in
  if negb (isDropdownOpen st) || (n =? 0)%Z then Ret st
  else
    match key with
    | ArrowDown => Ret (setActiveIndex (Z.rem (activeIndex st + 1) n) st)
    | ArrowUp => Ret (setActiveIndex (Z.rem (activeIndex st - 1 + n) n) st)
    | Enter =>
        if (0 <=? activeIndex st)%Z && (activeIndex st <? n)%Z
        then click_at (Z.to_nat (activeIndex st)) st
        else if (0 <? n)%Z then click_at 0 st
        else Unsupported
    | Escape =>
        Ret {| searchQuery := searchQuery st;
               suggestions := suggestions st;
               isDropdownOpen := false;
               activeIndex := (-1)%Z;
               navigated := navigated st |}
    | OtherKey => Ret st
    end.

(** A run of key presses, each handled in the state the previous one left. *)
Fixpoint press (keys : list Key) (st : State) : outcome State :=
  match keys with
  | [] => Ret st
  | key :: rest => st' ← handleKeyDown key st; press rest st'
  end.

Definition is_arrow (key : Key) : bool :=
  match key with ArrowDown | ArrowUp => true | _ => false end.

End SearchBox.

(* ===================================================================== *)
(** * Feed queues of the bulk pipeline                                    *)
(**   (src/app/analytics/index.ts, 420-437, 447-467 and 512-515)          *)
(* ===================================================================== *)

Module Phases.

(** The name under which a feed of an operator is queued:
    [`${operator.systemId}::${feedType}`]. *)
Definition queue_name (systemId feedType : string) : string :=
  systemId +:+ "::" +:+ feedType.

(** [s.split('::')], the piece being read in [cur]: the separator is looked
    for from the left and the search resumes behind each occurrence. *)
Fixpoint split_colons (cur s : string) : list string :=
  match s with
  | EmptyString => [cur]
  | String c s' =>
      match s' with
      | String d rest =>
          if Ascii.eqb c ":" && Ascii.eqb d ":" then cur :: split_colons "" rest
          else split_colons (cur +:+ String c "") s'
      | EmptyString => split_colons (cur +:+ String c "") s'
      end
  end.

(** [const [systemId, feedType] = result.feed_name.split('::')]; a missing
    second piece is [undefined]. *)
Definition split_name (feed_name : string) : string * option string :=
  match split_colons "" feed_name with
  | systemId :: feedType :: _ => (systemId, Some feedType)
  | [systemId] => (systemId, None)
  | [] => (""%string, None)
  end.

(** [feed.name.startsWith(`${systemId}::`)] *)
Definition own (systemId : string) (feed : FeedFetch.GBFSFeed) : bool :=
  String.prefix (systemId +:+ "::") (FeedFetch.name feed).

(** Lines 458-466, on the content of a fetched [vehicle_types] feed: the
    value assigned to [data.primaryFormFactor], [None] when the field is
    left as it was. *)
Definition primary_form_factor (feedContent : JValue) : outcome (option string) :=
  vehicleTypes ← get feedContent "vehicle_types";
  match vehicleTypes with
  | JArr l =>
      mapped ← Listing.js_map (fun vt => get vt "form_factor") l;
      let formFactors := List.filter truthy mapped in
      scooter ← js_some (fun ff => Classification.form_factor_includes ff "scooter")
                        formFactors;
      if scooter : bool then Ret (Some "scooter"%string)
      else
        bicycle ← js_some (fun ff => Classification.form_factor_includes ff "bicycle")
                          formFactors;
        if bicycle : bool then Ret (Some "bicycle"%string) else Ret None
  | _ => Ret None
  end.

End Phases.

(* ===================================================================== *)
(** * City page  (src/app/analytics/index.ts, 317-369)                    *)
(* ===================================================================== *)

Module CityPage.

(** What the effect on [?city] decides: clear the results (no city given),
    wait for the systems to load, show the matching group, or show
    nothing. *)
Inductive Resolution : Type :=
| Cleared
| Waiting
| Resolved (cityGroup : Systems.CitySystemGroup)
| NoMatch.

(** [cityParam] is [params.get("city")], [None] when the parameter is
    absent; the match is
    [grouped.find(g => g.city.toLowerCase() === cityParam.toLowerCase())]. *)
Definition resolve (cityParam : option string) (allSystems : list Systems.GBFSSystem)
    : Resolution :=
  match cityParam with
  | None => Cleared
  | Some cityParam =>
      if String.eqb cityParam "" then Cleared
      else if (length allSystems =? 0)%nat then Waiting
      else
        let grouped := Systems.groupSystemsByCity allSystems in
        match List.find (fun g => String.eqb (Text.toLowerCase (Systems.city g))
                                             (Text.toLowerCase cityParam)) grouped with
        | Some cityGroup => Resolved cityGroup
        | None => NoMatch
        end
  end.

End CityPage.

(* ===================================================================== *)
(** * Operator cards and totals                                           *)
(**   (src/app/analytics/index.ts, 246-249 and 810-831)                   *)
(* ===================================================================== *)

Module Cards.

(** [/\d/] and [/\w/] on one code unit. *)
Definition is_digit (c : ascii) : bool :=
  let n := nat_of_ascii c in (48 <=? n)%nat && (n <=? 57)%nat.

Definition is_word (c : ascii) : bool :=
  let n := nat_of_ascii c in
  is_digit c || ((65 <=? n)%nat && (n <=? 90)%nat)
  || ((97 <=? n)%nat && (n <=? 122)%nat) || (n =? 95)%nat.

Definition starts_with_digit (s : string) : bool :=
  match s with
  | String c _ => is_digit c
  | EmptyString => false
  end.

(** [(\d{3})+(?!\d)] tried at the head of [s]: three digits, and then either
    no digit follows or another group is taken. *)
Fixpoint groups_follow (s : string) : bool :=
  match s with
  | String a (String b (String c rest)) =>
      is_digit a && is_digit b && is_digit c
      && (negb (starts_with_digit rest) || groups_follow rest)
  | _ => false
  end.

(** [\B] between the code unit [prev] (none at the start) and the head of
    [s] (none at the end): both or neither are word characters. *)
Definition not_boundary (prev : option ascii) (s : string) : bool :=
  Bool.eqb (match prev with Some c => is_word c | None => false end)
           (match s with String c _ => is_word c | EmptyString => false end).

(** [s.replace(/\B(?=(\d{3})+(?!\d))/g, " ")]: the pattern matches the empty
    string, so every position is tried once, and a space is put at each
    position where it matches. *)
Fixpoint replace_from (prev : option ascii) (s : string) : string :=
  (if not_boundary prev s && groups_follow s then " " else "") +:+
  match s with
  | EmptyString => EmptyString
  | String c rest => String c (replace_from (Some c) rest)
  end.

(** [formatNumberWithSpaces(num)] on [null] and on the decimal digits that
    [toString()] gives for an integer. *)
Definition formatDigits (digits : option string) : string :=
  match digits with
  | None => ""
  | Some s => replace_from None s
  end.

Definition formatNumberWithSpaces (num : option Z) : string :=
  formatDigits (pretty <$> num).

(** The comparator of the card list, on the [totalVehicleCount] of the two
    operators ([None]: [null] or [undefined]). *)
Definition compare (countA countB : option Z) : Z :=
  match countA, countB with
  | None, None => 0
  | None, Some _ => 1
  | Some _, None => -1
  | Some a, Some b => b - a
  end.

(** [arr.sort(cmp)] for a consistent comparator: the sort is stable, so its
    result is the one arrangement of the elements that is ordered by [cmp]
    and keeps elements that compare equal in their original order.  Built
    here by inserting each element before the first one it does not come
    after. *)
Fixpoint insert {A : Type} (cmp : A -> A -> Z) (x : A) (sorted : list A) : list A :=
  match sorted with
  | [] => [x]
  | y :: rest => if (cmp x y <=? 0)%Z then x :: y :: rest else y :: insert cmp x rest
  end.

Definition sort {A : Type} (cmp : A -> A -> Z) (arr : list A) : list A :=
  fold_right (insert cmp) [] arr.

(** The cards shown once loading is over (lines 810-831);
    [operatorDisplayData id] is the [totalVehicleCount] of the entry under
    [id], when there is an entry. *)
Definition shown_cards (operatorDisplayData : string -> option (option Z))
    (operators : list Systems.GBFSSystem) : list Systems.GBFSSystem :=
  let count op :=
    match operatorDisplayData (Systems.systemId op) with
    | Some totalVehicleCount => totalVehicleCount
    | None => None
    end in
  sort (fun a b => compare (count a) (count b))
       (List.filter (fun op => bool_decide (is_Some (operatorDisplayData (Systems.systemId op))))
                    operators).

End Cards.

(* ===================================================================== *)
(** * Discovery results  (src/app/analytics/index.ts, 390-441)            *)
(* ===================================================================== *)

Module DiscoveryPhase.

(** The fields that the callback of [discoveryResults.forEach] sets on the
    operator's entry; a field that is not assigned is [None]. *)
Record Entry : Type := {
  discoveryError : option string;
  operatorNameFromDiscovery : option JValue;
  feedsFromDiscovery : option (gmap string string);
  operatorType : option Classification.OperatorType
}.

(** [result.error || fallback] where [result.error] is a string or [null]. *)
Definition error_or (error : option string) (fallback : string) : string :=
  match error with
  | Some message => if String.eqb message "" then fallback else message
  | None => fallback
  end.

Definition has_error (error : option string) : bool :=
  match error with
  | Some message => negb (String.eqb message "")
  | None => false
  end.

Definition queued (systemId feedType : string) (feeds : gmap string string)
    : FeedFetch.GBFSFeed :=
  {| FeedFetch.name := systemId +:+ "::" +:+ feedType;
     FeedFetch.url := default ""%string (feeds !! feedType) |}.

Definition has_url (feeds : gmap string string) (feedType : string) : bool :=
  bool_decide (is_Some (Pipeline.truthy_url feeds feedType)).

(** The callback, for the operator [operator] found under
    [result.feed_name]: the entry stored in [operatorDataMap] and the two
    queues afterwards.  The operator name passed to the classifier is only
    logged. *)
Definition process (operator : Systems.GBFSSystem) (result : FeedFetch.GBFSFeedData)
    (allOptionalFeedsToFetch allStatusFeedsToFetch : list FeedFetch.GBFSFeed)
    : outcome (Entry * list FeedFetch.GBFSFeed * list FeedFetch.GBFSFeed) :=
  if has_error (FeedFetch.error result) || negb (truthy (FeedFetch.data result)) then
    Ret ({| discoveryError :=
              Some (error_or (FeedFetch.error result)
                             "Failed to fetch or parse gbfs.json.");
            operatorNameFromDiscovery := None;
            feedsFromDiscovery := None;
            operatorType := None |},
         allOptionalFeedsToFetch, allStatusFeedsToFetch)
  else
    discovered ← Discovery.discoverFeeds (FeedFetch.data result) (Systems.name operator);
    let discoveredFeedUrls := discovered.1 in
    let nameFromGbfsJson := discovered.2 in
    if (length (record_keys discoveredFeedUrls) =? 0)%nat then
      Ret ({| discoveryError :=
                Some "Discovery failed: No valid feeds found in gbfs.json."%string;
              operatorNameFromDiscovery := Some nameFromGbfsJson;
              feedsFromDiscovery := Some discoveredFeedUrls;
              operatorType := Some Classification.unknown |},
           allOptionalFeedsToFetch, allStatusFeedsToFetch)
    else
      operatorType' ←
        Classification.classifyOperatorType discoveredFeedUrls (Systems.name operator)
                                            JUndefined;
      let systemId := Systems.systemId operator in
      let optional1 :=
        if has_url discoveredFeedUrls "system_information"
        then allOptionalFeedsToFetch ++ [queued systemId "system_information" discoveredFeedUrls]
        else allOptionalFeedsToFetch in
      let optional2 :=
        if has_url discoveredFeedUrls "vehicle_types"
        then optional1 ++ [queued systemId "vehicle_types" discoveredFeedUrls]
        else optional1 in
      let status' :=
        if bool_decide (operatorType' = Classification.station_based)
           && has_url discoveredFeedUrls "station_status"
        then allStatusFeedsToFetch ++ [queued systemId "station_status" discoveredFeedUrls]
        else if bool_decide (operatorType' = Classification.free_floating) then
          if has_url discoveredFeedUrls "vehicle_status"
          then allStatusFeedsToFetch ++ [queued systemId "vehicle_status" discoveredFeedUrls]
          else if has_url discoveredFeedUrls "free_bike_status"
          then allStatusFeedsToFetch ++ [queued systemId "free_bike_status" discoveredFeedUrls]
          else allStatusFeedsToFetch
        else allStatusFeedsToFetch in
      Ret ({| discoveryError := None;
              operatorNameFromDiscovery := Some nameFromGbfsJson;
              feedsFromDiscovery := Some discoveredFeedUrls;
              operatorType := Some operatorType' |},
           optional2, status').

End DiscoveryPhase.

(* ===================================================================== *)
(** * Vocabulary of the specification and example documents               *)
(* ===================================================================== *)

Import Classification Normalizer Discovery.

(** [contains sub s]: [sub] occurs in [s] as a contiguous block. *)
Definition contains (sub s : string) : Prop :=
  exists pre post : string, s = pre +:+ sub +:+ post.

Definition hybrid_feeds : gmap string string :=
  <["station_information" := "https://op.example/station_information.json"]>
  (<["station_status" := "https://op.example/station_status.json"]>
  (<["vehicle_status" := "https://op.example/vehicle_status.json"]>
  (<["free_bike_status" := "https://op.example/free_bike_status.json"]> ∅)))%string.

(** A declared vehicle type whose form factor matches [scooter]: its
    [form_factor] is a string in which [scooter] occurs. *)
Definition declares_scooter (vt : JValue) : Prop :=
  exists s, get vt "form_factor" = Ret (JStr s) /\ contains "scooter" s.

(** A vehicle type of the shape the GBFS schema gives it: an entry that is
    not [null] and whose [form_factor], when it has a truthy one, is a
    string. *)
Definition plain_vehicle_type (vt : JValue) : Prop :=
  exists ff, get vt "form_factor" = Ret ff /\
             (truthy ff = false \/ exists s, ff = JStr s).

Definition scooter_type : JValue := JObj [("form_factor", JStr "scooter")]%string.

Definition scooter_evidence : JValue :=
  JObj [("vehicle_types", JArr [scooter_type])]%string.

Definition station_a : list (string * JValue) :=
  [("num_bikes_available", JNum 3); ("num_docks_available", JNum 5)]%string.

Definition station_b : list (string * JValue) :=
  [("num_bikes_available", JNum 2); ("num_bikes_disabled", JNum 1);
   ("num_docks_available", JNum 4)]%string.

(** The status document [{stations: [station_a, station_b]}]. *)
Definition station_example : ParsedFeed :=
  {| data := JObj [("stations", JArr [JObj station_a; JObj station_b])]%string |}.

(** The same document with a [station_id] on each station. *)
Definition station_example_with_ids (id_a id_b : string) : ParsedFeed :=
  {| data := JObj [("stations",
                    JArr [JObj (("station_id", JStr id_a) :: station_a);
                          JObj (("station_id", JStr id_b) :: station_b)])]%string |}.

(** The array a free-floating status document offers: [vehicles] when that
    field is an array, else [bikes] when that one is. *)
Definition offers_array (d : JValue) (l : list JValue) : Prop :=
  get d "vehicles" = Ret (JArr l) \/
  ((forall l', get d "vehicles" ≠ Ret (JArr l')) /\ get d "bikes" = Ret (JArr l)).

Definition offers_no_array (d : JValue) : Prop :=
  (forall l, get d "vehicles" ≠ Ret (JArr l)) /\
  (forall l, get d "bikes" ≠ Ret (JArr l)).

(** The flag [k] of the entry [v] is explicitly [false]. *)
Definition explicitly_false (v : JValue) (k : string) : bool :=
  match get v k with
  | Ret (JBool false) => true
  | _ => false
  end.

(** An entry counts as available when both flags are explicitly [false]. *)
Definition counts_as_available (v : JValue) : bool :=
  explicitly_false v "is_disabled" && explicitly_false v "is_reserved".

Definition not_nullish (v : JValue) : Prop := v ≠ JNull /\ v ≠ JUndefined.

Definition vehicles_example : ParsedFeed :=
  {| data := JObj [("vehicles",
        JArr [JObj [("is_disabled", JBool false); ("is_reserved", JBool false)];
              JObj [("is_disabled", JBool true); ("is_reserved", JBool false)];
              JObj []])]%string |}.

Definition vehicles_with_null : ParsedFeed :=
  {| data := JObj [("vehicles", JArr [JNull])]%string |}.

Definition bikes_example : ParsedFeed :=
  {| data := JObj [("vehicles", JStr "n/a");
                   ("bikes", JArr [JObj [("is_disabled", JBool false);
                                         ("is_reserved", JBool false)];
                                   JNum 7])]%string |}.

(** A feed entry that carries the string name [n] and the string url [u]. *)
Definition valid_entry (e : JValue) (n u : string) : Prop :=
  get e "name" = Ret (JStr n) /\ get e "url" = Ret (JStr u).

(** The places of a discovery document where a feed list is looked for: the
    (unwrapped) document itself and the objects under its keys. *)
Definition block (content b : JValue) : Prop :=
  b = content \/
  exists lang, get content lang = Ret b /\ truthy b = true /\ typeof_object b = true.

(** Every binding of [urls] that is not in [m] comes from a valid entry of
    a feed list of the document. *)
Definition from_entries (content : JValue) (m urls : gmap string string) : Prop :=
  forall k u, urls !! k = Some u ->
    m !! k = Some u \/
    exists b l e, block content b /\ get b "feeds" = Ret (JArr l) /\
                  e ∈ l /\ valid_entry e k u.

(** No valid feed entry can be found in the document. *)
Definition no_valid_entry (content : JValue) : Prop :=
  forall b l e n u, block content b -> get b "feeds" = Ret (JArr l) ->
                    e ∈ l -> ~ valid_entry e n u.

(** No block that holds a feed list has a truthy [name]. *)
Definition no_block_name (content : JValue) : Prop :=
  forall b l n, block content b -> get b "feeds" = Ret (JArr l) ->
                get b "name" = Ret n -> truthy n = false.

(** The document [{en: {name: "X", feeds: []}}]. *)
Definition named_without_feeds : JValue :=
  JObj [("en", JObj [("name", JStr "X"); ("feeds", JArr [])])]%string.

(** The document [{en: {name: "X", feeds: [{name: "station_status", url: "u"}]}}]. *)
Definition discovery_example : JValue :=
  JObj [("en", JObj [("name", JStr "X");
                     ("feeds", JArr [JObj [("name", JStr "station_status");
                                           ("url", JStr "u")]])])]%string.

(** A POST request whose body carries the array [feeds]. *)
Definition post (feeds : list FeedFetch.GBFSFeed) : FeedFetch.Request :=
  {| FeedFetch.method := "POST"; FeedFetch.feeds := Some (Some <$> feeds) |}.

(** The request is answered from the network: the cache holds no entry for
    its key that is younger than the TTL at time [now]. *)
Definition cache_miss (cache : gmap (list string) FeedFetch.CacheEntry)
    (feeds : list FeedFetch.GBFSFeed) (now : Z) : Prop :=
  forall cached, cache !! FeedFetch.cacheKey feeds = Some cached ->
                 (FeedFetch.CACHE_TTL <= now - FeedFetch.timestamp cached)%Z.

(** Every entry of the cache was stored for a request: its key is the key
    of a list of items, and its results are what fetching those items gave
    on the network of that time.  True of the empty cache and kept by every
    call of the handler. *)
Definition cache_wf (cache : gmap (list string) FeedFetch.CacheEntry) : Prop :=
  forall key entry, cache !! key = Some entry ->
    exists (net : string -> FetchResult) (stored : list FeedFetch.GBFSFeed),
      key = FeedFetch.cacheKey stored /\
      mapM (FeedFetch.fetchSingleFeed net) stored = Some (FeedFetch.entry_data entry).


(** What the result for an item reports, given what the network did for the
    item's own URL: the item's name; the parsed body and no error for a
    success response; otherwise no data and the error of that exchange, the
    abort error when nothing answered within the time limit. *)
Definition reported (net : string -> FetchResult) (item : FeedFetch.GBFSFeed)
    (r : FeedFetch.GBFSFeedData) : Prop :=
  FeedFetch.feed_name r = FeedFetch.name item /\
  match net (FeedFetch.url item) with
  | NoAnswer =>
      FeedFetch.data r = JNull /\ FeedFetch.error r = Some FeedFetch.abort_message
  | Rejected message =>
      FeedFetch.data r = JNull /\
      FeedFetch.error r = Some (if String.eqb message "" then "Unknown error"%string
                                else message)
  | Response status statusText body =>
      if ok status then
        match body with
        | Json v => FeedFetch.data r = v /\ FeedFetch.error r = None
        | NotJson message =>
            FeedFetch.data r = JNull /\
            FeedFetch.error r = Some (if String.eqb message "" then "Unknown error"%string
                                      else message)
        | Stalled => False
        end
      else
        FeedFetch.data r = JNull /\
        FeedFetch.error r = Some ("HTTP " +:+ pretty status +:+ ": " +:+ statusText)
  end.

(** The caches a running server can hold: the empty one of module load and
    what calls of the handler make of it. *)
Inductive reachable : gmap (list string) FeedFetch.CacheEntry -> Prop :=
| reachable_empty : reachable ∅
| reachable_step net cache req now later :
    reachable cache ->
    reachable (FeedFetch.handler net cache req now later).2.

(** A network on which nothing ever answers. *)
Definition silent_net : string -> FetchResult := fun _ => NoAnswer.

Definition feed_a : FeedFetch.GBFSFeed :=
  {| FeedFetch.name := "a"; FeedFetch.url := "https://op.example/gbfs.json" |}.

Definition feed_b : FeedFetch.GBFSFeed :=
  {| FeedFetch.name := "b"; FeedFetch.url := "https://op.example/gbfs.json" |}.

Definition feed_c : FeedFetch.GBFSFeed :=
  {| FeedFetch.name := "c"; FeedFetch.url := "https://other.example/gbfs.json" |}.


(** The stored token is missing, or the current time is at or past the
    stored expiry minus five minutes. *)
Definition needs_refresh (tokenManager : Catalog.TokenManager) (now : Z) : Prop :=
  truthy (Catalog.accessToken tokenManager) = false \/
  Catalog.tokenExpiresAt tokenManager = None \/
  exists expiry, Catalog.tokenExpiresAt tokenManager = Some expiry /\
                 (now >= expiry - 5 * 60 * 1000)%Z.

(** The upstream answers the page request number [i] (offset [i * limit])
    with a success response whose records are [pages !! i]. *)
Definition serves (catalog : string -> FetchResult) (dataType : string)
    (pages : list (list JValue)) : Prop :=
  forall i page, pages !! i = Some page ->
    exists status statusText data,
      catalog (Catalog.page_url dataType (Z.of_nat i * Catalog.limit)) =
        Response status statusText (Json data) /\
      ok status = true /\
      Catalog.page_feeds data = Ret (JArr page).

(** The page requests at offsets [0], [limit], ..., [(n - 1) * limit]. *)
Definition page_requests (dataType : string) (n : nat) : list Catalog.Sent :=
  (fun i => Catalog.GetFeeds (Catalog.page_url dataType (Z.of_nat i * Catalog.limit)))
    <$> seq 0 n.

(** An upstream with 2400 records: two pages of 1000 and one of 400, the
    first as a bare array, the others wrapped in [results] and [feeds]. *)
Definition record (n : Z) : JValue := JObj [("id", JNum n)]%string.

Definition three_pages : list (list JValue) :=
  [repeat (record 1) 1000; repeat (record 2) 1000; repeat (record 3) 400].

Definition three_page_catalog (url : string) : FetchResult :=
  if String.eqb url (Catalog.page_url "gbfs" 0) then
    Response 200 "OK" (Json (JArr (repeat (record 1) 1000)))
  else if String.eqb url (Catalog.page_url "gbfs" 1000) then
    Response 200 "OK" (Json (JObj [("results", JArr (repeat (record 2) 1000))]%string))
  else if String.eqb url (Catalog.page_url "gbfs" 2000) then
    Response 200 "OK" (Json (JObj [("feeds", JArr (repeat (record 3) 400))]%string))
  else Rejected "unexpected request".

(** A token manager holding a token that expires four minutes after [now]. *)
Definition expiring_in_four_minutes (now : Z) : Catalog.TokenManager :=
  {| Catalog.accessToken := JStr "stored-token";
     Catalog.tokenExpiresAt := Some (now + 4 * 60 * 1000)%Z |}.

(** A token endpoint that hands out the token ["fresh-token"], valid for
    the default duration. *)
Definition token_endpoint (refresh_token : string) : FetchResult :=
  Response 200 "OK" (Json (JObj [("access_token", JStr "fresh-token")]%string)).

(** An upstream that answers 503 with an HTML page. *)
Definition failing_upstream (url : string) : Proxy.Fetched :=
  Proxy.Responded {| Proxy.status := 503; Proxy.contentType := Some "text/html"%string;
                     Proxy.text := Proxy.Got "<html>unavailable</html>";
                     Proxy.json := Proxy.Failed "SyntaxError" "Unexpected token <" |}.

(** A GET request to the listing endpoint. *)
Definition listing_get (force_refresh limit : option string) : Listing.Request :=
  {| Listing.method := "GET"; Listing.force_refresh := force_refresh;
     Listing.limit := limit |}.

(** The [limit] variable of the listing handler. *)
Definition parsed_limit (limit : option string) : option Z :=
  match limit with
  | Some s => if String.eqb s "" then None else Text.parseInt10 s
  | None => None
  end.

(** Six hours in milliseconds. *)
Definition six_hours : Z := 6 * 60 * 60 * 1000.

(** A catalog record of the upstream. *)
Definition catalog_record (id provider data_type producer_url : string) : JValue :=
  JObj [("id", JStr id); ("provider", JStr provider); ("data_type", JStr data_type);
        ("source_info", JObj [("producer_url", JStr producer_url)])]%string.

(** An upstream with one page of three records, the second not a GBFS feed. *)
Definition small_catalog (url : string) : FetchResult :=
  Response 200 "OK"
    (Json (JArr [catalog_record "mdb-1" "Oslo Bysykkel" "gbfs" "https://gbfs.urbansharing.com/oslobysykkel.no/gbfs.json";
                 catalog_record "mdb-2" "Ruter" "gtfs" "https://ruter.no/gtfs.zip";
                 catalog_record "mdb-3" "Velib Paris" "gbfs" "https://velib.example/gbfs.json"])).

Definition fresh_server : Listing.Server :=
  {| Listing.tokenManager := Catalog.initialTokenManager; Listing.feedsCache := None |}.

Definition steady_clock (t : Z) : Listing.Clock :=
  {| Listing.at_check := t; Listing.at_token := t; Listing.at_refresh := t;
     Listing.at_store := t; Listing.at_reply := t |}.



(** A server that holds a cached (empty) catalog stored at time 0. *)
Definition cached_server : Listing.Server :=
  {| Listing.tokenManager := Catalog.initialTokenManager;
     Listing.feedsCache := Some {| Listing.data := []; Listing.timestamp := 0 |} |}.

(** The processed catalog of [small_catalog]. *)
Definition small_catalog_systems : list Listing.System :=
  match Listing.processFeeds
          [catalog_record "mdb-1" "Oslo Bysykkel" "gbfs" "https://gbfs.urbansharing.com/oslobysykkel.no/gbfs.json";
           catalog_record "mdb-2" "Ruter" "gtfs" "https://ruter.no/gtfs.zip";
           catalog_record "mdb-3" "Velib Paris" "gbfs" "https://velib.example/gbfs.json"] with
  | Ret systems => systems
  | _ => []
  end.

(** The server after a first listing at time 1000. *)
Definition listed_server : Listing.Server :=
  {| Listing.tokenManager :=
       {| Catalog.accessToken := JStr "fresh-token";
          Catalog.tokenExpiresAt := Some (1000 + 3600 * 1000)%Z |};
     Listing.feedsCache :=
       Some {| Listing.data := small_catalog_systems; Listing.timestamp := 1000 |} |}.

(** The systems of [systems] whose lower-cased location is [key]. *)
Definition in_city (key : string) (systems : list Systems.GBFSSystem)
    : list Systems.GBFSSystem :=
  List.filter (fun s => String.eqb (Text.toLowerCase (Systems.location s)) key) systems.

(** What holds of an entry of the city map once the systems [seen] have
    been added: its operators are the systems of that city, in order; its
    ids are theirs; its city and country code are those of the first. *)
Definition group_ok (seen : list Systems.GBFSSystem)
    (entry : string * Systems.CitySystemGroup) : Prop :=
  Systems.operators entry.2 = in_city entry.1 seen /\
  Systems.systemIds entry.2 = Systems.systemId <$> Systems.operators entry.2 /\
  exists first rest,
    Systems.operators entry.2 = first :: rest /\
    Systems.city entry.2 = Systems.location first /\
    Systems.groupCountryCode entry.2 = Systems.countryCode first.

(** What holds of the city map as a whole: its keys are the lower-cased
    locations seen, in order of first appearance. *)
Definition grouped (seen : list Systems.GBFSSystem)
    (cityMap : list (string * Systems.CitySystemGroup)) : Prop :=
  cityMap.*1 = set_order [] (Text.toLowerCase ∘ Systems.location <$> seen) /\
  Forall (group_ok seen) cityMap.

Definition system_of (name location countryCode systemId : string) : Systems.GBFSSystem :=
  {| Systems.countryCode := countryCode; Systems.name := name;
     Systems.location := location; Systems.systemId := systemId;
     Systems.url := "https://op.example/gbfs.json" |}.

Definition small_directory : list Systems.GBFSSystem :=
  [system_of "Oslo Bysykkel" "Oslo" "NO" "oslobysykkel";
   system_of "Bergen Bysykkel" "Bergen" "NO" "bergenbysykkel";
   system_of "Voi" "OSLO" "NO" "voi_oslo"].

Definition two_cities : list Systems.CitySystemGroup :=
  Systems.groupSystemsByCity small_directory.

Definition open_box (i : Z) : SearchBox.State :=
  {| SearchBox.searchQuery := "o";
     SearchBox.suggestions := two_cities;
     SearchBox.isDropdownOpen := true;
     SearchBox.activeIndex := i;
     SearchBox.navigated := [] |}.

(** A system matches a query when its name or its location contains the
    query, case ignored. *)
Definition matches (query : string) (system : Systems.GBFSSystem) : Prop :=
  contains (Text.toLowerCase query) (Text.toLowerCase (Systems.name system)) \/
  contains (Text.toLowerCase query) (Text.toLowerCase (Systems.location system)).

Definition idle_box : SearchBox.State :=
  {| SearchBox.searchQuery := "os";
     SearchBox.suggestions := [];
     SearchBox.isDropdownOpen := true;
     SearchBox.activeIndex := (-1)%Z;
     SearchBox.navigated := [] |}.

Definition no_separator (s : string) : Prop := includes "::" s = false.

Definition station_queue : list FeedFetch.GBFSFeed :=
  [{| FeedFetch.name := "other::vehicle_status";
      FeedFetch.url := "https://other.example/vehicle_status.json" |};
   {| FeedFetch.name := "hybrid::station_status";
      FeedFetch.url := "https://op.example/station_status.json" |}].

Definition hybrid_operator : Pipeline.OperatorData :=
  {| Pipeline.systemId := "hybrid";
     Pipeline.operatorName := "Hybrid";
     Pipeline.operatorType := Some station_based;
     Pipeline.feedsFromDiscovery := Some hybrid_feeds;
     Pipeline.vehicleTypesRaw := scooter_evidence |}.

(** [station[k]] for a station that is an entry of a parsed document, and
    the disabled vehicles a station reports under either name. *)
Definition field (v : JValue) (k : string) : JValue :=
  match get v k with
  | Ret r => r
  | _ => JUndefined
  end.

(** The value of a counter: the number when it is one, otherwise nothing. *)
Definition number_or_zero (v : JValue) : Z :=
  match v with JNum n => n | _ => 0%Z end.

Definition disabled_at (station : JValue) : Z :=
  (number_or_zero (field station "num_bikes_disabled") +
   number_or_zero (field station "num_vehicles_disabled"))%Z.

Definition disabled_sum (stations : list JValue) : Z :=
  fold_right (fun station sum => (disabled_at station + sum)%Z) 0%Z stations.

Definition docks_at (station : JValue) : Z :=
  number_or_zero (field station "num_docks_available").

Definition docks_sum (stations : list JValue) : Z :=
  fold_right (fun station sum => (docks_at station + sum)%Z) 0%Z stations.

Definition both_disabled_names : Normalizer.ParsedFeed :=
  {| Normalizer.data :=
       JObj [("stations",
              JArr [JObj [("station_id", JStr "a"); ("num_bikes_available", JNum 4);
                          ("num_bikes_disabled", JNum 2);
                          ("num_vehicles_disabled", JNum 2);
                          ("num_docks_available", JNum 7)];
                    JObj [("station_id", JStr "a"); ("num_bikes_available", JNum 1)]])]%string |}.

Definition voi_suggestion : Systems.CitySystemGroup :=
  {| Systems.city := "OSLO";
     Systems.groupCountryCode := "NO";
     Systems.operators := [system_of "Voi" "OSLO" "NO" "voi_oslo"];
     Systems.systemIds := ["voi_oslo"%string] |}.

Fixpoint digits_only (s : string) : bool :=
  match s with
  | EmptyString => true
  | String c rest => Cards.is_digit c && digits_only rest
  end.

(** The fleet size under which a card is ordered, and the order of the
    card list: larger fleets first, operators without a count last. *)
Definition fleet (operatorDisplayData : string -> option (option Z))
    (op : Systems.GBFSSystem) : option Z :=
  match operatorDisplayData (Systems.systemId op) with
  | Some totalVehicleCount => totalVehicleCount
  | None => None
  end.

Definition not_after (countA countB : option Z) : Prop :=
  match countA, countB with
  | Some a, Some b => (b <= a)%Z
  | Some _, None => True
  | None, Some _ => False
  | None, None => True
  end.

Definition has_entry (operatorDisplayData : string -> option (option Z))
    (op : Systems.GBFSSystem) : bool :=
  bool_decide (is_Some (operatorDisplayData (Systems.systemId op))).

Definition three_operators : list Systems.GBFSSystem :=
  [system_of "Small" "Oslo" "NO" "small"; system_of "Pending" "Oslo" "NO" "pending";
   system_of "Large" "Oslo" "NO" "large"; system_of "Absent" "Oslo" "NO" "absent"].

Definition three_counts (id : string) : option (option Z) :=
  if String.eqb id "small" then Some (Some 40%Z)
  else if String.eqb id "large" then Some (Some 900%Z)
  else if String.eqb id "pending" then Some None
  else None.

(** The comparator of the card list over a way [key] of reading the fleet
    size of an element, and the order it induces. *)
Definition by_fleet {A : Type} (key : A -> option Z) (a b : A) : Z :=
  Cards.compare (key a) (key b).

Definition fleet_before {A : Type} (key : A -> option Z) (a b : A) : Prop :=
  not_after (key a) (key b).

(** The binding that an entry of a feed list contributes: its name and its
    url, when the entry is truthy and both are strings. *)
Definition entry_binding (e : JValue) : option (string * string) :=
  if truthy e then
    match get e "name", get e "url" with
    | Ret (JStr n), Ret (JStr u) => Some (n, u)
    | _, _ => None
    end
  else None.

Definition add_binding (m : gmap string string) (e : JValue) : gmap string string :=
  match entry_binding e with
  | Some (n, u) => record_set m n u
  | None => m
  end.

(** The map that a feed list yields: the bindings of its entries in order,
    a later entry replacing an earlier one of the same name. *)
Definition bindings (l : list JValue) : gmap string string :=
  fold_left add_binding l ∅.

(** The feed list of a block, when the block holds one. *)
Definition feed_list (b : JValue) : option (list JValue) :=
  match get b "feeds" with
  | Ret feeds => as_array feeds
  | _ => None
  end.

Definition block_bindings (b : JValue) : gmap string string :=
  bindings (default [] (feed_list b)).

(** The feed list of the block yields at least one binding. *)
Definition yields (b : JValue) : bool := bool_decide (block_bindings b ≠ ∅).

(** The object under the key [lang] of the document, when it is a language
    block that holds a feed list. *)
Definition lang_block (content : JValue) (lang : string) : option JValue :=
  match get content lang with
  | Ret b =>
      if truthy b && typeof_object b && bool_decide (is_Some (feed_list b))
      then Some b else None
  | _ => None
  end.

(** The blocks that are read, in order: the language blocks up to and
    including the first one whose feed list yields a binding, and, when
    none does, all of them followed by [root]. *)
Fixpoint scanned_blocks (blocks root : list JValue) : list JValue :=
  match blocks with
  | [] => root
  | b :: rest => b :: (if yields b then [] else scanned_blocks rest root)
  end.

(** The blocks of a document that are read: its language blocks in the
    order ["en"], ["nb"], then the document's other keys, and the document
    itself last when it holds a feed list. *)
Definition scanned (content : JValue) : list JValue :=
  scanned_blocks
    (omap (lang_block content)
          (set_order [] (Discovery.langPriority ++ object_keys content)))
    (match feed_list content with Some _ => [content] | None => [] end).

(** The bindings of the last block read. *)
Definition found (blocks : list JValue) : gmap string string :=
  from_option block_bindings ∅ (last blocks).

(** The block's own name when it has a truthy one, [name] otherwise. *)
Definition own_name (name b : JValue) : JValue :=
  match get b "name" with
  | Ret n => if truthy n then n else name
  | _ => name
  end.

(** The document
    [{en: {name: "X", feeds: []}, feeds: [{name: "station_status", url: "u"}]}]. *)
Definition named_block_root_feeds : JValue :=
  JObj [("en", JObj [("name", JStr "X"); ("feeds", JArr [])]);
        ("feeds", JArr [JObj [("name", JStr "station_status");
                              ("url", JStr "u")]])]%string.

(** The optional feeds that a feed map offers: [system_information] and
    [vehicle_types], in that order, each when it has a non-empty url. *)
Definition optional_feeds (systemId : string) (feeds : gmap string string)
    : list FeedFetch.GBFSFeed :=
  (if DiscoveryPhase.has_url feeds "system_information"
   then [DiscoveryPhase.queued systemId "system_information" feeds] else []) ++
  (if DiscoveryPhase.has_url feeds "vehicle_types"
   then [DiscoveryPhase.queued systemId "vehicle_types" feeds] else []).

(** The result of fetching a discovery document that lists the two
    station feeds at its root. *)
Definition discovered_result : FeedFetch.GBFSFeedData :=
  {| FeedFetch.feed_name := "oslobysykkel";
     FeedFetch.data :=
       JObj [("feeds",
              JArr [JObj [("name", JStr "station_information"); ("url", JStr "i")];
                    JObj [("name", JStr "station_status"); ("url", JStr "u")]])]%string;
     FeedFetch.error := None |}.

Definition discovered_feeds : gmap string string :=
  <[ "station_information"%string := "i"%string ]> {[ "station_status"%string := "u"%string ]}.

(* ===================================================================== *)
(** * Properties                                                          *)
(* ===================================================================== *)

(** ** JavaScript helpers *)

Lemma bind_Ret {A B : Type} (a : A) (f : A -> outcome B) : (Ret a ≫= f) = f a.
Proof. reflexivity. Qed.

Lemma array_includes_elem_of (l : list string) (x : string) :
  array_includes l x = true <-> x ∈ l.
Proof.
  unfold array_includes. rewrite existsb_exists. split.
  - intros (y & Hin & Heq). apply String.eqb_eq in Heq. subst y.
    by apply list_elem_of_In.
  - intros Hin. exists x. split; [by apply list_elem_of_In | apply String.eqb_refl].
Qed.

Lemma record_keys_elem_of (rec : gmap string string) (k : string) :
  k ∈ record_keys rec <-> is_Some (rec !! k).
Proof.
  unfold record_keys. rewrite list_elem_of_fmap. split.
  - intros ([k' v] & -> & Hin). apply elem_of_map_to_list in Hin. by exists v.
  - intros [v Hv]. exists (k, v). split; [done | by apply elem_of_map_to_list].
Qed.

Lemma record_keys_empty (rec : gmap string string) :
  length (record_keys rec) = 0 <-> rec = ∅.
Proof.
  unfold record_keys. rewrite length_fmap. split.
  - intros H. apply map_to_list_empty_iff. by apply length_zero_iff_nil.
  - intros ->. by rewrite map_to_list_empty.
Qed.

Lemma has_feed_iff (rec : gmap string string) (k : string) :
  array_includes (record_keys rec) k = true <-> is_Some (rec !! k).
Proof. by rewrite array_includes_elem_of, record_keys_elem_of. Qed.

Lemma append_nil (s : string) : ""%string +:+ s = s.
Proof. reflexivity. Qed.

Lemma append_cons (c : ascii) (s t : string) :
  String c s +:+ t = String c (s +:+ t).
Proof. reflexivity. Qed.

Lemma prefix_app (sub s : string) :
  String.prefix sub s = true <-> exists post, s = sub +:+ post.
Proof.
  revert s. induction sub as [|c sub IH]; intros s.
  - split; [intros _; exists s; reflexivity | intros _; by destruct s].
  - destruct s as [|d s]; simpl.
    + split; [discriminate | intros [post H]; rewrite append_cons in H; discriminate H].
    + destruct (Ascii.ascii_dec c d) as [->|Hne].
      * rewrite IH. split; intros [post H]; exists post;
          rewrite append_cons in *; congruence.
      * split; [discriminate | intros [post H]; rewrite append_cons in H; congruence].
Qed.

Lemma includes_nil (sub : string) :
  includes sub "" = String.prefix sub "" || false.
Proof. reflexivity. Qed.

Lemma includes_cons (sub : string) (c : ascii) (s : string) :
  includes sub (String c s) = String.prefix sub (String c s) || includes sub s.
Proof. reflexivity. Qed.

Lemma includes_contains (sub s : string) :
  includes sub s = true <-> contains sub s.
Proof.
  unfold contains. induction s as [|c s IH].
  - rewrite includes_nil, orb_false_r, prefix_app. split.
    + intros [post H]. exists ""%string, post. by rewrite append_nil.
    + intros (pre & post & H). destruct pre.
      * rewrite append_nil in H. by exists post.
      * rewrite append_cons in H. discriminate H.
  - rewrite includes_cons, orb_true_iff, prefix_app, IH. split.
    + intros [[post H] | (pre & post & H)].
      * exists ""%string, post. by rewrite append_nil.
      * exists (String c pre), post. rewrite append_cons. by rewrite H.
    + intros (pre & post & H). destruct pre as [|d pre].
      * left. rewrite append_nil in H. by exists post.
      * right. rewrite append_cons in H. exists pre, post. congruence.
Qed.

(** ** Operator classification *)

Lemma classify_nonempty (F : gmap string string) (name : string) (V : JValue) :
  F ≠ ∅ ->
  classifyOperatorType F name V =
    (hasScooters ← scooter_override V;
     if hasScooters : bool then Ret free_floating
     else if forallb (array_includes (record_keys F)) STATION_FEED_NAMES
          then Ret station_based
          else if existsb (array_includes (record_keys F)) VEHICLE_FEED_NAMES
               then Ret free_floating
               else Ret unknown).
Proof.
  intros HF. unfold classifyOperatorType.
  destruct (Nat.eqb_spec (length (record_keys F)) 0) as [H0|_]; [|done].
  by apply record_keys_empty in H0.
Qed.

Lemma station_feeds_present (F : gmap string string) :
  is_Some (F !! "station_information"%string) ->
  is_Some (F !! "station_status"%string) ->
  forallb (array_includes (record_keys F)) STATION_FEED_NAMES = true.
Proof.
  intros H1 H2. simpl.
  apply has_feed_iff in H1. apply has_feed_iff in H2. by rewrite H1, H2.
Qed.

Lemma scooter_override_no_evidence : scooter_override JUndefined = Ret false.
Proof. reflexivity. Qed.

(** C1.  A feed map that holds both [station_information] and
    [station_status] is classified [station_based] when no vehicle-type
    evidence is supplied, and also when evidence is supplied in which the
    scooter test finds nothing; which vehicle feeds the map holds besides
    plays no role. *)
Theorem classify_prefers_stations (F : gmap string string) (name : string) :
  is_Some (F !! "station_information"%string) ->
  is_Some (F !! "station_status"%string) ->
  classifyOperatorType F name JUndefined = Ret station_based /\
  (forall V, scooter_override V = Ret false ->
             classifyOperatorType F name V = Ret station_based).
Proof.
  intros Hinfo Hstatus.
  assert (HF : F ≠ ∅).
  { intros ->. destruct Hinfo as [u Hu]. by rewrite lookup_empty in Hu. }
  assert (Hgen : forall V, scooter_override V = Ret false ->
                           classifyOperatorType F name V = Ret station_based).
  { intros V HV. rewrite classify_nonempty by done. rewrite HV. simpl.
    apply has_feed_iff in Hinfo. apply has_feed_iff in Hstatus.
    by rewrite Hinfo, Hstatus. }
  split; [apply Hgen, scooter_override_no_evidence | exact Hgen].
Qed.

Lemma classify_prefers_stations_witness :
  classifyOperatorType hybrid_feeds "Hybrid" JUndefined = Ret station_based /\
  (forall V, scooter_override V = Ret false ->
             classifyOperatorType hybrid_feeds "Hybrid" V = Ret station_based).
Proof.
  apply (classify_prefers_stations hybrid_feeds "Hybrid").
  - eexists. vm_compute. reflexivity.
  - eexists. vm_compute. reflexivity.
Defined.

Lemma contains_nonempty (sub s : string) :
  sub ≠ ""%string -> contains sub s -> s ≠ ""%string.
Proof.
  intros Hsub (pre & post & ->) H.
  destruct pre; [rewrite append_nil in H | rewrite append_cons in H; discriminate H].
  destruct sub; [done | rewrite append_cons in H; discriminate H].
Qed.

Lemma is_scooter_type_declares (vt : JValue) :
  declares_scooter vt -> is_scooter_type vt = Ret true.
Proof.
  intros (s & Hget & Hs). unfold is_scooter_type. rewrite Hget. simpl.
  assert (Hne : s ≠ ""%string) by (by eapply contains_nonempty; [|exact Hs]).
  apply String.eqb_neq in Hne. rewrite Hne. simpl.
  f_equal. by apply includes_contains.
Qed.

Lemma is_scooter_type_plain (vt : JValue) :
  plain_vehicle_type vt -> exists b, is_scooter_type vt = Ret b.
Proof.
  intros (ff & Hget & Hff). unfold is_scooter_type. rewrite Hget. simpl.
  destruct Hff as [Hfalsy | [s ->]].
  - rewrite Hfalsy. by exists false.
  - simpl. destruct (negb (s =? "")%string); eauto.
Qed.

Lemma js_some_scooter (l : list JValue) :
  Forall plain_vehicle_type l -> Exists declares_scooter l ->
  js_some is_scooter_type l = Ret true.
Proof.
  intros Hplain Hex. induction Hplain as [|vt l Hvt Hl IH].
  - inversion Hex.
  - simpl. destruct (is_scooter_type_plain vt Hvt) as [b Hb].
    apply Exists_cons in Hex as [Hhere | Hlater].
    + by rewrite (is_scooter_type_declares vt Hhere).
    + rewrite Hb. simpl. destruct b; [done | by apply IH].
Qed.

Lemma at_index_chars_primitive (s : string) (i : nat) (k : string) :
  typeof_object (at_index JUndefined (chars s) i k) = false.
Proof.
  revert i. induction s as [|c s IH]; intros i; simpl; [done|].
  destruct (String.eqb (pretty i) k); [done | apply IH].
Qed.

Lemma get_object_truthy (v : JValue) (k : string) (r : JValue) :
  get v k = Ret r -> typeof_object r = true -> r ≠ JNull -> truthy v = true.
Proof.
  intros Hget Hobj Hnull.
  destruct v as [| | b | n | s | items | props]; simpl in Hget;
    try discriminate Hget; try reflexivity.
  - injection Hget as <-. discriminate Hobj.
  - injection Hget as <-. discriminate Hobj.
  - destruct (String.eqb k "length"); injection Hget as <-; [discriminate Hobj|].
    by rewrite at_index_chars_primitive in Hobj.
Qed.

Lemma scooter_override_found (V : JValue) (l : list JValue) :
  get V "vehicle_types" = Ret (JArr l) ->
  Forall plain_vehicle_type l -> Exists declares_scooter l ->
  scooter_override V = Ret true.
Proof.
  intros Hget Hplain Hex. unfold scooter_override.
  rewrite (get_object_truthy V _ _ Hget) by done.
  rewrite Hget. simpl. by apply js_some_scooter.
Qed.

Lemma scooter_type_declares : declares_scooter scooter_type.
Proof.
  exists "scooter"%string. split; [reflexivity|].
  exists ""%string, ""%string. reflexivity.
Qed.

(** C2, as stated, fails: on the empty feed map the emptiness test of
    lines 48-51 returns [unknown] before the scooter test is reached. *)
Lemma classify_scooter_empty_feed_map :
  get scooter_evidence "vehicle_types" = Ret (JArr [scooter_type]) /\
  Exists declares_scooter [scooter_type] /\
  classifyOperatorType ∅ "Operator" scooter_evidence = Ret unknown.
Proof.
  split; [reflexivity|]. split; [|reflexivity].
  apply Exists_cons_hd, scooter_type_declares.
Qed.

(** C2, amended.  For every feed map that is not empty and every
    vehicle-type evidence whose [vehicle_types] array consists of well-shaped
    entries, one of which has a form factor matching [scooter], the verdict
    is [free_floating], whatever station feeds the map holds. *)
Theorem classify_scooter_override (F : gmap string string) (name : string)
    (V : JValue) (l : list JValue) :
  F ≠ ∅ ->
  get V "vehicle_types" = Ret (JArr l) ->
  Forall plain_vehicle_type l ->
  Exists declares_scooter l ->
  classifyOperatorType F name V = Ret free_floating.
Proof.
  intros HF Hget Hplain Hex.
  rewrite classify_nonempty by done.
  by rewrite (scooter_override_found V l Hget Hplain Hex).
Qed.

Lemma scooter_type_plain : plain_vehicle_type scooter_type.
Proof. exists (JStr "scooter"). split; [reflexivity | right; by eexists]. Qed.

Lemma classify_scooter_override_witness :
  classifyOperatorType hybrid_feeds "Hybrid" scooter_evidence = Ret free_floating.
Proof.
  apply (classify_scooter_override hybrid_feeds "Hybrid" scooter_evidence [scooter_type]).
  - intros H. apply (f_equal (fun m => m !! "station_status"%string)) in H.
    vm_compute in H. discriminate H.
  - reflexivity.
  - constructor; [apply scooter_type_plain | constructor].
  - apply Exists_cons_hd, scooter_type_declares.
Defined.

Lemma classify_empty (name : string) (V : JValue) :
  classifyOperatorType ∅ name V = Ret unknown.
Proof. reflexivity. Qed.

Lemma classify_without_evidence_total (F : gmap string string) (name : string) :
  exists a, classifyOperatorType F name JUndefined = Ret a.
Proof.
  unfold classifyOperatorType. simpl.
  repeat match goal with |- context [if ?c then _ else _] => destruct c end; eauto.
Qed.

Lemma reclassification_monotonic_cases (F : gmap string string) (name : string)
    (V : JValue) (a b : OperatorType) :
  classifyOperatorType F name JUndefined = Ret a ->
  classifyOperatorType F name V = Ret b ->
  b = free_floating \/ a = b.
Proof.
  intros Ha Hb. destruct (decide (F = ∅)) as [->|HF].
  - right. rewrite classify_empty in Ha, Hb. congruence.
  - rewrite classify_nonempty in Ha, Hb by done.
    rewrite scooter_override_no_evidence in Ha. simpl in Ha.
    destruct (scooter_override V) as [[|] | e | |]; simpl in Hb;
      try discriminate Hb.
    + left. congruence.
    + right. congruence.
Qed.

(** C3.  Whenever the classification with vehicle-type evidence returns a
    verdict, the classification of the same feed map without evidence
    returns one too; if the two differ, the verdict with evidence is
    [free_floating], and a verdict [station_based] with evidence was
    [station_based] without it. *)
Theorem reclassification_monotonic (F : gmap string string) (name : string)
    (V : JValue) (b : OperatorType) :
  classifyOperatorType F name V = Ret b ->
  exists a, classifyOperatorType F name JUndefined = Ret a /\
            (a ≠ b -> b = free_floating) /\
            (b = station_based -> a = station_based).
Proof.
  intros Hb.
  destruct (classify_without_evidence_total F name) as [a Ha].
  exists a. split; [exact Ha|].
  pose proof (reclassification_monotonic_cases F name V a b Ha Hb) as Hcases.
  split.
  - intros Hne. destruct Hcases as [H|H]; [exact H | contradiction].
  - intros ->. destruct Hcases as [H|H]; [discriminate H | exact H].
Qed.

Lemma reclassification_monotonic_witness :
  exists a, classifyOperatorType hybrid_feeds "Hybrid" JUndefined = Ret a /\
            (a ≠ free_floating -> free_floating = free_floating) /\
            (free_floating = station_based -> a = station_based).
Proof.
  apply (reclassification_monotonic hybrid_feeds "Hybrid" scooter_evidence free_floating).
  vm_compute. reflexivity.
Defined.

(** The same on the reclassification step of the pipeline: an entry whose
    verdict was the provisional one keeps it or moves to [free_floating]. *)
Lemma reclassify_monotonic (d d' : Pipeline.OperatorData)
    (queue queue' : list FeedFetch.GBFSFeed) (feeds : gmap string string)
    (t : OperatorType) :
  Pipeline.feedsFromDiscovery d = Some feeds ->
  Pipeline.operatorType d = Some t ->
  classifyOperatorType feeds (Pipeline.operatorName d) JUndefined = Ret t ->
  Pipeline.reclassify d queue = Ret (d', queue') ->
  Pipeline.operatorType d' = Some t \/
  Pipeline.operatorType d' = Some free_floating.
Proof.
  intros Hfeeds Htype Hprov. unfold Pipeline.reclassify. rewrite Hfeeds, Htype.
  destruct (truthy (Pipeline.vehicleTypesRaw d)); [|intros [= <- _]; by left].
  destruct (classifyOperatorType feeds (Pipeline.operatorName d)
              (Pipeline.vehicleTypesRaw d)) as [b | e | |] eqn:Hb;
    simpl; try discriminate.
  destruct (reclassification_monotonic_cases feeds _ _ t b Hprov Hb) as [-> | <-].
  - destruct (decide (free_floating = t)) as [<-|_]; [intros [= <- _]; by left|].
    destruct (String.eqb (Pipeline.systemId d) ""); intros [= <- _]; by right.
  - destruct (decide (t = t)); [|done]. intros [= <- _]. by left.
Qed.

(** ** Status feed normalizer *)

(** C4, as stated, fails: the two stations of the example carry no
    [station_id], so the set of identifiers holds the single value
    [undefined] and the station count is 1, not 2. *)
Lemma station_example_count_not_two :
  parseStationStatusFeed station_example "Operator" ≠
    Ret (Some {| bikesAvailable := 5; bikesTotal := 6; docksAvailable := 9;
                 stationCount := 2; error := None |}).
Proof. vm_compute. discriminate. Qed.

(** C4, amended.  The example document yields available = 5, total = 6,
    docks = 9 and a station count of 1; once the two stations carry distinct
    identifiers the same sums come with a station count of 2. *)
Theorem station_example_normalized (operatorName : string) :
  parseStationStatusFeed station_example operatorName =
    Ret (Some {| bikesAvailable := 5; bikesTotal := 6; docksAvailable := 9;
                 stationCount := 1; error := None |}) /\
  (forall id_a id_b : string, id_a ≠ id_b ->
     parseStationStatusFeed (station_example_with_ids id_a id_b) operatorName =
       Ret (Some {| bikesAvailable := 5; bikesTotal := 6; docksAvailable := 9;
                    stationCount := 2; error := None |})).
Proof.
  split; [reflexivity|].
  intros id_a id_b Hne.
  unfold parseStationStatusFeed, station_example_with_ids. simpl.
  unfold set_add. simpl.
  assert (Hneq : String.eqb id_b id_a = false) by (apply String.eqb_neq; congruence).
  rewrite Hneq. reflexivity.
Qed.

Lemma station_example_normalized_witness :
  parseStationStatusFeed (station_example_with_ids "dock-1" "dock-2") "Operator" =
    Ret (Some {| bikesAvailable := 5; bikesTotal := 6; docksAvailable := 9;
                 stationCount := 2; error := None |}).
Proof.
  apply (proj2 (station_example_normalized "Operator") "dock-1"%string "dock-2"%string).
  discriminate.
Defined.

Lemma get_not_nullish (v : JValue) (k : string) :
  not_nullish v -> exists r, get v k = Ret r.
Proof.
  intros [Hnull Hundef].
  destruct v; simpl; try done; eauto; destruct (String.eqb k "length"); eauto.
Qed.

Lemma is_available_spec (v : JValue) :
  not_nullish v -> is_available v = Ret (counts_as_available v).
Proof.
  intros Hv. unfold is_available, counts_as_available, explicitly_false.
  destruct (get_not_nullish v "is_disabled" Hv) as [d ->].
  destruct (get_not_nullish v "is_reserved" Hv) as [r ->]. simpl.
  destruct d as [| | [|] | | | |]; simpl; reflexivity.
Qed.

Lemma js_filter_spec (l : list JValue) :
  Forall not_nullish l ->
  js_filter is_available l = Ret (List.filter counts_as_available l).
Proof.
  induction 1 as [|v l Hv Hl IH]; [reflexivity|].
  simpl. rewrite (is_available_spec v Hv), IH. simpl.
  by destruct (counts_as_available v).
Qed.

Lemma as_array_Some (v : JValue) (l : list JValue) :
  as_array v = Some l <-> v = JArr l.
Proof.
  split.
  - destruct v as [| | b | n | s | items | props]; unfold as_array; simpl; intros H;
      try discriminate H; try (destruct b; discriminate H);
      try (destruct (negb _); discriminate H); congruence.
  - by intros ->.
Qed.

Lemma as_array_None (v : JValue) :
  as_array v = None <-> forall l, v ≠ JArr l.
Proof.
  split.
  - intros H l ->. discriminate H.
  - intros H. destruct (as_array v) as [l|] eqn:E; [|done].
    apply as_array_Some in E. by destruct (H l).
Qed.

Lemma truthy_not_nullish (v : JValue) : truthy v = true -> not_nullish v.
Proof. intros H. split; intros ->; discriminate H. Qed.

Lemma count_chosen (pf : ParsedFeed) (ff : JValue) (name : string)
    (vs : JValue) (chosen : option (list JValue)) :
  truthy (data pf) = true ->
  get (data pf) "vehicles" = Ret vs ->
  match as_array vs with
  | Some l => chosen = Some l
  | None => exists bs, get (data pf) "bikes" = Ret bs /\ chosen = as_array bs
  end ->
  countFreeFloatingVehicles pf ff name =
    match chosen with
    | None => Ret None
    | Some vehicles =>
        availableVehicles ← js_filter is_available vehicles;
        Ret (Some {| total := Z.of_nat (length vehicles);
                     available := Z.of_nat (length availableVehicles) |})
    end.
Proof.
  intros Ht Hvs Hch. unfold countFreeFloatingVehicles. rewrite Ht, Hvs. simpl.
  destruct (as_array vs) as [l|].
  - by subst chosen.
  - destruct Hch as (bs & -> & ->). reflexivity.
Qed.

(** C5, as stated, fails: the document [{vehicles: [null]}] offers an array
    of length 1 with no entry whose flags are both [false], yet the filter
    callback reads [v.is_disabled] on [null] and a TypeError leaves the
    function instead of the counts total = 1, available = 0. *)
Lemma count_vehicles_null_entry :
  offers_array (data vehicles_with_null) [JNull] /\
  countFreeFloatingVehicles vehicles_with_null JNull "Operator" = Throw TypeError.
Proof. split; [left|]; reflexivity. Qed.

(** C5, amended.  For every free-floating status document whose chosen
    array ([vehicles] if that is an array, else [bikes]) has no [null]
    entry, total is the array length and available is the number of entries
    whose [is_disabled] and [is_reserved] are both explicitly [false]; when
    neither field is an array the result is [null]; the example list yields
    total = 3, available = 1. *)
Theorem free_floating_normalized (pf : ParsedFeed) (ff : JValue) (name : string) :
  (forall l, offers_array (data pf) l -> Forall not_nullish l ->
     countFreeFloatingVehicles pf ff name =
       Ret (Some {| total := Z.of_nat (length l);
                    available := Z.of_nat (length (List.filter counts_as_available l)) |})) /\
  (offers_no_array (data pf) -> countFreeFloatingVehicles pf ff name = Ret None) /\
  countFreeFloatingVehicles vehicles_example ff name =
    Ret (Some {| total := 3; available := 1 |}).
Proof.
  split; [|split; [|reflexivity]].
  - intros l Hoff Hl.
    assert (Ht : truthy (data pf) = true).
    { destruct Hoff as [H | [_ H]]; by apply (get_object_truthy _ _ _ H). }
    destruct (get_not_nullish (data pf) "vehicles" (truthy_not_nullish _ Ht)) as [vs Hvs].
    rewrite (count_chosen pf ff name vs (Some l) Ht Hvs).
    + by rewrite (js_filter_spec l Hl).
    + destruct Hoff as [H | [Hno H]].
      * rewrite Hvs in H. injection H as ->. reflexivity.
      * assert (Hnone : as_array vs = None).
        { apply as_array_None. intros l' ->. by apply (Hno l'). }
        rewrite Hnone. exists (JArr l). by split.
  - intros [Hnov Hnob].
    destruct (truthy (data pf)) eqn:Ht.
    + destruct (get_not_nullish (data pf) "vehicles" (truthy_not_nullish _ Ht)) as [vs Hvs].
      destruct (get_not_nullish (data pf) "bikes" (truthy_not_nullish _ Ht)) as [bs Hbs].
      rewrite (count_chosen pf ff name vs None Ht Hvs); [done|].
      assert (Hnone : as_array vs = None).
      { apply as_array_None. intros l' ->. by apply (Hnov l'). }
      rewrite Hnone. exists bs. split; [done|]. symmetry.
      apply as_array_None. intros l' ->. by apply (Hnob l').
    + unfold countFreeFloatingVehicles. by rewrite Ht.
Qed.

Lemma free_floating_normalized_witness :
  countFreeFloatingVehicles bikes_example JNull "Operator" =
    Ret (Some {| total := 2; available := 1 |}).
Proof.
  apply (proj1 (free_floating_normalized bikes_example JNull "Operator")
           [JObj [("is_disabled", JBool false); ("is_reserved", JBool false)]; JNum 7]%string).
  - right. split; [discriminate | reflexivity].
  - repeat constructor; discriminate.
Defined.

(** ** Discovery document parser *)

Lemma record_set_lookup (m : gmap string string) (n u k v : string) :
  record_set m n u !! k = Some v -> (k = n /\ v = u) \/ m !! k = Some v.
Proof.
  unfold record_set. destruct (String.eqb n "__proto__"); [by right|].
  destruct (decide (n = k)) as [->|Hne].
  - rewrite lookup_insert_eq. intros [= ->]. by left.
  - rewrite lookup_insert_ne by done. by right.
Qed.

Lemma add_feed_spec (m : gmap string string) (e : JValue) :
  exists m', add_feed m e = Ret m' /\
             (m' = m \/ exists n u, valid_entry e n u /\ m' = record_set m n u).
Proof.
  unfold add_feed. destruct (truthy e) eqn:He; [|eauto].
  destruct (get_not_nullish e "name" (truthy_not_nullish e He)) as [n Hn].
  destruct (get_not_nullish e "url" (truthy_not_nullish e He)) as [u Hu].
  rewrite Hn. simpl. destruct n; eauto.
  rewrite Hu. simpl. destruct u; eauto.
  eexists. split; [reflexivity|]. right. by eexists _, _.
Qed.

Lemma fold_add_feed_spec (l : list JValue) (m : gmap string string) :
  exists m', js_fold add_feed l m = Ret m' /\
    (forall k u, m' !! k = Some u ->
                 m !! k = Some u \/ exists e, e ∈ l /\ valid_entry e k u) /\
    ((forall e n u, e ∈ l -> ~ valid_entry e n u) -> m' = m).
Proof.
  revert m. induction l as [|e l IH]; intros m; simpl.
  - exists m. by repeat split; auto.
  - destruct (add_feed_spec m e) as (m1 & -> & Hm1). simpl.
    destruct (IH m1) as (m' & -> & Hfrom & Hnone).
    exists m'. split; [done|]. split.
    + intros k u Hk. destruct (Hfrom k u Hk) as [Hin1 | (e' & He' & Hv)].
      * destruct Hm1 as [-> | (n & u' & Hv & ->)]; [by left|].
        apply record_set_lookup in Hin1 as [[-> ->] | Hin]; [|by left].
        right. exists e. split; [apply list_elem_of_here | done].
      * right. exists e'. split; [by apply list_elem_of_further | done].
    + intros Hno. rewrite Hnone.
      * destruct Hm1 as [-> | (n & u & Hv & _)]; [done|].
        destruct (Hno e n u (list_elem_of_here _ _) Hv).
      * intros e' n u He'. apply Hno. by apply list_elem_of_further.
Qed.

Lemma unwrap_spec (doc : JValue) :
  not_nullish doc -> exists content, unwrap doc = Ret content /\ not_nullish content.
Proof.
  intros Hdoc. unfold unwrap.
  destruct (get_not_nullish doc "data" Hdoc) as [d ->].
  destruct (get_not_nullish doc "feeds" Hdoc) as [f ->]. simpl.
  destruct (truthy d) eqn:Hd; simpl; [|eauto].
  destruct (truthy f); simpl; eauto using truthy_not_nullish.
Qed.

(** What a finished scan reports, relative to the map [m] and the name
    [name] it started from. *)
Lemma scan_languages_spec (content : JValue) (langs : list string)
    (m : gmap string string) (name : JValue) :
  not_nullish content ->
  exists s, scan_languages content langs m name = Ret s /\
    let (urls, nm) := match s with
                      | Returned urls nm => (urls, nm)
                      | Exhausted urls nm => (urls, nm)
                      end in
    from_entries content m urls /\
    (no_valid_entry content -> urls = m) /\
    (no_block_name content -> nm = name).
Proof.
  intros Hc. revert m name. induction langs as [|lang langs IH]; intros m name.
  - exists (Exhausted m name). split; [done|]. split; [|done].
    intros k u Hk. by left.
  - simpl. destruct (get_not_nullish content lang Hc) as [ld Hld]. rewrite Hld. simpl.
    destruct (truthy ld && typeof_object ld) eqn:Hobj; [|apply IH].
    apply andb_true_iff in Hobj as [Ht Ho].
    assert (Hblock : block content ld) by (right; by exists lang).
    destruct (get_not_nullish ld "feeds" (truthy_not_nullish ld Ht)) as [f Hf].
    destruct (get_not_nullish ld "name" (truthy_not_nullish ld Ht)) as [n Hn].
    rewrite Hf. simpl.
    destruct (as_array f) as [l|] eqn:Hl; [|apply IH].
    apply as_array_Some in Hl. subst f.
    destruct (fold_add_feed_spec l m) as (urls & -> & Hfrom & Hnone). simpl.
    rewrite Hn. simpl.
    set (name' := if truthy n then n else name).
    assert (Hfrom' : from_entries content m urls).
    { intros k u Hk. destruct (Hfrom k u Hk) as [H | (e & He & Hv)]; [by left|].
      right. by exists ld, l, e. }
    assert (Hnone' : no_valid_entry content -> urls = m).
    { intros Hno. apply Hnone. intros e k u He. by apply (Hno ld l). }
    assert (Hname' : no_block_name content -> name' = name).
    { intros Hno. unfold name'. by rewrite (Hno ld l n). }
    destruct (0 <? length (record_keys urls)).
    + exists (Returned urls name'). by repeat split.
    + destruct (IH urls name') as (s & -> & Hs). exists s. split; [done|].
      destruct s as [urls2 nm2 | urls2 nm2]; destruct Hs as (H1 & H2 & H3).
      all: split; [|split].
      all: try (intros Hno; rewrite H2 by done; by apply Hnone').
      all: try (intros Hno; rewrite H3 by done; by apply Hname').
      all: intros k u Hk; destruct (H1 k u Hk) as [H|H]; [by apply Hfrom' | by right].
Qed.

Lemma add_feed_binding (m : gmap string string) (e : JValue) :
  add_feed m e = Ret (add_binding m e).
Proof.
  unfold add_feed, add_binding, entry_binding. destruct (truthy e) eqn:He; [|done].
  destruct (get_not_nullish e "name" (truthy_not_nullish e He)) as [n Hn].
  destruct (get_not_nullish e "url" (truthy_not_nullish e He)) as [u Hu].
  rewrite Hn, Hu, bind_Ret. destruct n; try done.
  rewrite bind_Ret. by destruct u.
Qed.

Lemma fold_add_feed_bindings (l : list JValue) (m : gmap string string) :
  js_fold add_feed l m = Ret (fold_left add_binding l m).
Proof.
  revert m. induction l as [|e l IH]; intros m; [done|].
  cbn [js_fold fold_left]. by rewrite add_feed_binding, bind_Ret.
Qed.

Lemma yields_keys (b : JValue) :
  (0 <? length (record_keys (block_bindings b)))%nat = yields b.
Proof.
  unfold yields. destruct (Nat.ltb_spec 0 (length (record_keys (block_bindings b)))) as [H|H].
  - symmetry. apply bool_decide_eq_true_2. intros Hempty.
    apply record_keys_empty in Hempty. lia.
  - symmetry. apply bool_decide_eq_false_2. intros Hne. apply Hne.
    apply record_keys_empty. lia.
Qed.

(** One turn of the loop over the language keys, started from the empty
    map. *)
Lemma scan_languages_step (content : JValue) (lang : string) (langs : list string)
    (name : JValue) :
  not_nullish content ->
  scan_languages content (lang :: langs) ∅ name =
    match lang_block content lang with
    | Some b =>
        if yields b then Ret (Returned (block_bindings b) (own_name name b))
        else scan_languages content langs ∅ (own_name name b)
    | None => scan_languages content langs ∅ name
    end.
Proof.
  intros Hc. cbn [scan_languages]. unfold lang_block.
  destruct (get_not_nullish content lang Hc) as [ld Hld]. rewrite Hld, bind_Ret.
  destruct (truthy ld && typeof_object ld) eqn:Hobj; [|done]. cbn [andb].
  assert (Ht : truthy ld = true) by (by apply andb_true_iff in Hobj as [? _]).
  destruct (get_not_nullish ld "feeds" (truthy_not_nullish ld Ht)) as [f Hf].
  destruct (get_not_nullish ld "name" (truthy_not_nullish ld Ht)) as [n Hn].
  rewrite Hf, bind_Ret.
  assert (Hlist : feed_list ld = as_array f) by (unfold feed_list; by rewrite Hf).
  rewrite Hlist. destruct (as_array f) as [l|] eqn:Hl; [|done].
  rewrite bool_decide_eq_true_2 by done. cbv beta iota.
  rewrite <- (yields_keys ld). unfold block_bindings, own_name. rewrite Hlist, Hn.
  rewrite fold_add_feed_bindings, !bind_Ret. cbn [default]. fold (bindings l).
  change (id l) with l.
  destruct (Nat.ltb_spec 0 (length (record_keys (bindings l)))) as [H|H]; [done|].
  assert (Hempty : bindings l = ∅) by (apply record_keys_empty; lia).
  by rewrite Hempty.
Qed.

Lemma found_unproductive (b : JValue) (blocks : list JValue) :
  yields b = false -> found blocks = ∅ -> found (b :: blocks) = ∅.
Proof.
  unfold found. rewrite last_cons. intros Hb Hblocks.
  destruct (last blocks); [done|]. cbn [from_option].
  unfold yields in Hb. apply bool_decide_eq_false_1 in Hb.
  by destruct (decide (block_bindings b = ∅)).
Qed.

Lemma found_later (b : JValue) (blocks : list JValue) :
  blocks ≠ [] -> found (b :: blocks) = found blocks.
Proof.
  intros Hne. unfold found. rewrite last_cons.
  destruct (last blocks) eqn:Hlast; [done|].
  by apply last_None in Hlast.
Qed.

(** What the loop over the language keys reports when it starts from the
    empty map. *)
Lemma scan_languages_exact (content : JValue) (langs : list string) (name : JValue) :
  not_nullish content ->
  exists s, scan_languages content langs ∅ name = Ret s /\
    match s with
    | Returned urls nm =>
        (forall root, scanned_blocks (omap (lang_block content) langs) root =
                      scanned_blocks (omap (lang_block content) langs) []) /\
        scanned_blocks (omap (lang_block content) langs) [] ≠ [] /\
        urls = found (scanned_blocks (omap (lang_block content) langs) []) /\
        nm = fold_left own_name (scanned_blocks (omap (lang_block content) langs) []) name
    | Exhausted urls nm =>
        (forall root, scanned_blocks (omap (lang_block content) langs) root =
                      omap (lang_block content) langs ++ root) /\
        urls = ∅ /\
        found (omap (lang_block content) langs) = ∅ /\
        nm = fold_left own_name (omap (lang_block content) langs) name
    end.
Proof.
  intros Hc. revert name. induction langs as [|lang langs IH]; intros name.
  - exists (Exhausted ∅ name). by repeat split.
  - rewrite scan_languages_step by done. cbn [omap list_omap].
    destruct (lang_block content lang) as [b|]; [|apply IH].
    cbn [scanned_blocks]. destruct (yields b) eqn:Hb.
    + exists (Returned (block_bindings b) (own_name name b)). by repeat split.
    + destruct (IH (own_name name b)) as (s & -> & Hs). exists s. split; [done|].
      destruct s as [urls nm | urls nm].
      * destruct Hs as (Hroot & Hne & -> & ->). split; [|split; [|split]].
        -- intros root. by rewrite Hroot.
        -- done.
        -- by rewrite found_later.
        -- done.
      * destruct Hs as (Hroot & -> & Hfound & ->). split; [|split; [|split]].
        -- intros root. by rewrite Hroot.
        -- done.
        -- by apply found_unproductive.
        -- done.
Qed.

Lemma named_without_feeds_no_valid_entry : no_valid_entry named_without_feeds.
Proof.
  intros b l e n u Hb Hfeeds He _.
  assert (Hl : l = []).
  { destruct Hb as [-> | (lang & Hget & Ht & _)].
    - discriminate Hfeeds.
    - unfold named_without_feeds in Hget. simpl in Hget.
      destruct (String.eqb lang "en").
      + injection Hget as <-. simpl in Hfeeds. congruence.
      + injection Hget as <-. discriminate Ht. }
  subst l. by apply not_elem_of_nil in He.
Qed.

(** C7, as stated, fails.  In [{en: {name: "X", feeds: []}}] no valid feed
    entry can be found and the feed map comes back empty, but the name
    returned is the block's ["X"], assigned on line 88 before the emptiness
    test, not the caller's fallback.  And the document [null] raises a
    TypeError on line 71 (the caller never passes it: it tests
    [!result.data] first). *)
Lemma discover_name_without_feeds :
  unwrap named_without_feeds = Ret named_without_feeds /\
  no_valid_entry named_without_feeds /\
  discoverFeeds named_without_feeds "Fallback" = Ret (∅, JStr "X") /\
  discoverFeeds JNull "Fallback" = Throw TypeError.
Proof.
  split; [reflexivity|]. split; [apply named_without_feeds_no_valid_entry|].
  split; reflexivity.
Qed.

Lemma valid_entry_binding (e : JValue) (n u : string) :
  valid_entry e n u -> entry_binding e = Some (n, u).
Proof.
  intros [Hn Hu]. unfold entry_binding. rewrite Hn, Hu.
  destruct e as [| | [|] | [| |] | [|] | |]; done.
Qed.

Lemma add_binding_keeps (m : gmap string string) (e : JValue) (n : string) :
  is_Some (m !! n) -> is_Some (add_binding m e !! n).
Proof.
  intros Hm. unfold add_binding. destruct (entry_binding e) as [[k v]|]; [|done].
  unfold record_set. destruct (String.eqb k "__proto__"); [done|].
  destruct (decide (k = n)) as [->|Hne]; [by rewrite lookup_insert_eq|].
  by rewrite lookup_insert_ne.
Qed.

Lemma bindings_complete (l : list JValue) (m : gmap string string) (e : JValue)
    (n u : string) :
  n ≠ "__proto__"%string -> e ∈ l -> entry_binding e = Some (n, u) ->
  is_Some (fold_left add_binding l m !! n).
Proof.
  intros Hn Hin He.
  assert (Hkeep : forall l' m', is_Some (m' !! n) ->
                    is_Some (fold_left add_binding l' m' !! n)).
  { induction l' as [|e' l' IH]; intros m' Hm'; [done|].
    cbn [fold_left]. by apply IH, add_binding_keeps. }
  revert m. induction Hin as [e l | e e' l _ IH]; intros m; cbn [fold_left].
  - apply Hkeep. unfold add_binding. rewrite He. unfold record_set.
    apply String.eqb_neq in Hn. rewrite Hn. by rewrite lookup_insert_eq.
  - by apply IH.
Qed.

Lemma empty_document_plain : no_valid_entry (JObj []) /\ no_block_name (JObj []).
Proof.
  assert (Hblock : forall b l, block (JObj []) b -> get b "feeds" ≠ Ret (JArr l)).
  { intros b l [-> | (lang & Hget & Ht & _)]; [discriminate|].
    injection Hget as <-. discriminate Ht. }
  split.
  - intros b l e n u Hb Hfeeds. by destruct (Hblock b l Hb).
  - intros b l n Hb Hfeeds. by destruct (Hblock b l Hb).
Qed.

(** C7, amended.  On every document other than [null] / [undefined] the
    parser returns without raising.  Every binding of the feed map it
    returns comes from an entry of a feed list (of a language block or of
    the root) that carries that string name and that string url.  When no
    valid entry can be found the map is empty.  The name is the caller's
    fallback whenever no block holding a feed list has a truthy name of its
    own.  In full: the blocks holding a feed list are read in order, the
    language blocks up to the first one that yields a binding and, when none
    does, the root last; the map returned is the one the last block read
    yields, and the name returned is the truthy name of the last block read
    that has one, the fallback when none has.  In particular every valid
    entry of the last block read has its name bound in the map, unless the
    name is [__proto__]. *)
Theorem discoverFeeds_resilient (doc : JValue) (fallback : string) :
  not_nullish doc ->
  exists content urls name,
    unwrap doc = Ret content /\
    discoverFeeds doc fallback = Ret (urls, name) /\
    (forall k u, urls !! k = Some u ->
       exists b l e, block content b /\ get b "feeds" = Ret (JArr l) /\
                     e ∈ l /\ valid_entry e k u) /\
    (no_valid_entry content -> urls = ∅) /\
    (no_block_name content -> name = JStr fallback) /\
    urls = found (scanned content) /\
    name = fold_left own_name (scanned content) (JStr fallback) /\
    (forall b l e n u,
       last (scanned content) = Some b -> get b "feeds" = Ret (JArr l) ->
       e ∈ l -> valid_entry e n u -> n ≠ "__proto__"%string ->
       is_Some (urls !! n)).
Proof.
  intros Hdoc.
  destruct (unwrap_spec doc Hdoc) as (content & Hunwrap & Hc).
  assert (Hcomplete : forall b l e n u,
            last (scanned content) = Some b -> get b "feeds" = Ret (JArr l) ->
            e ∈ l -> valid_entry e n u -> n ≠ "__proto__"%string ->
            is_Some (found (scanned content) !! n)).
  { intros b l e n u Hlast Hfeeds Hin Hvalid Hn.
    unfold found. rewrite Hlast. cbn [from_option].
    unfold block_bindings, feed_list. rewrite Hfeeds. cbn [as_array truthy default].
    by apply (bindings_complete l ∅ e n u Hn Hin), valid_entry_binding. }
  assert (Hexact : discoverFeeds doc fallback =
            Ret (found (scanned content),
                 fold_left own_name (scanned content) (JStr fallback))).
  { unfold discoverFeeds, scanned. rewrite Hunwrap, bind_Ret. cbv zeta.
    destruct (scan_languages_exact content
                (set_order [] (langPriority ++ object_keys content))
                (JStr fallback) Hc) as (s & -> & Hs). rewrite bind_Ret.
    destruct s as [urls nm | urls nm].
    - destruct Hs as (Hroot & _ & -> & ->).
      by rewrite (Hroot (match feed_list content with Some _ => [content] | None => [] end)).
    - destruct Hs as (Hroot & -> & Hfound & ->). rewrite Hroot.
      destruct (get_not_nullish content "feeds" Hc) as [f Hf].
      destruct (get_not_nullish content "name" Hc) as [n Hn].
      rewrite Hf, bind_Ret. unfold feed_list. rewrite Hf.
      destruct (as_array f) as [l|] eqn:Hl.
      + rewrite fold_add_feed_bindings, bind_Ret, Hn, bind_Ret.
        assert (Hown : forall x, own_name x content = if truthy n then n else x).
        { intros x. unfold own_name. by rewrite Hn. }
        rewrite fold_left_app. cbn [fold_left]. rewrite Hown.
        unfold found. rewrite last_snoc. cbn [from_option].
        unfold block_bindings, feed_list. by rewrite Hf, Hl.
      + by rewrite app_nil_r, Hfound. }
  assert (Hsound : exists urls name,
            discoverFeeds doc fallback = Ret (urls, name) /\
            (forall k u, urls !! k = Some u ->
               exists b l e, block content b /\ get b "feeds" = Ret (JArr l) /\
                             e ∈ l /\ valid_entry e k u) /\
            (no_valid_entry content -> urls = ∅) /\
            (no_block_name content -> name = JStr fallback));
    [|destruct Hsound as (urls & name & Hrun & HA & HB & HC);
      rewrite Hexact in Hrun; injection Hrun as <- <-;
      by exists content, (found (scanned content)),
                (fold_left own_name (scanned content) (JStr fallback))].
  clear Hexact. unfold discoverFeeds. rewrite Hunwrap, bind_Ret. cbv zeta.
  destruct (scan_languages_spec content
              (set_order [] (langPriority ++ object_keys content)) ∅
              (JStr fallback) Hc) as (s & -> & Hs). rewrite bind_Ret.
  assert (Hfrom0 : forall urls, from_entries content ∅ urls ->
            forall k u, urls !! k = Some u ->
              exists b l e, block content b /\ get b "feeds" = Ret (JArr l) /\
                            e ∈ l /\ valid_entry e k u).
  { intros urls Hfrom k u Hk. destruct (Hfrom k u Hk) as [H|H]; [|done].
    by rewrite lookup_empty in H. }
  destruct s as [urls nm | urls nm]; destruct Hs as (H1 & H2 & H3).
  - exists urls, nm. repeat split; eauto.
  - destruct (get_not_nullish content "feeds" Hc) as [f Hf].
    destruct (get_not_nullish content "name" Hc) as [n Hn].
    rewrite Hf. simpl.
    destruct (as_array f) as [l|] eqn:Hl.
    + apply as_array_Some in Hl. subst f.
      destruct (fold_add_feed_spec l urls) as (urls' & -> & Hfrom & Hnone). simpl.
      rewrite Hn. simpl. eexists _, _. split; [reflexivity|].
      assert (Hroot : block content content) by by left.
      split; [|split].
      * apply Hfrom0. intros k u Hk.
        destruct (Hfrom k u Hk) as [H | (e & He & Hv)]; [by apply H1|].
        right. by exists content, l, e.
      * intros Hno. rewrite Hnone; [by apply H2|].
        intros e k u He. by apply (Hno content l).
      * intros Hno. rewrite (Hno content l n) by done. by apply H3.
    + exists urls, nm. repeat split; eauto.
Qed.

Lemma discoverFeeds_resilient_witness :
  discoverFeeds (JObj []) "Fallback" = Ret (∅, JStr "Fallback") /\
  discoverFeeds named_block_root_feeds "Fallback" =
    Ret ({[ "station_status"%string := "u"%string ]}, JStr "X").
Proof.
  split.
  - destruct (discoverFeeds_resilient (JObj []) "Fallback")
      as (content & urls & name & Hcontent & -> & _ & Hurls & Hname & _).
    + split; discriminate.
    + injection Hcontent as <-.
      by rewrite (Hurls (proj1 empty_document_plain)),
                 (Hname (proj2 empty_document_plain)).
  - destruct (discoverFeeds_resilient named_block_root_feeds "Fallback")
      as (content & urls & name & Hcontent & -> & _ & _ & _ & -> & -> & _).
    + split; discriminate.
    + injection Hcontent as <-. reflexivity.
Defined.

(** The examples of the specification: a language block, a root-level feed
    list, and the empty document. *)
Lemma discoverFeeds_examples (fallback : string) :
  discoverFeeds discovery_example fallback =
    Ret ({[ "station_status"%string := "u"%string ]}, JStr "X") /\
  discoverFeeds (JObj [("feeds", JArr [JObj [("name", JStr "station_status");
                                            ("url", JStr "u")]])]%string) fallback =
    Ret ({[ "station_status"%string := "u"%string ]}, JStr fallback) /\
  discoverFeeds (JObj []) fallback = Ret (∅, JStr fallback).
Proof. repeat split; reflexivity. Qed.

(** ** Concurrent feed fetch / cache layer *)

Import FeedFetch.

Lemma ascii_compare_trans (a b c : ascii) (o : comparison) :
  Ascii.compare a b = o -> Ascii.compare b c = o -> Ascii.compare a c = o.
Proof.
  unfold Ascii.compare. destruct o; intros H1 H2.
  - apply N.compare_eq_iff in H1, H2. apply N.compare_eq_iff. congruence.
  - apply N.compare_lt_iff in H1, H2. apply N.compare_lt_iff.
    by apply N.lt_trans with (N_of_ascii b).
  - apply N.compare_gt_iff in H1, H2. apply N.compare_gt_iff.
    by apply N.lt_trans with (N_of_ascii b).
Qed.

Lemma string_leb_trans (a b c : string) :
  String.leb a b = true -> String.leb b c = true -> String.leb a c = true.
Proof.
  unfold String.leb. revert b c.
  induction a as [|x a IH]; intros [|y b] [|z c]; simpl; try done.
  destruct (Ascii.compare x y) eqn:Hxy; try done;
    destruct (Ascii.compare y z) eqn:Hyz; try done.
  - rewrite (ascii_compare_trans x y z Eq Hxy Hyz). apply IH.
  - apply Ascii.compare_eq_iff in Hxy. subst y. by rewrite Hyz.
  - apply Ascii.compare_eq_iff in Hyz. subst z. by rewrite Hxy.
  - by rewrite (ascii_compare_trans x y z Lt Hxy Hyz).
Qed.

#[local] Instance string_le_trans : Transitive string_le.
Proof. intros a b c. apply string_leb_trans. Qed.

#[local] Instance string_le_antisym : AntiSymm (=) string_le.
Proof. intros a b. apply String.leb_antisym. Qed.

#[local] Instance string_le_total : Total string_le.
Proof. intros a b. apply String.leb_total. Qed.

Lemma cacheKey_Permutation (feeds1 feeds2 : list GBFSFeed) :
  url <$> feeds1 ≡ₚ url <$> feeds2 -> cacheKey feeds1 = cacheKey feeds2.
Proof.
  intros Hperm. unfold cacheKey.
  apply (Sorted_unique string_le); try apply Sorted_merge_sort; try apply _.
  by rewrite !merge_sort_Permutation.
Qed.

Lemma cacheKey_length (feeds : list GBFSFeed) :
  length (cacheKey feeds) = length feeds.
Proof.
  unfold cacheKey. rewrite (Permutation_length (merge_sort_Permutation _ _)).
  apply length_fmap.
Qed.

Lemma fetchSingleFeed_reported (net : string -> FetchResult) (feed : GBFSFeed)
    (r : GBFSFeedData) :
  fetchSingleFeed net feed = Some r -> reported net feed r.
Proof.
  unfold fetchSingleFeed, reported, message_or_unknown.
  destruct (net (url feed)) as [| m | st txt body].
  - intros [= <-]. by repeat split.
  - intros [= <-]. by repeat split.
  - destruct (ok st); cbn [negb].
    + destruct body; [intros [= <-]; by repeat split.. | discriminate].
    + intros [= <-]. by repeat split.
Qed.


Lemma fetchSingleFeed_local (net net' : string -> FetchResult) (feed : GBFSFeed) :
  net' (url feed) = net (url feed) ->
  fetchSingleFeed net' feed = fetchSingleFeed net feed.
Proof. intros H. unfold fetchSingleFeed. by rewrite H. Qed.

Lemma fetch_all_reported (net : string -> FetchResult) (items : list GBFSFeed)
    (results : list GBFSFeedData) :
  mapM (fetchSingleFeed net) items = Some results ->
  length results = length items /\
  feed_name <$> results = name <$> items /\
  forall i item, items !! i = Some item ->
    exists r, results !! i = Some r /\ reported net item r.
Proof.
  intros Hall. apply mapM_Some_1 in Hall.
  split; [symmetry; by eapply Forall2_length|]. split.
  - induction Hall as [|item r items results Hr _ IH]; [done|].
    rewrite !fmap_cons, IH. f_equal.
    by destruct (fetchSingleFeed_reported net item r Hr) as [-> _].
  - intros i item Hi.
    destruct (Forall2_lookup_l _ _ _ _ _ Hall Hi) as (r & Hr & Hfetch).
    exists r. split; [done | by apply fetchSingleFeed_reported].
Qed.


Lemma mapM_id_Some {A : Type} (l : list A) : mapM id (Some <$> l) = Some l.
Proof. by apply mapM_fmap_Some. Qed.

(** The handler on a POST whose items all have the declared shape. *)
Lemma handler_post (net : string -> FetchResult)
    (cache : gmap (list string) CacheEntry) (items : list GBFSFeed) (now later : Z) :
  handler net cache (post items) now later =
    match (match cache !! cacheKey items with
           | Some cached =>
               if (now - timestamp cached <? CACHE_TTL)%Z
               then Some (entry_data cached) else None
           | None => None
           end) with
    | Some cachedData => (Some {| status := 200; payload := Results cachedData |}, cache)
    | None =>
        match mapM (fetchSingleFeed net) items with
        | Some results =>
            (Some {| status := 200; payload := Results results |},
             <[cacheKey items := {| entry_data := results; timestamp := later |}]> cache)
        | None => (None, cache)
        end
    end.
Proof.
  unfold handler, post. cbn [method feeds].
  change (String.eqb "POST" "OPTIONS") with false.
  change (negb (String.eqb "POST" "POST")) with false. cbv iota.
  by rewrite mapM_id_Some.
Qed.

Lemma cache_miss_lookup (cache : gmap (list string) CacheEntry)
    (items : list GBFSFeed) (now : Z) :
  cache_miss cache items now ->
  match cache !! cacheKey items with
  | Some cached =>
      if (now - timestamp cached <? CACHE_TTL)%Z then Some (entry_data cached) else None
  | None => None
  end = None.
Proof.
  intros Hmiss. destruct (cache !! cacheKey items) as [cached|] eqn:Hc; [|done].
  specialize (Hmiss cached Hc).
  by destruct (Z.ltb_spec (now - timestamp cached) CACHE_TTL); [lia|].
Qed.

Lemma handler_miss (net : string -> FetchResult)
    (cache : gmap (list string) CacheEntry) (items : list GBFSFeed) (now later : Z)
    (results : list GBFSFeedData) :
  cache_miss cache items now ->
  mapM (fetchSingleFeed net) items = Some results ->
  handler net cache (post items) now later =
    (Some {| status := 200; payload := Results results |},
     <[cacheKey items := {| entry_data := results; timestamp := later |}]> cache).
Proof.
  intros Hmiss Hall. by rewrite handler_post, (cache_miss_lookup _ _ _ Hmiss), Hall.
Qed.

Lemma handler_pending (net : string -> FetchResult)
    (cache : gmap (list string) CacheEntry) (items : list GBFSFeed) (now later : Z) :
  cache_miss cache items now ->
  mapM (fetchSingleFeed net) items = None ->
  handler net cache (post items) now later = (None, cache).
Proof.
  intros Hmiss Hall. by rewrite handler_post, (cache_miss_lookup _ _ _ Hmiss), Hall.
Qed.

Lemma handler_hit (net : string -> FetchResult)
    (cache : gmap (list string) CacheEntry) (items : list GBFSFeed)
    (now later : Z) (cached : CacheEntry) :
  cache !! cacheKey items = Some cached ->
  (now - timestamp cached < CACHE_TTL)%Z ->
  handler net cache (post items) now later =
    (Some {| status := 200; payload := Results (entry_data cached) |}, cache).
Proof.
  intros Hc Hfresh. rewrite handler_post, Hc.
  by destruct (Z.ltb_spec (now - timestamp cached) CACHE_TTL); [|lia].
Qed.

Lemma handler_hit_or_miss (cache : gmap (list string) CacheEntry)
    (items : list GBFSFeed) (now : Z) :
  cache_miss cache items now \/
  exists cached, cache !! cacheKey items = Some cached /\
                 (now - timestamp cached < CACHE_TTL)%Z.
Proof.
  destruct (cache !! cacheKey items) as [cached|] eqn:Hc.
  - destruct (Z.lt_ge_cases (now - timestamp cached) CACHE_TTL) as [Hlt|Hge].
    + right. by exists cached.
    + left. intros c Hc'. unfold cache_miss in *. rewrite Hc in Hc'.
      by injection Hc' as <-.
  - left. intros c Hc'. congruence.
Qed.

Lemma cacheKey_sorted (items : list GBFSFeed) :
  Sorted string_le (cacheKey items) /\ cacheKey items ≡ₚ url <$> items.
Proof.
  unfold cacheKey. split; [apply Sorted_merge_sort; apply _|].
  apply merge_sort_Permutation.
Qed.

Lemma cacheKey_eq (items1 items2 : list GBFSFeed) :
  cacheKey items1 = cacheKey items2 <-> url <$> items1 ≡ₚ url <$> items2.
Proof.
  split; [|apply cacheKey_Permutation].
  intros Hkey.
  rewrite <- (proj2 (cacheKey_sorted items1)), <- (proj2 (cacheKey_sorted items2)).
  by rewrite Hkey.
Qed.

Lemma cache_wf_empty : cache_wf ∅.
Proof. intros key entry H. by rewrite lookup_empty in H. Qed.

Lemma cache_wf_insert (net : string -> FetchResult)
    (cache : gmap (list string) CacheEntry) (items : list GBFSFeed)
    (results : list GBFSFeedData) (later : Z) :
  cache_wf cache ->
  mapM (fetchSingleFeed net) items = Some results ->
  cache_wf (<[cacheKey items := {| entry_data := results; timestamp := later |}]> cache).
Proof.
  intros Hwf Hall key entry.
  destruct (decide (cacheKey items = key)) as [<-|Hne].
  - rewrite lookup_insert_eq. intros [= <-]. by exists net, items.
  - rewrite lookup_insert_ne by done. apply Hwf.
Qed.

Lemma handler_cache_wf (net : string -> FetchResult)
    (cache : gmap (list string) CacheEntry) (req : Request) (now later : Z) :
  cache_wf cache -> cache_wf (handler net cache req now later).2.
Proof.
  intros Hwf. unfold handler.
  destruct (String.eqb (method req) "OPTIONS"); [done|].
  destruct (negb (String.eqb (method req) "POST")); [done|].
  destruct (feeds req) as [fs|]; [|done].
  destruct (mapM id fs) as [items|]; [|done]. cbv zeta.
  destruct (match cache !! cacheKey items with
            | Some cached =>
                if (now - timestamp cached <? CACHE_TTL)%Z
                then Some (entry_data cached) else None
            | None => None
            end); [done|].
  destruct (mapM (fetchSingleFeed net) items) as [results|] eqn:Hall; [|done].
  by apply (cache_wf_insert net).
Qed.

Lemma reachable_cache_wf (cache : gmap (list string) CacheEntry) :
  reachable cache -> cache_wf cache.
Proof.
  induction 1 as [|net cache req now later _ IH];
    [apply cache_wf_empty | by apply handler_cache_wf].
Qed.


(** The request never gets a reply when, on a miss, the body of one success
    response never arrives: the time limit no longer applies once the
    response is there.  The cache stays as it is. *)
Lemma fetchMany_stalled_body (net : string -> FetchResult)
    (cache : gmap (list string) CacheEntry) (items : list GBFSFeed) (now later : Z)
    (item : GBFSFeed) (status : Z) (statusText : string) :
  cache_miss cache items now ->
  item ∈ items ->
  net (url item) = Response status statusText Stalled -> ok status = true ->
  handler net cache (post items) now later = (None, cache).
Proof.
  intros Hmiss Hin Hnet Hok. apply handler_pending; [done|].
  apply mapM_None_2, Exists_exists. exists item. split; [done|].
  unfold fetchSingleFeed. by rewrite Hnet, Hok.
Qed.

(** A [null] item makes the request fail as a whole, with status 500. *)
Lemma fetchMany_null_item (net : string -> FetchResult)
    (cache : gmap (list string) CacheEntry) (items : list (option GBFSFeed))
    (now later : Z) :
  None ∈ items ->
  handler net cache {| method := "POST"; feeds := Some items |} now later =
    (Some {| status := 500; payload := EngineMessage |}, cache).
Proof.
  intros Hin. unfold handler. cbn [method feeds].
  change (String.eqb "POST" "OPTIONS") with false.
  change (negb (String.eqb "POST" "POST")) with false. cbv iota.
  assert (Hnone : mapM id items = None).
  { apply mapM_None_2, Exists_exists. by exists None. }
  by rewrite Hnone.
Qed.



(** C10.  The cache key is the sorted list of the items' URLs, so two
    requests have the same key exactly when their URLs are the same as
    multisets, whatever the names.  A request that is answered leaves its
    results in the cache under its key; when it was answered from the
    network these are the results just fetched, labelled with its names.  A later request with the same
    URLs, whatever its names and whatever the network would now do, issued
    while that entry is younger than the 60 s TTL, receives those results
    verbatim and leaves the cache as it is.  A later request whose URLs
    differ is not answered from that entry: it is served as it would have
    been without the first request. *)
Theorem cache_hit_ignores_names (net1 net2 : string -> FetchResult)
    (cache : gmap (list string) CacheEntry) (items1 items2 : list GBFSFeed)
    (now1 later1 now2 later2 : Z) (reply : Reply)
    (cache1 : gmap (list string) CacheEntry) :
  handler net1 cache (post items1) now1 later1 = (Some reply, cache1) ->
  (Sorted string_le (cacheKey items1) /\ cacheKey items1 ≡ₚ url <$> items1) /\
  (cacheKey items1 = cacheKey items2 <-> url <$> items1 ≡ₚ url <$> items2) /\
  exists entry,
    cache1 !! cacheKey items1 = Some entry /\
    reply = {| status := 200; payload := Results (entry_data entry) |} /\
    (cache_miss cache items1 now1 ->
       mapM (fetchSingleFeed net1) items1 = Some (entry_data entry) /\
       feed_name <$> entry_data entry = name <$> items1 /\
       timestamp entry = later1) /\
    (url <$> items1 ≡ₚ url <$> items2 ->
     (now2 - timestamp entry < CACHE_TTL)%Z ->
     handler net2 cache1 (post items2) now2 later2 =
       (Some {| status := 200; payload := Results (entry_data entry) |}, cache1)) /\
    (~ url <$> items1 ≡ₚ url <$> items2 ->
     (handler net2 cache1 (post items2) now2 later2).1 =
       (handler net2 cache (post items2) now2 later2).1).
Proof.
  intros Hrun. split; [apply cacheKey_sorted|]. split; [apply cacheKey_eq|].
  assert (Hother : forall c : gmap (list string) CacheEntry,
            (forall key, key <> cacheKey items1 -> c !! key = cache !! key) ->
            ~ url <$> items1 ≡ₚ url <$> items2 ->
            (handler net2 c (post items2) now2 later2).1 =
              (handler net2 cache (post items2) now2 later2).1).
  { intros c Hc Hne. rewrite !handler_post.
    rewrite Hc by (intros H; apply Hne; by apply cacheKey_eq).
    destruct (match cache !! cacheKey items2 with
              | Some cached =>
                  if (now2 - timestamp cached <? CACHE_TTL)%Z
                  then Some (entry_data cached) else None
              | None => None
              end); [done|].
    by destruct (mapM (fetchSingleFeed net2) items2). }
  destruct (handler_hit_or_miss cache items1 now1) as [Hmiss | (cached & Hc & Hfresh)].
  - destruct (mapM (fetchSingleFeed net1) items1) as [results|] eqn:Hall.
    + rewrite (handler_miss net1 cache items1 now1 later1 results) in Hrun by done.
      injection Hrun as <- <-.
      exists {| entry_data := results; timestamp := later1 |}.
      split; [apply lookup_insert_eq|]. split; [done|].
      split; [intros _; split; [done|]; split; [|done];
              by destruct (fetch_all_reported net1 items1 results Hall) as (_ & ? & _)|].
      split.
      * intros Hperm Hfresh2. apply handler_hit; [|exact Hfresh2].
        rewrite <- (cacheKey_Permutation _ _ Hperm). apply lookup_insert_eq.
      * apply Hother. intros key Hkey. by rewrite lookup_insert_ne.
    + rewrite handler_pending in Hrun by done. discriminate Hrun.
  - rewrite (handler_hit net1 cache items1 now1 later1 cached) in Hrun by done.
    injection Hrun as <- <-. exists cached. split; [done|]. split; [done|]. split.
    + intros Hmiss. specialize (Hmiss cached Hc). lia.
    + split; [|by apply Hother].
      intros Hperm Hfresh2. apply handler_hit; [|exact Hfresh2].
      by rewrite <- (cacheKey_Permutation _ _ Hperm).
Qed.

Lemma cache_hit_ignores_names_witness :
  handler (fun _ => Response 200 "OK" (Json (JObj [])))
          (handler silent_net ∅ (post [feed_a]) 0 10000).2
          (post [feed_b]) 20000 20001 =
    (Some {| status := 200;
             payload := Results [{| feed_name := "a"; data := JNull;
                                    error := Some abort_message |}] |},
     (handler silent_net ∅ (post [feed_a]) 0 10000).2) /\
  (handler (fun _ => Response 200 "OK" (Json (JObj [])))
           (handler silent_net ∅ (post [feed_a]) 0 10000).2
           (post [feed_c]) 20000 20001).1 =
    Some {| status := 200;
            payload := Results [{| feed_name := "c"; data := JObj [];
                                   error := None |}] |}.
Proof.
  assert (Hfirst : handler silent_net ∅ (post [feed_a]) 0 10000 =
            (Some {| status := 200;
                     payload := Results [{| feed_name := "a"; data := JNull;
                                            error := Some abort_message |}] |},
             (handler silent_net ∅ (post [feed_a]) 0 10000).2)).
  { apply surjective_pairing. }
  split.
  - destruct (cache_hit_ignores_names silent_net (fun _ => Response 200 "OK" (Json (JObj [])))
                ∅ [feed_a] [feed_b] 0 10000 20000 20001 _ _ Hfirst)
      as (_ & _ & entry & _ & Hreply & Hstored & Hhit & _).
    injection Hreply as Hdata. rewrite <- Hdata in Hhit. apply Hhit; [reflexivity|].
    destruct Hstored as (_ & _ & ->); [|reflexivity].
    intros cached H. rewrite lookup_empty in H. discriminate H.
  - destruct (cache_hit_ignores_names silent_net (fun _ => Response 200 "OK" (Json (JObj [])))
                ∅ [feed_a] [feed_c] 0 10000 20000 20001 _ _ Hfirst)
      as (_ & Hkeys & entry & _ & _ & _ & _ & Hother).
    rewrite Hother; [reflexivity|].
    intros Hperm. apply Hkeys in Hperm. vm_compute in Hperm. discriminate Hperm.
Defined.

(** ** Credential manager *)

Import Catalog.

Lemma isTokenExpired_spec (tm : TokenManager) (now : Z) :
  isTokenExpired tm now = true <-> needs_refresh tm now.
Proof.
  unfold isTokenExpired, needs_refresh.
  destruct (truthy (accessToken tm)); simpl.
  - destruct (tokenExpiresAt tm) as [expiry|].
    + rewrite Z.geb_le. split.
      * intros H. right. right. exists expiry. split; [done | lia].
      * intros [H | [H | (e & [= <-] & H)]]; [done | done | lia].
    + split; [intros _; right; by left | done].
  - split; [intros _; by left | done].
Qed.

Lemma isTokenExpired_dec (tm : TokenManager) (now : Z) :
  needs_refresh tm now \/ ~ needs_refresh tm now.
Proof.
  rewrite <- isTokenExpired_spec. destruct (isTokenExpired tm now); [by left | by right].
Qed.

Lemma refresh_sends (rt : string) (exchange : string -> FetchResult)
    (tm : TokenManager) (now : Z) :
  rt ≠ ""%string ->
  (refreshAccessToken (Some rt) exchange tm now).2 = [PostToken rt].
Proof.
  intros Hrt. unfold refreshAccessToken.
  apply String.eqb_neq in Hrt. rewrite Hrt.
  destruct (exchange rt) as [| m | status txt [data | m |]]; try reflexivity;
    destruct (negb (ok status)); try reflexivity.
  destruct (get data "access_token"), (get data "expires_in"); try reflexivity.
  destruct (if truthy a0 then a0 else JNum 3600) as [| | [|] | | | |]; reflexivity.
Qed.

Lemma refresh_success (rt : string) (exchange : string -> FetchResult)
    (tm : TokenManager) (now : Z) (status : Z) (statusText : string)
    (data token expires_in : JValue) :
  rt ≠ ""%string ->
  exchange rt = Response status statusText (Json data) ->
  ok status = true ->
  get data "access_token" = Ret token ->
  get data "expires_in" = Ret expires_in ->
  forall seconds,
    (if truthy expires_in then expires_in else JNum 3600) = JNum seconds ->
    refreshAccessToken (Some rt) exchange tm now =
      (Ret token,
       {| accessToken := token; tokenExpiresAt := Some (now + seconds * 1000)%Z |},
       [PostToken rt]).
Proof.
  intros Hrt Hex Hok Htok Hexp seconds Hsec. unfold refreshAccessToken.
  apply String.eqb_neq in Hrt. rewrite Hrt, Hex, Hok. simpl.
  by rewrite Htok, Hexp, Hsec.
Qed.

(** C9.  [getAccessToken] runs the refresh exactly when no token is stored
    or the current time is at or past the stored expiry minus five minutes:
    otherwise it returns the stored token, sends nothing and leaves the
    token manager as it is.  With a refresh credential configured, the
    refresh posts it to the token endpoint, so that a request is sent if
    and only if the condition holds; when the exchange succeeds the token
    returned is the one just received, stored with the expiry computed from
    [expires_in] (3600 s when absent).  A token that expires in four
    minutes is refreshed. *)
Theorem getAccessToken_refresh_decision (env : option string)
    (exchange : string -> FetchResult) (tm : TokenManager) (now later : Z) :
  (~ needs_refresh tm now ->
     getAccessToken env exchange tm now later = (Ret (accessToken tm), tm, [])) /\
  (needs_refresh tm now ->
     getAccessToken env exchange tm now later =
       refreshAccessToken env exchange tm later) /\
  (forall rt, env = Some rt -> rt ≠ ""%string ->
     ((getAccessToken env exchange tm now later).2 = [PostToken rt]
        <-> needs_refresh tm now) /\
     (needs_refresh tm now ->
        forall status statusText data token expires_in seconds,
          exchange rt = Response status statusText (Json data) ->
          ok status = true ->
          get data "access_token" = Ret token ->
          get data "expires_in" = Ret expires_in ->
          (if truthy expires_in then expires_in else JNum 3600) = JNum seconds ->
          getAccessToken env exchange tm now later =
            (Ret token,
             {| accessToken := token;
                tokenExpiresAt := Some (later + seconds * 1000)%Z |},
             [PostToken rt])) /\
     (tokenExpiresAt tm = Some (now + 4 * 60 * 1000)%Z ->
        (getAccessToken env exchange tm now later).2 = [PostToken rt])).
Proof.
  assert (Hyes : needs_refresh tm now ->
            getAccessToken env exchange tm now later =
              refreshAccessToken env exchange tm later).
  { intros H. apply isTokenExpired_spec in H. unfold getAccessToken. by rewrite H. }
  assert (Hno : ~ needs_refresh tm now ->
            getAccessToken env exchange tm now later = (Ret (accessToken tm), tm, [])).
  { intros H. rewrite <- isTokenExpired_spec in H. unfold getAccessToken.
    by destruct (isTokenExpired tm now). }
  split; [exact Hno|]. split; [exact Hyes|].
  intros rt -> Hrt.
  assert (Hiff : (getAccessToken (Some rt) exchange tm now later).2 = [PostToken rt]
                   <-> needs_refresh tm now).
  { destruct (isTokenExpired_dec tm now) as [H|H].
    - rewrite (Hyes H), refresh_sends by done. by split.
    - rewrite (Hno H). simpl. split; [discriminate | contradiction]. }
  split; [exact Hiff|]. split.
  - intros H status statusText data token expires_in seconds Hex Hok Htok Hexp Hsec.
    rewrite (Hyes H). by eapply refresh_success.
  - intros Hexpiry. apply Hiff. right. right.
    exists (now + 4 * 60 * 1000)%Z. split; [done | lia].
Qed.

Lemma getAccessToken_refresh_decision_witness :
  getAccessToken (Some "refresh-credential"%string) token_endpoint
                 (expiring_in_four_minutes 1000000) 1000000 1000250 =
    (Ret (JStr "fresh-token"),
     {| accessToken := JStr "fresh-token";
        tokenExpiresAt := Some (1000250 + 3600 * 1000)%Z |},
     [PostToken "refresh-credential"]).
Proof.
  destruct (getAccessToken_refresh_decision (Some "refresh-credential"%string)
              token_endpoint (expiring_in_four_minutes 1000000) 1000000 1000250)
    as (_ & _ & Hconfigured).
  destruct (Hconfigured "refresh-credential"%string eq_refl ltac:(discriminate))
    as (_ & Hfresh & _).
  apply (Hfresh ltac:(right; right; exists (1000000 + 4 * 60 * 1000)%Z;
                      split; [reflexivity | lia])
                200%Z "OK"%string (JObj [("access_token", JStr "fresh-token")]%string)
                (JStr "fresh-token") JUndefined 3600%Z);
    reflexivity.
Defined.

(** ** Paginated catalog fetcher *)

Lemma page_turn_array (allFeeds page : list JValue) (data : JValue) :
  page_feeds data = Ret (JArr page) ->
  page_turn allFeeds data =
    Ret (if (length page =? 0)%nat then Break allFeeds
         else if (Z.of_nat (length page) <? limit)%Z then Break (allFeeds ++ page)
              else Next (allFeeds ++ page)).
Proof.
  intros Hdata. unfold page_turn. rewrite Hdata. simpl.
  destruct page as [|x page]; [reflexivity|].
  change (length (x :: page)) with (S (length page)).
  rewrite Nat2Z.inj_succ. unfold Z.succ.
  destruct (Z.of_nat (length page)) eqn:E; try lia; simpl; try reflexivity;
    by destruct (_ <? _)%Z.
Qed.

Lemma page_requests_S (dataType : string) (n : nat) :
  page_requests dataType (S n) =
    page_requests dataType n ++ [GetFeeds (page_url dataType (Z.of_nat n * limit))].
Proof. unfold page_requests. by rewrite seq_S, fmap_app. Qed.

(** The loop started at page number [k] with [acc] already collected. *)
Lemma page_loop_serves (catalog : string -> FetchResult) (dataType : string)
    (last : list JValue) (fulls : list (list JValue)) :
  forall (k fuel : nat) (before : list (list JValue)) (sent : list Sent),
    length before = k ->
    serves catalog dataType (before ++ fulls ++ [last]) ->
    Forall (fun page => Z.of_nat (length page) = limit) fulls ->
    (Z.of_nat (length last) < limit)%Z ->
    length fulls < fuel ->
    page_loop fuel catalog dataType (Z.of_nat k * limit) (concat before)
              (sent ++ page_requests dataType k) =
      Some (Ret (concat (before ++ fulls) ++ last),
            sent ++ page_requests dataType (k + S (length fulls))).
Proof.
  induction fulls as [|page fulls IH]; intros k fuel before sent Hk Hserves Hfull Hlast Hfuel.
  - destruct fuel as [|fuel]; [simpl in Hfuel; lia|]. simpl page_loop.
    destruct (Hserves k last) as (status & txt & data & Hcat & Hok & Hdata).
    { rewrite lookup_app_r by lia. rewrite Hk, Nat.sub_diag. reflexivity. }
    rewrite Hcat, Hok. simpl negb. cbv iota.
    rewrite (page_turn_array _ last data Hdata).
    rewrite app_nil_r, Nat.add_1_r, page_requests_S, app_assoc.
    destruct (Nat.eqb_spec (length last) 0) as [H0|H0].
    + apply length_zero_iff_nil in H0. subst last. by rewrite app_nil_r.
    + destruct (Z.ltb_spec (Z.of_nat (length last)) limit); [done | lia].
  - destruct fuel as [|fuel]; [simpl in Hfuel; lia|]. simpl page_loop.
    destruct (Hserves k page) as (status & txt & data & Hcat & Hok & Hdata).
    { rewrite lookup_app_r by lia. rewrite Hk, Nat.sub_diag. reflexivity. }
    apply Forall_cons in Hfull as [Hpage Hfull].
    rewrite Hcat, Hok. simpl negb. cbv iota.
    rewrite (page_turn_array _ page data Hdata).
    destruct (Nat.eqb_spec (length page) 0) as [H0|H0];
      [rewrite H0 in Hpage; discriminate Hpage|].
    destruct (Z.ltb_spec (Z.of_nat (length page)) limit); [lia|].
    replace (Z.of_nat k * limit + limit)%Z with (Z.of_nat (S k) * limit)%Z by lia.
    rewrite <- app_assoc, <- page_requests_S.
    replace (concat before ++ page) with (concat (before ++ [page]))
      by (by rewrite concat_app; simpl; rewrite app_nil_r).
    rewrite (IH (S k) fuel (before ++ [page]) sent).
    + rewrite <- app_assoc. simpl.
      by replace (S (k + S (length fulls))) with (k + S (S (length fulls))) by lia.
    + rewrite length_app. simpl. lia.
    + by rewrite <- app_assoc.
    + done.
    + done.
    + simpl in Hfuel. lia.
Qed.

(** C8.  The page size is fixed at 1000.  Once the token is at hand, if the
    upstream serves full pages followed by a page of fewer than 1000 records
    (possibly none), the fetcher returns the concatenation of all pages and
    has requested exactly the offsets 0, 1000, ... up to the short page,
    nothing after it.  In particular pages of 1000, 1000 and 400 records
    give 2400 records after three requests. *)
Theorem fetchAllGbfsFeeds_pages (fuel : nat) (env : option string)
    (exchange catalog : string -> FetchResult) (tm tm' : TokenManager)
    (now later : Z) (dataType : string) (token : JValue) (sent : list Sent) :
  getAccessToken env exchange tm now later = (Ret token, tm', sent) ->
  limit = 1000%Z /\
  (forall (fulls : list (list JValue)) (last : list JValue),
     serves catalog dataType (fulls ++ [last]) ->
     Forall (fun page => Z.of_nat (length page) = limit) fulls ->
     (Z.of_nat (length last) < limit)%Z ->
     length fulls < fuel ->
     fetchAllGbfsFeeds fuel env exchange catalog tm now later dataType =
       Some (Ret (concat fulls ++ last), tm',
             sent ++ page_requests dataType (S (length fulls)))) /\
  (forall p0 p1 p2 : list JValue,
     length p0 = 1000 -> length p1 = 1000 -> length p2 = 400 ->
     serves catalog dataType [p0; p1; p2] ->
     2 < fuel ->
     fetchAllGbfsFeeds fuel env exchange catalog tm now later dataType =
       Some (Ret (p0 ++ p1 ++ p2), tm',
             sent ++ [GetFeeds (page_url dataType 0);
                      GetFeeds (page_url dataType 1000);
                      GetFeeds (page_url dataType 2000)]) /\
     length (p0 ++ p1 ++ p2) = 2400).
Proof.
  intros Htoken.
  assert (Hgen : forall (fulls : list (list JValue)) (last : list JValue),
     serves catalog dataType (fulls ++ [last]) ->
     Forall (fun page => Z.of_nat (length page) = limit) fulls ->
     (Z.of_nat (length last) < limit)%Z ->
     length fulls < fuel ->
     fetchAllGbfsFeeds fuel env exchange catalog tm now later dataType =
       Some (Ret (concat fulls ++ last), tm',
             sent ++ page_requests dataType (S (length fulls)))).
  { intros fulls last Hserves Hfull Hlast Hfuel.
    unfold fetchAllGbfsFeeds. rewrite Htoken.
    pose proof (page_loop_serves catalog dataType last fulls 0 fuel [] sent
                  eq_refl Hserves Hfull Hlast Hfuel) as Hloop.
    unfold page_requests at 1 in Hloop. simpl in Hloop.
    change (Z.of_nat 0 * limit)%Z with 0%Z in Hloop.
    rewrite app_nil_r in Hloop. by rewrite Hloop. }
  split; [reflexivity|]. split; [exact Hgen|].
  intros p0 p1 p2 H0 H1 H2 Hserves Hfuel.
  split; [|rewrite !length_app; lia].
  rewrite (Hgen [p0; p1] p2 Hserves).
  - simpl. by rewrite app_nil_r, <- app_assoc.
  - repeat constructor; unfold limit; lia.
  - unfold limit. lia.
  - simpl. lia.
Qed.

Lemma three_page_catalog_serves : serves three_page_catalog "gbfs" three_pages.
Proof.
  intros i page Hpage.
  destruct i as [|[|[|i]]]; try discriminate Hpage;
    injection Hpage as <-; eexists _, _, _;
    (split; [vm_compute; reflexivity | split; reflexivity]).
Qed.

Lemma fetchAllGbfsFeeds_pages_witness :
  fetchAllGbfsFeeds 3 (Some "refresh-credential"%string) token_endpoint
                    three_page_catalog initialTokenManager 0 250 "gbfs" =
    Some (Ret (repeat (record 1) 1000 ++ repeat (record 2) 1000 ++ repeat (record 3) 400),
          {| accessToken := JStr "fresh-token";
             tokenExpiresAt := Some (250 + 3600 * 1000)%Z |},
          [PostToken "refresh-credential"] ++
          [GetFeeds (page_url "gbfs" 0); GetFeeds (page_url "gbfs" 1000);
           GetFeeds (page_url "gbfs" 2000)]) /\
  length (repeat (record 1) 1000 ++ repeat (record 2) 1000 ++ repeat (record 3) 400) = 2400.
Proof.
  apply (proj2 (proj2 (fetchAllGbfsFeeds_pages 3 (Some "refresh-credential"%string)
           token_endpoint three_page_catalog initialTokenManager
           {| accessToken := JStr "fresh-token";
              tokenExpiresAt := Some (250 + 3600 * 1000)%Z |}
           0 250 "gbfs" (JStr "fresh-token") [PostToken "refresh-credential"]
           eq_refl))).
  - apply repeat_length.
  - apply repeat_length.
  - apply repeat_length.
  - apply three_page_catalog_serves.
  - lia.
Defined.

(** ** Worked examples *)

(** The four rules of the classifier on small feed maps. *)
Example classify_vehicle_feed_only :
  classifyOperatorType {[ "free_bike_status"%string := "u"%string ]} "Op" JUndefined
    = Ret free_floating.
Proof. reflexivity. Qed.

Example classify_station_information_alone :
  classifyOperatorType {[ "station_information"%string := "u"%string ]} "Op" JUndefined
    = Ret unknown.
Proof. reflexivity. Qed.

Example classify_hybrid_with_scooters :
  classifyOperatorType hybrid_feeds "Op" scooter_evidence = Ret free_floating /\
  classifyOperatorType hybrid_feeds "Op" JUndefined = Ret station_based.
Proof. split; reflexivity. Qed.

(** A [null] entry met before the scooter entry ends the scan with a
    TypeError; met after it, it is never read. *)
Example classify_null_vehicle_type :
  classifyOperatorType hybrid_feeds "Op"
    (JObj [("vehicle_types", JArr [JNull; scooter_type])]%string) = Throw TypeError /\
  classifyOperatorType hybrid_feeds "Op"
    (JObj [("vehicle_types", JArr [scooter_type; JNull])]%string) = Ret free_floating.
Proof. split; reflexivity. Qed.

(** Itemized availability is preferred over the separate counters, and
    disabled vehicles add to the total only. *)
Example station_itemized :
  parseStationStatusFeed
    {| Normalizer.data := JObj [("stations",
         JArr [JObj [("station_id", JStr "s1");
                     ("vehicle_types_available",
                      JArr [JObj [("vehicle_type_id", JStr "bike"); ("count", JNum 4)];
                            JObj [("vehicle_type_id", JStr "ebike"); ("count", JNum 2)]]);
                     ("num_bikes_available", JNum 99);
                     ("num_vehicles_disabled", JNum 1);
                     ("num_docks_available", JNum 7)]])]%string |} "Op"
  = Ret (Some {| bikesAvailable := 6; bikesTotal := 7; docksAvailable := 7;
                 stationCount := 1; Normalizer.error := None |}).
Proof. reflexivity. Qed.

(** Counters whose sum leaves the range of exact integer sums are outside
    the embedding. *)
Example station_sum_beyond_range :
  parseStationStatusFeed
    {| Normalizer.data := JObj [("stations",
         JArr [JObj [("num_bikes_available", JNum (2 ^ 53));
                     ("num_bikes_disabled", JNum 1)]])]%string |} "Op"
  = Unsupported.
Proof. reflexivity. Qed.

(** A missing station list is a [null] result, not a zero result. *)
Example station_list_missing :
  parseStationStatusFeed {| Normalizer.data := JObj [("stations", JStr "none")]%string |} "Op"
    = Ret None /\
  parseStationStatusFeed {| Normalizer.data := JNull |} "Op" = Ret None.
Proof. split; reflexivity. Qed.

(** The wrapped discovery document [{data: {en: {feeds: [...]}}}] and an
    entry without a url. *)
Example discover_wrapped :
  discoverFeeds
    (JObj [("data",
            JObj [("en",
                   JObj [("feeds",
                          JArr [JObj [("name", JStr "vehicle_status"); ("url", JStr "v")];
                                JObj [("name", JStr "system_information")];
                                JNull])])])]%string) "Fallback"
  = Ret ({[ "vehicle_status"%string := "v"%string ]}, JStr "Fallback").
Proof. reflexivity. Qed.

(** A non-success status, a hanging upstream, a success, and a success
    whose body never arrives, item by item. *)
Example fetch_single_outcomes :
  fetchSingleFeed (fun _ => Response 503 "Service Unavailable" (Json JNull)) feed_a =
    Some {| feed_name := "a"; data := JNull;
            error := Some "HTTP 503: Service Unavailable"%string |} /\
  fetchSingleFeed silent_net feed_a =
    Some {| feed_name := "a"; data := JNull;
            error := Some "This operation was aborted"%string |} /\
  fetchSingleFeed (fun _ => Response 200 "OK" (Json (JObj []))) feed_a =
    Some {| feed_name := "a"; data := JObj []; error := None |} /\
  fetchSingleFeed (fun _ => Response 200 "OK" Stalled) feed_a = None.
Proof. repeat split; reflexivity. Qed.

(** Without a refresh credential the refresh fails before anything is sent;
    a token that is still good for an hour is returned as it is. *)
Example token_examples :
  getAccessToken None token_endpoint initialTokenManager 0 1 =
    (Throw (Error "MOBILITY_DATABASE_REFRESH_TOKEN not configured"),
     initialTokenManager, []) /\
  getAccessToken None token_endpoint
    {| accessToken := JStr "stored-token"; tokenExpiresAt := Some 3600000%Z |} 0 1 =
    (Ret (JStr "stored-token"),
     {| accessToken := JStr "stored-token"; tokenExpiresAt := Some 3600000%Z |}, []).
Proof. split; reflexivity. Qed.

(** A failing page aborts the listing, and an upstream that only ever sends
    full pages keeps the loop running. *)
Example catalog_failures :
  page_loop 5 (fun _ => Response 500 "Internal Server Error" (Json JNull)) "gbfs" 0 [] [] =
    Some (Throw (Error "Failed to fetch feeds: 500"),
          [GetFeeds "https://api.mobilitydatabase.org/v1/feeds?data_type=gbfs&limit=1000&offset=0"]) /\
  page_loop 2 (fun _ => Response 200 "OK" (Json (JArr (repeat JNull 1000)))) "gbfs" 0 [] [] =
    None.
Proof. split; vm_compute; reflexivity. Qed.

(** ** Classification helpers *)

Lemma truthy_url_Some (F : gmap string string) (k u : string) :
  Pipeline.truthy_url F k = Some u <-> F !! k = Some u /\ u ≠ ""%string.
Proof.
  unfold Pipeline.truthy_url. destruct (F !! k) as [v|]; [|split; [done | intros [? _]; done]].
  destruct (String.eqb_spec v "") as [->|Hne]; split.
  - done.
  - intros [[= <-] H]. done.
  - intros [= ->]. done.
  - intros [[= ->] _]. done.
Qed.

Lemma has_url_true (F : gmap string string) (k : string) :
  Description.has_url F k = true <-> exists u, F !! k = Some u /\ u ≠ ""%string.
Proof.
  unfold Description.has_url. split.
  - destruct (Pipeline.truthy_url F k) as [u|] eqn:E; [|done].
    intros _. exists u. by apply truthy_url_Some.
  - intros (u & Hu). apply truthy_url_Some in Hu. by rewrite Hu.
Qed.

Lemma has_url_has_feed (F : gmap string string) (k : string) :
  Description.has_url F k = true -> array_includes (record_keys F) k = true.
Proof. intros (u & Hu & _)%has_url_true. apply has_feed_iff. by exists u. Qed.

(** X1.  A system that [isHybridSystem] recognises (both station feeds and a
    vehicle feed with non-empty URLs) is classified [station_based] when no
    vehicle-type evidence is given, and described as the hybrid kind. *)
Theorem hybrid_is_station_based (F : gmap string string) (name : string) :
  Description.isHybridSystem F = true ->
  classifyOperatorType F name JUndefined = Ret station_based /\
  Description.getClassificationDescription station_based F =
    "Station-based with dockless vehicles (hybrid)"%string.
Proof.
  intros Hhybrid. split; [|by unfold Description.getClassificationDescription; rewrite Hhybrid].
  unfold Description.isHybridSystem in Hhybrid. simpl in Hhybrid.
  apply andb_true_iff in Hhybrid as [Hst _].
  rewrite andb_true_r in Hst. apply andb_true_iff in Hst as [Hinfo Hstatus].
  apply has_url_has_feed in Hinfo, Hstatus.
  assert (HF : F ≠ ∅).
  { intros ->. apply has_feed_iff in Hinfo as [u Hu]. by rewrite lookup_empty in Hu. }
  rewrite classify_nonempty by done. simpl. by rewrite Hinfo, Hstatus.
Qed.

Lemma hybrid_is_station_based_witness :
  classifyOperatorType hybrid_feeds "Hybrid" JUndefined = Ret station_based /\
  Description.getClassificationDescription station_based hybrid_feeds =
    "Station-based with dockless vehicles (hybrid)"%string.
Proof. apply (hybrid_is_station_based hybrid_feeds "Hybrid"). reflexivity. Defined.

(** X2.  The feed [getVehicleFeedName] names is [vehicle_status] whenever
    that feed has a non-empty URL and [free_bike_status] only otherwise, and
    it is the feed the pipeline queues for a free-floating operator: same
    name after the [systemId::] prefix, same URL.  It names none exactly
    when the pipeline queues nothing. *)
Theorem vehicle_feed_name_is_queued (F : gmap string string) (sid : string) :
  match Description.getVehicleFeedName F with
  | Some n =>
      (n = "vehicle_status"%string \/
       (n = "free_bike_status"%string /\
        Pipeline.truthy_url F "vehicle_status" = None)) /\
      exists u, F !! n = Some u /\ u ≠ ""%string /\
        Pipeline.status_feed sid F free_floating =
          [{| FeedFetch.name := sid +:+ "::" +:+ n; FeedFetch.url := u |}]
  | None => Pipeline.status_feed sid F free_floating = []
  end.
Proof.
  unfold Description.getVehicleFeedName, Description.has_url, Pipeline.status_feed. simpl.
  destruct (Pipeline.truthy_url F "vehicle_status") as [u|] eqn:Hv.
  - split; [by left|]. apply truthy_url_Some in Hv as [Hu Hne]. by exists u.
  - destruct (Pipeline.truthy_url F "free_bike_status") as [u|] eqn:Hb; [|done].
    split; [by right|]. apply truthy_url_Some in Hb as [Hu Hne]. by exists u.
Qed.

(** X3.  When every URL of the feed map is non-empty, a [free_floating]
    verdict reached without vehicle-type evidence comes with a vehicle feed:
    [getVehicleFeedName] names one, and it is a key of the map. *)
Theorem free_floating_has_vehicle_feed (F : gmap string string) (name : string) :
  (forall k u, F !! k = Some u -> u ≠ ""%string) ->
  classifyOperatorType F name JUndefined = Ret free_floating ->
  exists n, Description.getVehicleFeedName F = Some n /\ is_Some (F !! n).
Proof.
  intros Hurls Hclass.
  destruct (decide (F = ∅)) as [->|HF]; [by rewrite classify_empty in Hclass|].
  rewrite classify_nonempty in Hclass by done.
  rewrite scooter_override_no_evidence in Hclass. simpl in Hclass.
  assert (Hkey : forall k, array_includes (record_keys F) k = true ->
                           Description.has_url F k = true).
  { intros k [u Hu]%has_feed_iff. apply has_url_true. exists u. split; [done | by eapply Hurls]. }
  destruct (array_includes (record_keys F) "station_information"
            && (array_includes (record_keys F) "station_status" && true));
    [discriminate Hclass|].
  unfold Description.getVehicleFeedName. simpl.
  destruct (array_includes (record_keys F) "vehicle_status") eqn:Hv.
  - rewrite (Hkey _ Hv). eexists. split; [done | by apply has_feed_iff].
  - destruct (array_includes (record_keys F) "free_bike_status") eqn:Hb;
      [|discriminate Hclass].
    destruct (Description.has_url F "vehicle_status") eqn:Hv'.
    + apply has_url_has_feed in Hv'. congruence.
    + rewrite (Hkey _ Hb). eexists. split; [done | by apply has_feed_iff].
Qed.

Lemma free_floating_has_vehicle_feed_witness :
  exists n, Description.getVehicleFeedName
              {[ "free_bike_status"%string := "https://op.example/fbs.json"%string ]} = Some n /\
            is_Some (({[ "free_bike_status"%string := "https://op.example/fbs.json"%string ]}
                        : gmap string string) !! n).
Proof.
  apply (free_floating_has_vehicle_feed _ "Op").
  - intros k u H. apply lookup_singleton_Some in H as [_ <-]. discriminate.
  - reflexivity.
Defined.

(** ** Feed fetch cache: keys and entries *)

(** X4.  Two requests share a cache key exactly when their URL lists are
    equal as multisets: the order and the names of the items play no role,
    and requests for different URL multisets never share an entry. *)
Theorem cacheKey_eq_iff (items1 items2 : list GBFSFeed) :
  cacheKey items1 = cacheKey items2 <-> url <$> items1 ≡ₚ url <$> items2.
Proof.
  split; [|apply cacheKey_Permutation].
  unfold cacheKey. intros Hkey.
  rewrite <- (merge_sort_Permutation string_le (url <$> items1)).
  rewrite <- (merge_sort_Permutation string_le (url <$> items2)).
  by rewrite Hkey.
Qed.

Lemma mapM_id_inv {A : Type} (l : list (option A)) (k : list A) :
  mapM id l = Some k -> l = Some <$> k.
Proof.
  intros H. apply mapM_Some_1 in H.
  induction H as [|x y l k Hx _ IH]; [done|].
  rewrite fmap_cons, <- IH. f_equal. exact Hx.
Qed.

(** X5.  No call of the handler evicts anything: an entry of the cache is
    still there afterwards, unchanged, unless the call is a POST for that
    very key arriving when the entry is at least [CACHE_TTL] old, in which
    case it is replaced by the freshly fetched results stamped [later].  A
    call that is not a POST with a [feeds] array leaves the cache as it
    is. *)
Theorem handler_keeps_entries (net : string -> FetchResult)
    (cache : gmap (list string) CacheEntry) (req : Request) (now later : Z)
    (key : list string) (entry : CacheEntry) :
  cache !! key = Some entry ->
  ((handler net cache req now later).2 !! key = Some entry \/
   exists items results,
     method req = "POST"%string /\ feeds req = Some (Some <$> items) /\
     key = cacheKey items /\ (CACHE_TTL <= now - timestamp entry)%Z /\
     mapM (fetchSingleFeed net) items = Some results /\
     (handler net cache req now later).2 !! key =
       Some {| entry_data := results; timestamp := later |}) /\
  (method req ≠ "POST"%string \/ feeds req = None ->
   (handler net cache req now later).2 = cache).
Proof.
  intros Hentry. unfold handler.
  destruct (String.eqb_spec (method req) "OPTIONS") as [Hopt|Hopt].
  { split; [by left | done]. }
  destruct (String.eqb_spec (method req) "POST") as [Hpost|Hpost]; cbn [negb].
  2: { split; [by left | done]. }
  destruct (feeds req) as [fs|] eqn:Hfs.
  2: { split; [by left | done]. }
  split; [|intros [H|H]; congruence].
  destruct (mapM id fs) as [items|] eqn:Hitems; [|by left].
  apply mapM_id_inv in Hitems as ->. cbv zeta.
  destruct (mapM (fetchSingleFeed net) items) as [results|] eqn:Hall.
  - destruct (cache !! cacheKey items) as [cached|] eqn:Hc.
    + destruct (Z.ltb_spec (now - timestamp cached) CACHE_TTL); [by left|].
      cbn [snd].
      destruct (decide (cacheKey items = key)) as [<-|Hne].
      * right. exists items, results. rewrite lookup_insert_eq.
        rewrite Hc in Hentry. injection Hentry as ->. by repeat split.
      * left. by rewrite lookup_insert_ne.
    + left. cbn [snd]. rewrite lookup_insert_ne; [done|]. intros <-. congruence.
  - left. by destruct (match cache !! cacheKey items with
                       | Some cached =>
                           if (now - timestamp cached <? CACHE_TTL)%Z
                           then Some (entry_data cached) else None
                       | None => None
                       end).
Qed.

Lemma handler_keeps_entries_witness :
  (handler silent_net (handler silent_net ∅ (post [feed_a]) 0 10000).2
           (post [feed_b]) 20000 30000).2 !! cacheKey [feed_a] =
    Some {| entry_data := [{| feed_name := "a"; data := JNull;
                              error := Some abort_message |}];
            timestamp := 10000 |}.
Proof.
  destruct (handler_keeps_entries silent_net
              (handler silent_net ∅ (post [feed_a]) 0 10000).2
              (post [feed_b]) 20000 30000 (cacheKey [feed_a])
              {| entry_data := [{| feed_name := "a"; data := JNull;
                                   error := Some abort_message |}];
                 timestamp := 10000 |})
    as [[Hkept | (items & results & _ & _ & _ & Hstale & _)] _].
  - rewrite (handler_miss silent_net ∅ [feed_a] 0 10000
               [{| feed_name := "a"; data := JNull; error := Some abort_message |}]).
    + apply lookup_insert_eq.
    + intros cached H. rewrite lookup_empty in H. discriminate H.
    + reflexivity.
  - exact Hkept.
  - simpl in Hstale. unfold CACHE_TTL in Hstale. lia.
Defined.

(** ** Single-URL proxy *)

Lemma substring_length_le (n : nat) (s : string) :
  String.length (String.substring 0 n s) <= n.
Proof.
  revert s. induction n as [|n IH]; intros [|c s]; simpl; try lia.
  specialize (IH s). lia.
Qed.

Lemma append_length (s t : string) :
  String.length (s +:+ t) = String.length s + String.length t.
Proof. induction s as [|c s IH]; [done|]. rewrite append_cons. simpl. by rewrite IH. Qed.

(** X6.  The proxy relays a body only when everything is in order: the
    reply is 200 with data [d] exactly when the request is a GET with a
    non-empty [target_url], the upstream answered within the time limit
    with a 2xx status and a content type that mentions [application/json]
    or [application/geo+json], and its body parsed to [d]. *)
Theorem proxy_relays_json_only (net : string -> Proxy.Fetched) (req : Proxy.Request)
    (d : JValue) :
  Proxy.handler net req = {| Proxy.code := 200; Proxy.payload := Proxy.Data d |} <->
  Proxy.method req = "GET"%string /\
  exists targetUrl response t,
    Proxy.target_url req = Some targetUrl /\ targetUrl ≠ ""%string /\
    net targetUrl = Proxy.Responded response /\
    ok (Proxy.status response) = true /\
    Proxy.contentType response = Some t /\
    (includes "application/json" t = true \/ includes "application/geo+json" t = true) /\
    Proxy.json response = Proxy.Got d.
Proof.
  unfold Proxy.handler, Proxy.caught. split.
  - destruct (String.eqb_spec (Proxy.method req) "OPTIONS"); [discriminate|].
    destruct (String.eqb_spec (Proxy.method req) "GET") as [Hget|]; [|discriminate].
    simpl. destruct (Proxy.target_url req) as [targetUrl|]; [|discriminate].
    destruct (String.eqb_spec targetUrl "") as [|Hurl]; [discriminate|].
    destruct (net targetUrl) as [| name message | response] eqn:Hnet.
    + discriminate.
    + destruct (String.eqb name "AbortError"); discriminate.
    + destruct (ok (Proxy.status response)) eqn:Hok; simpl.
      2: { destruct (Proxy.text response); [|destruct (String.eqb _ _)]; intros [= -> ];
           discriminate. }
      destruct (Proxy.contentType response) as [t|] eqn:Hct.
      * destruct (String.eqb_spec t "") as [->|Ht].
        { simpl. destruct (Proxy.text response); [|destruct (String.eqb _ _)]; discriminate. }
        destruct (includes "application/json" t) eqn:Hj; simpl.
        -- destruct (Proxy.json response) as [data|] eqn:Hjson;
             [|destruct (String.eqb _ _); discriminate].
           intros [= ->]. split; [done|]. exists targetUrl, response, t.
           repeat split; auto.
        -- destruct (includes "application/geo+json" t) eqn:Hg; simpl.
           ++ destruct (Proxy.json response) as [data|] eqn:Hjson;
                [|destruct (String.eqb _ _); discriminate].
              intros [= ->]. split; [done|]. exists targetUrl, response, t.
              repeat split; auto.
           ++ destruct (Proxy.text response); [|destruct (String.eqb _ _)]; discriminate.
      * simpl. destruct (Proxy.text response); [|destruct (String.eqb _ _)]; discriminate.
  - intros (Hget & targetUrl & response & t & Hurl & Hne & Hnet & Hok & Hct & Hjson & Hd).
    rewrite Hget, Hurl. simpl.
    apply String.eqb_neq in Hne. rewrite Hne, Hnet, Hok, Hct, Hd. simpl.
    assert (Ht : String.eqb t "" = false).
    { apply String.eqb_neq. intros ->. by destruct Hjson. }
    rewrite Ht. by destruct Hjson as [-> | ->]; [|rewrite andb_false_r].
Qed.

Lemma substring_prefix (n : nat) (s : string) :
  String.prefix (String.substring 0 n s) s = true.
Proof.
  revert s. induction n as [|n IH]; intros [|c s]; simpl; try done.
  destruct (Ascii.ascii_dec c c); [apply IH | done].
Qed.

(** X7.  A non-success upstream status is passed through with a bounded
    excerpt: the reply carries the upstream status and the message
    [Provider error: <status> - <excerpt>], where the excerpt is a prefix of
    the upstream body of at most 200 characters, however long the body. *)
Theorem proxy_error_excerpt (net : string -> Proxy.Fetched) (targetUrl : string)
    (response : Proxy.Upstream) (body : string) :
  targetUrl ≠ ""%string ->
  net targetUrl = Proxy.Responded response ->
  ok (Proxy.status response) = false ->
  Proxy.text response = Proxy.Got body ->
  exists excerpt,
    Proxy.handler net {| Proxy.method := "GET"; Proxy.target_url := Some targetUrl |} =
      {| Proxy.code := Proxy.status response;
         Proxy.payload := Proxy.ErrorMessage
           ("Provider error: " +:+ pretty (Proxy.status response) +:+ " - " +:+ excerpt) |} /\
    String.length excerpt <= 200 /\
    String.prefix excerpt body = true.
Proof.
  intros Hurl Hnet Hok Hbody. exists (String.substring 0 200 body).
  split; [|split; [apply substring_length_le | apply substring_prefix]].
  unfold Proxy.handler. simpl. apply String.eqb_neq in Hurl.
  by rewrite Hurl, Hnet, Hok, Hbody.
Qed.

Lemma proxy_error_excerpt_witness :
  exists excerpt,
    Proxy.handler failing_upstream
      {| Proxy.method := "GET"; Proxy.target_url := Some "https://op.example/gbfs.json"%string |} =
      {| Proxy.code := 503;
         Proxy.payload := Proxy.ErrorMessage
           ("Provider error: " +:+ pretty 503%Z +:+ " - " +:+ excerpt) |} /\
    String.length excerpt <= 200 /\
    String.prefix excerpt "<html>unavailable</html>" = true.
Proof.
  apply (proxy_error_excerpt failing_upstream "https://op.example/gbfs.json"
           {| Proxy.status := 503; Proxy.contentType := Some "text/html"%string;
              Proxy.text := Proxy.Got "<html>unavailable</html>";
              Proxy.json := Proxy.Failed "SyntaxError" "Unexpected token <" |}
           "<html>unavailable</html>").
  - discriminate.
  - reflexivity.
  - reflexivity.
  - reflexivity.
Defined.

(** X8.  The status codes of the proxy: 200, 400, 405, 408, 502, or the
    status of an upstream response that is not a success.  408 is sent only
    when nothing answered within the time limit or an error named
    [AbortError] was caught. *)
Theorem proxy_reply_codes (net : string -> Proxy.Fetched) (req : Proxy.Request) :
  let c := Proxy.code (Proxy.handler net req) in
  (c = 200 \/ c = 400 \/ c = 405 \/ c = 502 \/
   (c = 408 /\ exists targetUrl, Proxy.target_url req = Some targetUrl /\
      (net targetUrl = Proxy.Silent \/
       (exists message, net targetUrl = Proxy.Rejected "AbortError" message) \/
       (exists response message,
          net targetUrl = Proxy.Responded response /\
          (Proxy.text response = Proxy.Failed "AbortError" message \/
           Proxy.json response = Proxy.Failed "AbortError" message)))) \/
   (exists targetUrl response,
      Proxy.target_url req = Some targetUrl /\
      net targetUrl = Proxy.Responded response /\
      ok (Proxy.status response) = false /\ c = Proxy.status response))%Z.
Proof.
  cbv zeta. unfold Proxy.handler.
  assert (Hcaught : forall url name message,
            Proxy.code (Proxy.caught url name message) = 502%Z \/
            (Proxy.code (Proxy.caught url name message) = 408%Z /\ name = "AbortError"%string)).
  { intros url name message. unfold Proxy.caught.
    destruct (String.eqb_spec name "AbortError"); [by right | by left]. }
  destruct (String.eqb (Proxy.method req) "OPTIONS"); [by left|].
  destruct (negb (String.eqb (Proxy.method req) "GET")); [by right; right; left|].
  destruct (Proxy.target_url req) as [targetUrl|]; [|by right; left].
  destruct (String.eqb targetUrl ""); [by right; left|].
  destruct (net targetUrl) as [| name message | response] eqn:Hnet.
  - do 4 right. left. split; [done|]. exists targetUrl. split; [done | by left].
  - destruct (Hcaught targetUrl name message) as [H | [H ->]]; rewrite H.
    + by do 3 right; left.
    + do 4 right. left. split; [done|]. exists targetUrl. split; [done|].
      right. left. by exists message.
  - destruct (ok (Proxy.status response)) eqn:Hok; simpl.
    + destruct (_ && _).
      * destruct (Proxy.text response) as [t | name message] eqn:Ht; simpl;
          [by do 3 right; left|].
        destruct (Hcaught targetUrl name message) as [H | [H ->]]; rewrite H.
        -- by do 3 right; left.
        -- do 4 right. left. split; [done|]. exists targetUrl. split; [done|].
           right. right. exists response, message. split; [done | by left].
      * destruct (Proxy.json response) as [t | name message] eqn:Ht; simpl; [by left|].
        destruct (Hcaught targetUrl name message) as [H | [H ->]]; rewrite H.
        -- by do 3 right; left.
        -- do 4 right. left. split; [done|]. exists targetUrl. split; [done|].
           right. right. exists response, message. split; [done | by right].
    + destruct (Proxy.text response) as [t | name message] eqn:Ht; simpl.
      * do 5 right. by exists targetUrl, response.
      * destruct (Hcaught targetUrl name message) as [H | [H ->]]; rewrite H.
        -- by do 3 right; left.
        -- do 4 right. left. split; [done|]. exists targetUrl. split; [done|].
           right. right. exists response, message. split; [done | by left].
Qed.

(** ** Catalog listing endpoint *)

Lemma first_city_spec (t : string) (patterns : list (string * (string * string))) :
  (forall row, row ∈ patterns -> includes row.1 t = false) /\
    Listing.first_city t patterns =
      {| Listing.location := "Unknown Location"; Listing.countryCode := "" |}
  \/
  exists pre row post,
    patterns = pre ++ row :: post /\
    (forall r, r ∈ pre -> includes r.1 t = false) /\
    includes row.1 t = true /\
    Listing.first_city t patterns =
      {| Listing.location := row.2.1; Listing.countryCode := row.2.2 |}.
Proof.
  induction patterns as [|[pattern [city country]] rest IH]; simpl.
  - left. split; [|done]. intros row H. by apply not_elem_of_nil in H.
  - destruct (includes pattern t) eqn:Hhere.
    + right. exists [], (pattern, (city, country)), rest. repeat split; try done.
      intros r H. by apply not_elem_of_nil in H.
    + destruct IH as [[Hnone Heq] | (pre & row & post & -> & Hpre & Hrow & Heq)].
      * left. split; [|done]. intros row [->|H]%elem_of_cons; [done | by apply Hnone].
      * right. exists ((pattern, (city, country)) :: pre), row, post.
        repeat split; try done.
        intros r [->|H]%elem_of_cons; [done | by apply Hpre].
Qed.


(** X9.  Location inference.  The location is [Unknown Location], and the
    country code empty, exactly when none of the city names of the table
    occurs in the lower-cased [provider producer_url] text; otherwise it is
    the row of the first city name, in table order, that occurs. *)
Theorem location_first_match (feed : JValue) (t : string) (loc : Listing.Location) :
  Listing.search_text feed = Ret t ->
  Listing.extractLocationFromFeed feed = Ret loc ->
  (Listing.location loc = "Unknown Location"%string <->
     forall row, row ∈ Listing.cityPatterns -> ~ contains row.1 t) /\
  (Listing.countryCode loc = ""%string <->
     Listing.location loc = "Unknown Location"%string) /\
  (forall pre row post,
     Listing.cityPatterns = pre ++ row :: post ->
     contains row.1 t ->
     (forall r, r ∈ pre -> ~ contains r.1 t) ->
     loc = {| Listing.location := row.2.1; Listing.countryCode := row.2.2 |}).
Proof.
  intros Ht. unfold Listing.extractLocationFromFeed. rewrite Ht, bind_Ret.
  intros Hloc.
  assert (Hloc' : loc = Listing.first_city t Listing.cityPatterns) by congruence.
  clear Hloc. subst loc.
  assert (Htable : Forall (fun row : string * (string * string) =>
             row.2.1 ≠ "Unknown Location"%string /\ row.2.2 ≠ ""%string)
             Listing.cityPatterns).
  { unfold Listing.cityPatterns. repeat constructor; simpl; discriminate. }
  rewrite Forall_forall in Htable.
  destruct (first_city_spec t Listing.cityPatterns)
    as [[Hnone ->] | (pre & row & post & Heq & Hpre & Hrow & ->)]; simpl.
  - split; [|split; [done|]].
    + split; [|done]. intros _ row Hin Hc. apply includes_contains in Hc.
      rewrite (Hnone row Hin) in Hc. discriminate Hc.
    + intros pre row post Heq Hc _. apply includes_contains in Hc.
      rewrite Hnone in Hc; [discriminate Hc|]. rewrite Heq.
      apply elem_of_app. right. apply list_elem_of_here.
  - assert (Hin : row ∈ Listing.cityPatterns).
    { rewrite Heq. apply elem_of_app. right. apply list_elem_of_here. }
    destruct (Htable row Hin) as [Hcity Hcountry].
    split; [|split].
    + split; [done|]. intros Hno. exfalso. apply (Hno row Hin).
      by apply includes_contains.
    + split; intros H; congruence.
    + intros pre' row' post' Heq' Hc' Hpre'.
      assert (pre = pre' /\ row = row') as [-> ->]; [|done].
      rewrite Heq in Heq'. clear Heq Hin Htable Hcity Hcountry.
      revert pre' Heq' Hpre'. induction pre as [|r pre IH]; intros [|r' pre'] Heq' Hpre'.
      * by injection Heq' as -> _.
      * injection Heq' as <- _. exfalso. apply (Hpre' row (list_elem_of_here _ _)).
        by apply includes_contains.
      * injection Heq' as -> _. apply includes_contains in Hc'.
        rewrite (Hpre row' (list_elem_of_here _ _)) in Hc'. discriminate Hc'.
      * injection Heq' as -> Heq'. destruct (IH (fun x H => Hpre x (list_elem_of_further _ _ _ H))
                                              pre' Heq'
                                              (fun x H => Hpre' x (list_elem_of_further _ _ _ H)))
          as [-> ->]. done.
Qed.

Lemma location_first_match_witness :
  let t := "paris-oslo bikes https://bikes.example/london/gbfs.json"%string in
  let loc := {| Listing.location := "Oslo"; Listing.countryCode := "NO" |} in
  (Listing.location loc = "Unknown Location"%string <->
     forall row, row ∈ Listing.cityPatterns -> ~ contains row.1 t) /\
  (Listing.countryCode loc = ""%string <->
     Listing.location loc = "Unknown Location"%string) /\
  (forall pre row post,
     Listing.cityPatterns = pre ++ row :: post ->
     contains row.1 t ->
     (forall r, r ∈ pre -> ~ contains r.1 t) ->
     loc = {| Listing.location := row.2.1; Listing.countryCode := row.2.2 |}).
Proof.
  apply (location_first_match
    (catalog_record "mdb-9" "Paris-Oslo Bikes" "gbfs" "https://bikes.example/LONDON/gbfs.json")
    "paris-oslo bikes https://bikes.example/london/gbfs.json"
    {| Listing.location := "Oslo"; Listing.countryCode := "NO" |});
    reflexivity.
Defined.










(** ** Listing handler and its six-hour cache *)

(** The catalog that the call fetched and processed. *)
Lemma listing_miss_shape (fuel : nat) (env : option string)
    (exchange catalog : string -> FetchResult) (server : Listing.Server)
    (req : Listing.Request) (clock : Listing.Clock)
    (reply : Listing.Reply) (server' : Listing.Server) (sent : list Sent) :
  Listing.handler fuel env exchange catalog server req clock
    = Listing.Replied reply server' sent ->
  Listing.feedsCache server' = Listing.feedsCache server /\
  (Listing.code reply = 200%Z ->
   forall shown total lu hit,
     Listing.payload reply = Listing.Systems shown total lu hit -> hit = true) \/
  exists feeds systems,
    fetchAllGbfsFeeds fuel env exchange catalog (Listing.tokenManager server)
      (Listing.at_token clock) (Listing.at_refresh clock) "gbfs" =
      Some (Ret feeds, Listing.tokenManager server', sent) /\
    Listing.processFeeds feeds = Ret systems /\
    Listing.feedsCache server' =
      Some {| Listing.data := systems; Listing.timestamp := Listing.at_store clock |} /\
    reply = {| Listing.code := 200;
               Listing.payload :=
                 Listing.Systems
                   (Listing.apply_limit (parsed_limit (Listing.limit req)) systems)
                   (Z.of_nat (length (Listing.apply_limit
                                        (parsed_limit (Listing.limit req)) systems)))
                   (Listing.at_reply clock) false |}.
Proof.
  unfold Listing.handler.
  destruct (String.eqb (Listing.method req) "OPTIONS").
  { intros [= <- <- <-]. left. split; [done|]. intros _ ? ? ? ? [=]. }
  destruct (negb (String.eqb (Listing.method req) "GET")).
  { intros [= <- <- <-]. left. split; [done|]. intros [=]. }
  cbv zeta.
  destruct (if negb _ && _ then Listing.feedsCache server else None) as [cache|].
  { intros [= <- <- <-]. left. split; [done|]. by intros _ ? ? ? ? [= _ _ _ <-]. }
  destruct (fetchAllGbfsFeeds _ _ _ _ _ _ _ _) as [[[result tm'] sent']|]; [|discriminate].
  destruct result as [feeds | e | |]; try discriminate.
  - rewrite bind_Ret.
    destruct (Listing.processFeeds feeds) as [systems| e | |] eqn:Hp; try discriminate.
    + intros [= <- <- <-]. right. by exists feeds, systems.
    + intros [= <- <- <-]. left. split; [done|]. destruct e as [|m]; intros [=].
  - intros [= <- <- <-]. left. split; [done|]. destruct e as [|m]; intros [=].
Qed.

(** X11.  A listing that fails never costs the cached catalog: whenever the
    handler replies with anything but 200, or never replies because an
    upstream request stays unanswered, [feedsCache] is what it was, also
    under [force_refresh].  The cache changes only together with a 200 reply
    that is not a cache hit: then the catalog was fetched, the cache holds
    the complete list processed from it, stamped with the time of storing,
    and the reply carries that list trimmed by the request's limit. *)
Theorem listing_failure_keeps_catalog (fuel : nat) (env : option string)
    (exchange catalog : string -> FetchResult) (server : Listing.Server)
    (req : Listing.Request) (clock : Listing.Clock) :
  (forall reply server' sent,
     Listing.handler fuel env exchange catalog server req clock
       = Listing.Replied reply server' sent ->
     (Listing.code reply ≠ 200%Z -> Listing.feedsCache server' = Listing.feedsCache server) /\
     (Listing.feedsCache server' ≠ Listing.feedsCache server ->
        exists feeds systems,
          fetchAllGbfsFeeds fuel env exchange catalog (Listing.tokenManager server)
            (Listing.at_token clock) (Listing.at_refresh clock) "gbfs" =
            Some (Ret feeds, Listing.tokenManager server', sent) /\
          Listing.processFeeds feeds = Ret systems /\
          Listing.feedsCache server' =
            Some {| Listing.data := systems;
                    Listing.timestamp := Listing.at_store clock |} /\
          reply = {| Listing.code := 200;
                     Listing.payload :=
                       Listing.Systems
                         (Listing.apply_limit (parsed_limit (Listing.limit req)) systems)
                         (Z.of_nat (length (Listing.apply_limit
                                              (parsed_limit (Listing.limit req)) systems)))
                         (Listing.at_reply clock) false |})) /\
  (forall server' sent,
     Listing.handler fuel env exchange catalog server req clock
       = Listing.Hanging server' sent ->
     Listing.feedsCache server' = Listing.feedsCache server).
Proof.
  split.
  - intros reply server' sent Hrun.
    destruct (listing_miss_shape _ _ _ _ _ _ _ _ _ _ Hrun)
      as [[Hsame _] | (feeds & systems & Hfetch & Hp & Hc & ->)].
    + split; [done | intros H; contradiction].
    + split; [intros H; by destruct H|]. intros _. by exists feeds, systems.
  - unfold Listing.handler.
    destruct (String.eqb (Listing.method req) "OPTIONS"); [discriminate|].
    destruct (negb (String.eqb (Listing.method req) "GET")); [discriminate|].
    cbv zeta.
    destruct (if negb _ && _ then Listing.feedsCache server else None); [discriminate|].
    destruct (fetchAllGbfsFeeds _ _ _ _ _ _ _ _) as [[[result tm'] sent']|]; [|discriminate].
    destruct (result ≫= Listing.processFeeds); try discriminate.
    by intros server' sent [= <- _].
Qed.

Lemma first_listing :
  Listing.handler 1 (Some "refresh-credential"%string) token_endpoint small_catalog
                  fresh_server (listing_get None None) (steady_clock 1000) =
    Listing.Replied {| Listing.code := 200;
                       Listing.payload :=
                         Listing.Systems small_catalog_systems 2 1000 false |}
                    listed_server
                    [PostToken "refresh-credential";
                     GetFeeds (page_url "gbfs" 0)].
Proof. vm_compute. reflexivity. Qed.

Lemma listing_failure_keeps_catalog_witness :
  (exists reply server' sent,
     Listing.handler 1 None token_endpoint small_catalog cached_server
                     (listing_get (Some "true"%string) None) (steady_clock 5)
       = Listing.Replied reply server' sent /\
     Listing.code reply = 500%Z /\
     Listing.feedsCache server' = Listing.feedsCache cached_server) /\
  exists feeds,
    fetchAllGbfsFeeds 1 (Some "refresh-credential"%string) token_endpoint small_catalog
      (Listing.tokenManager fresh_server) 1000 1000 "gbfs" =
      Some (Ret feeds, Listing.tokenManager listed_server,
            [PostToken "refresh-credential"; GetFeeds (page_url "gbfs" 0)]) /\
    Listing.processFeeds feeds = Ret small_catalog_systems.
Proof.
  split.
  - exists (Listing.failure (Error "MOBILITY_DATABASE_REFRESH_TOKEN not configured")),
           cached_server, [].
    split; [reflexivity|]. split; [reflexivity|].
    apply (proj1 (listing_failure_keeps_catalog 1 None token_endpoint small_catalog
                    cached_server (listing_get (Some "true"%string) None) (steady_clock 5))
                 (Listing.failure (Error "MOBILITY_DATABASE_REFRESH_TOKEN not configured"))
                 cached_server [] eq_refl).
    discriminate.
  - destruct (proj2 (proj1 (listing_failure_keeps_catalog 1 (Some "refresh-credential"%string)
                              token_endpoint small_catalog fresh_server
                              (listing_get None None) (steady_clock 1000))
                           _ _ _ first_listing))
      as (feeds & systems & Hfetch & Hp & Hcache & _).
    + discriminate.
    + exists feeds. split; [exact Hfetch|].
      rewrite Hp. f_equal. by injection Hcache as <-.
Defined.

Lemma apply_limit_spec (lim : option Z) (systems : list Listing.System) :
  (forall n, lim = Some n -> (0 < n)%Z ->
     Listing.apply_limit lim systems = take (Z.to_nat n) systems /\
     length (Listing.apply_limit lim systems) = Nat.min (Z.to_nat n) (length systems)) /\
  (lim = None \/ (exists n, lim = Some n /\ (n <= 0)%Z) ->
     Listing.apply_limit lim systems = systems).
Proof.
  unfold Listing.apply_limit. split.
  - intros n -> Hn. destruct (Z.ltb_spec 0 n); [|lia]. split; [done|].
    apply length_take.
  - intros [-> | (n & -> & Hn)]; [done|]. by destruct (Z.ltb_spec 0 n); [lia|].
Qed.

(** X12.  After a listing that was fetched and stored, every GET without
    [force_refresh=true] whose cache check happens less than six hours after
    the storing is answered from the cache: the same complete list, trimmed
    by the request's own limit, [cache_hit] set, [last_updated] the time of
    storing; nothing is sent upstream, whatever the upstream or the
    credentials would do, and the server state stays as it is. *)
Theorem listing_served_from_cache (fuel : nat) (env : option string)
    (exchange catalog : string -> FetchResult) (server server1 : Listing.Server)
    (req : Listing.Request) (clock : Listing.Clock)
    (shown : list Listing.System) (total lu : Z) (sent : list Sent) :
  Listing.handler fuel env exchange catalog server req clock =
    Listing.Replied {| Listing.code := 200;
                       Listing.payload := Listing.Systems shown total lu false |}
                    server1 sent ->
  exists full,
    Listing.feedsCache server1 =
      Some {| Listing.data := full; Listing.timestamp := Listing.at_store clock |} /\
    shown = Listing.apply_limit (parsed_limit (Listing.limit req)) full /\
    forall fuel2 env2 exchange2 catalog2 force2 limit2 clock2,
      force2 ≠ Some "true"%string ->
      (Listing.at_check clock2 - Listing.at_store clock < six_hours)%Z ->
      Listing.handler fuel2 env2 exchange2 catalog2 server1
                      (listing_get force2 limit2) clock2 =
        Listing.Replied
          {| Listing.code := 200;
             Listing.payload :=
               Listing.Systems
                 (Listing.apply_limit (parsed_limit limit2) full)
                 (Z.of_nat (length (Listing.apply_limit (parsed_limit limit2) full)))
                 (Listing.at_store clock) true |}
          server1 [].
Proof.
  intros Hrun.
  assert (Hcache : exists full,
            Listing.feedsCache server1 =
              Some {| Listing.data := full; Listing.timestamp := Listing.at_store clock |} /\
            shown = Listing.apply_limit (parsed_limit (Listing.limit req)) full).
  { revert Hrun. unfold Listing.handler.
    destruct (String.eqb (Listing.method req) "OPTIONS"); [discriminate|].
    destruct (negb (String.eqb (Listing.method req) "GET")); [discriminate|].
    cbv zeta.
    destruct (if negb _ && _ then Listing.feedsCache server else None); [discriminate|].
    destruct (fetchAllGbfsFeeds _ _ _ _ _ _ _ _) as [[[result tm'] sent']|]; [|discriminate].
    destruct (result ≫= Listing.processFeeds) as [systems| e | |]; try discriminate.
    intros [= <- _ _ <- _]. by exists systems. }
  destruct Hcache as (full & Hcache & Hshown). exists full. split; [done|]. split; [done|].
  intros fuel2 env2 exchange2 catalog2 force2 limit2 clock2 Hforce Hfresh.
  unfold Listing.handler, listing_get. simpl.
  assert (Hf : match force2 with Some s => String.eqb s "true" | None => false end = false).
  { destruct force2 as [s|]; [|done]. apply String.eqb_neq. congruence. }
  rewrite Hf, Hcache. simpl.
  unfold six_hours in Hfresh. unfold Listing.CACHE_DURATION_HOURS.
  destruct (Z.ltb_spec (Listing.at_check clock2 - Listing.at_store clock) (6 * 60 * 60 * 1000));
    [|lia].
  reflexivity.
Qed.

Lemma listing_served_from_cache_witness :
  exists full,
    Listing.feedsCache listed_server =
      Some {| Listing.data := full; Listing.timestamp := 1000 |} /\
    small_catalog_systems = Listing.apply_limit (parsed_limit None) full /\
    forall fuel2 env2 exchange2 catalog2 force2 limit2 clock2,
      force2 ≠ Some "true"%string ->
      (Listing.at_check clock2 - 1000 < six_hours)%Z ->
      Listing.handler fuel2 env2 exchange2 catalog2 listed_server
                      (listing_get force2 limit2) clock2 =
        Listing.Replied
          {| Listing.code := 200;
             Listing.payload :=
               Listing.Systems
                 (Listing.apply_limit (parsed_limit limit2) full)
                 (Z.of_nat (length (Listing.apply_limit (parsed_limit limit2) full)))
                 1000 true |}
          listed_server [].
Proof.
  apply (listing_served_from_cache 1 (Some "refresh-credential"%string) token_endpoint
           small_catalog fresh_server listed_server (listing_get None None)
           (steady_clock 1000) small_catalog_systems 2 1000
           [PostToken "refresh-credential"; GetFeeds (page_url "gbfs" 0)]).
  vm_compute. reflexivity.
Defined.

(** X13.  The limit trims the reply, never the cache.  In every 200 reply
    [total_count] is the number of systems sent, and these are the first
    [n] of the complete list held in the cache afterwards when the [limit]
    parameter parses to a positive [n], all of them when it is absent,
    unparsable, zero or negative.  The list in the cache is the untrimmed
    one: on a cache hit the server state is left as it was, and otherwise
    the list is the one processed from the catalog just fetched. *)
Theorem listing_limit_trims_reply (fuel : nat) (env : option string)
    (exchange catalog : string -> FetchResult) (server server' : Listing.Server)
    (req : Listing.Request) (clock : Listing.Clock) (c : Z)
    (shown : list Listing.System) (total lu : Z) (hit : bool) (sent : list Sent) :
  Listing.handler fuel env exchange catalog server req clock =
    Listing.Replied {| Listing.code := c;
                       Listing.payload := Listing.Systems shown total lu hit |}
                    server' sent ->
  c = 200%Z /\ total = Z.of_nat (length shown) /\
  exists full ts,
    Listing.feedsCache server' = Some {| Listing.data := full; Listing.timestamp := ts |} /\
    (forall n, parsed_limit (Listing.limit req) = Some n -> (0 < n)%Z ->
       shown = take (Z.to_nat n) full /\
       length shown = Nat.min (Z.to_nat n) (length full)) /\
    (parsed_limit (Listing.limit req) = None \/
     (exists n, parsed_limit (Listing.limit req) = Some n /\ (n <= 0)%Z) ->
     shown = full) /\
    (hit = true -> server' = server /\ sent = []) /\
    (hit = false ->
     ts = Listing.at_store clock /\
     exists feeds,
       fetchAllGbfsFeeds fuel env exchange catalog (Listing.tokenManager server)
         (Listing.at_token clock) (Listing.at_refresh clock) "gbfs" =
         Some (Ret feeds, Listing.tokenManager server', sent) /\
       Listing.processFeeds feeds = Ret full).
Proof.
  unfold Listing.handler.
  destruct (String.eqb (Listing.method req) "OPTIONS"); [discriminate|].
  destruct (negb (String.eqb (Listing.method req) "GET")); [discriminate|].
  cbv zeta. fold (parsed_limit (Listing.limit req)).
  destruct (if negb _ && _ then Listing.feedsCache server else None) as [cache|] eqn:Hcached.
  - intros [= <- <- <- _ <- <- <-]. split; [done|]. split; [done|].
    destruct cache as [full ts]. exists full, ts.
    split; [by destruct (negb _ && _); [|discriminate Hcached]|].
    split; [apply apply_limit_spec|]. split; [apply apply_limit_spec|].
    split; [done | discriminate].
  - destruct (fetchAllGbfsFeeds _ _ _ _ _ _ _ _) as [[[result tm'] sent']|]; [|discriminate].
    destruct result as [feeds | e | |]; try discriminate. rewrite bind_Ret.
    destruct (Listing.processFeeds feeds) as [systems| e | |] eqn:Hp; try discriminate.
    intros [= <- <- <- _ <- <- <-]. split; [done|]. split; [done|].
    exists systems, (Listing.at_store clock). split; [done|].
    split; [apply apply_limit_spec|]. split; [apply apply_limit_spec|].
    split; [discriminate|]. intros _. split; [done|]. by exists feeds.
Qed.

Lemma listing_limit_trims_reply_witness :
  (200 = 200)%Z /\ 1%Z = Z.of_nat (length (take 1 small_catalog_systems)) /\
  exists full ts,
    Listing.feedsCache listed_server = Some {| Listing.data := full; Listing.timestamp := ts |} /\
    (forall n, parsed_limit (Some " 1 system"%string) = Some n -> (0 < n)%Z ->
       take 1 small_catalog_systems = take (Z.to_nat n) full /\
       length (take 1 small_catalog_systems) = Nat.min (Z.to_nat n) (length full)) /\
    (parsed_limit (Some " 1 system"%string) = None \/
     (exists n, parsed_limit (Some " 1 system"%string) = Some n /\ (n <= 0)%Z) ->
     take 1 small_catalog_systems = full) /\
    (true = true -> listed_server = listed_server /\ @nil Sent = []) /\
    (true = false ->
     ts = Listing.at_store (steady_clock 2000) /\
     exists feeds,
       fetchAllGbfsFeeds 0 None silent_net silent_net (Listing.tokenManager listed_server)
         (Listing.at_token (steady_clock 2000)) (Listing.at_refresh (steady_clock 2000))
         "gbfs" =
         Some (Ret feeds, Listing.tokenManager listed_server, []) /\
       Listing.processFeeds feeds = Ret full).
Proof.
  apply (listing_limit_trims_reply 0 None silent_net silent_net listed_server listed_server
           (listing_get None (Some " 1 system"%string)) (steady_clock 2000) 200
           (take 1 small_catalog_systems) 1 1000 true []).
  vm_compute. reflexivity.
Defined.

(** ** Search and grouping *)

Lemma set_order_elem_of (seen l : list string) (x : string) :
  x ∈ set_order seen l <-> x ∈ l /\ x ∉ seen.
Proof.
  revert seen. induction l as [|y l IH]; intros seen; simpl.
  - split; [by intros ?%not_elem_of_nil | by intros [?%not_elem_of_nil _]].
  - destruct (array_includes seen y) eqn:Hy.
    + apply array_includes_elem_of in Hy. rewrite IH, elem_of_cons.
      split; [intros [? ?]; by auto | intros [[->|?] ?]; by auto].
    + assert (Hy' : y ∉ seen).
      { intros H. apply array_includes_elem_of in H. congruence. }
      rewrite !elem_of_cons, IH, elem_of_cons. split.
      * intros [-> | [? ?]]; [by auto|]. split; [by auto|]. tauto.
      * intros [[->|?] ?]; [by left|].
        destruct (decide (x = y)) as [->|Hne]; [by left | right; tauto].
Qed.

Lemma set_order_NoDup (seen l : list string) : NoDup (set_order seen l).
Proof.
  revert seen. induction l as [|y l IH]; intros seen; simpl; [constructor|].
  destruct (array_includes seen y); [apply IH|].
  constructor; [|apply IH].
  rewrite set_order_elem_of, elem_of_cons. tauto.
Qed.

Lemma set_order_snoc (seen l : list string) (x : string) :
  set_order seen (l ++ [x]) =
    set_order seen l ++ (if array_includes seen x || array_includes l x then [] else [x]).
Proof.
  revert seen. induction l as [|y l IH]; intros seen; simpl.
  - rewrite orb_false_r. by destruct (array_includes seen x).
  - destruct (array_includes seen y) eqn:Hy.
    + rewrite IH. f_equal.
      destruct (String.eqb_spec x y) as [->|Hne]; simpl; [by rewrite Hy | done].
    + rewrite IH. simpl. f_equal. f_equal.
      by destruct (String.eqb x y), (array_includes seen x).
Qed.

Lemma map_get_None (key : string) (m : list (string * Systems.CitySystemGroup)) :
  Systems.map_get key m = None <-> key ∉ m.*1.
Proof.
  induction m as [|[k g] m IH]; simpl.
  - split; [intros _; apply not_elem_of_nil | done].
  - rewrite not_elem_of_cons. destruct (String.eqb_spec key k) as [->|Hne].
    + split; [done | intros [? _]; done].
    + rewrite IH. tauto.
Qed.

Lemma map_push_keys (key : string) (s : Systems.GBFSSystem)
    (m : list (string * Systems.CitySystemGroup)) :
  (Systems.map_push key s m).*1 = m.*1.
Proof.
  induction m as [|[k g] m IH]; [done|].
  simpl Systems.map_push. destruct (String.eqb key k); [done|].
  rewrite !fmap_cons. by rewrite IH.
Qed.

Lemma in_city_snoc (key : string) (seen : list Systems.GBFSSystem) (s : Systems.GBFSSystem) :
  in_city key (seen ++ [s]) =
    in_city key seen ++
      (if String.eqb (Text.toLowerCase (Systems.location s)) key then [s] else []).
Proof. unfold in_city. by rewrite List.filter_app. Qed.

Lemma in_city_nil_iff (key : string) (seen : list Systems.GBFSSystem) :
  key ∉ (Text.toLowerCase ∘ Systems.location <$> seen) -> in_city key seen = [].
Proof.
  induction seen as [|s seen IH]; simpl; [done|].
  rewrite not_elem_of_cons. intros [Hne Hrest].
  destruct (String.eqb_spec (Text.toLowerCase (Systems.location s)) key) as [Heq|_].
  - by destruct Hne.
  - by apply IH.
Qed.


Lemma group_ok_other (seen : list Systems.GBFSSystem) (s : Systems.GBFSSystem)
    (k : string) (g : Systems.CitySystemGroup) :
  Text.toLowerCase (Systems.location s) ≠ k ->
  group_ok seen (k, g) -> group_ok (seen ++ [s]) (k, g).
Proof.
  intros Hne (Hops & Hids & Hfirst). split; [|by split].
  cbn [fst snd] in *. rewrite in_city_snoc.
  destruct (String.eqb_spec (Text.toLowerCase (Systems.location s)) k); [done|].
  by rewrite app_nil_r.
Qed.

Lemma group_ok_push (seen : list Systems.GBFSSystem) (s : Systems.GBFSSystem)
    (k : string) (g : Systems.CitySystemGroup) :
  Text.toLowerCase (Systems.location s) = k ->
  group_ok seen (k, g) ->
  group_ok (seen ++ [s])
    (k, {| Systems.city := Systems.city g;
           Systems.groupCountryCode := Systems.groupCountryCode g;
           Systems.operators := Systems.operators g ++ [s];
           Systems.systemIds := Systems.systemIds g ++ [Systems.systemId s] |}).
Proof.
  intros Hkey (Hops & Hids & first & rest & Hfirst & Hcity & Hcc).
  unfold group_ok. cbn [fst snd Systems.operators Systems.systemIds Systems.city
                        Systems.groupCountryCode] in *.
  split; [|split].
  - rewrite in_city_snoc, Hkey, String.eqb_refl. by rewrite Hops.
  - by rewrite fmap_app, Hids.
  - exists first, (rest ++ [s]). by rewrite Hfirst.
Qed.

Lemma map_push_other (key : string) (s : Systems.GBFSSystem)
    (seen : list Systems.GBFSSystem) (m : list (string * Systems.CitySystemGroup)) :
  Text.toLowerCase (Systems.location s) = key ->
  key ∉ m.*1 ->
  Forall (group_ok seen) m ->
  Systems.map_push key s m = m /\ Forall (group_ok (seen ++ [s])) m.
Proof.
  intros Hkey. induction m as [|[k g] m IH]; [done|].
  rewrite fmap_cons, not_elem_of_cons. cbn [fst]. intros [Hne Hnot] Hall.
  apply Forall_cons in Hall as [Hg Hall].
  destruct (IH Hnot Hall) as [Hsame Hall'].
  simpl Systems.map_push. rewrite Hsame.
  destruct (String.eqb_spec key k) as [->|_]; [done|].
  split; [done|]. constructor; [|done].
  apply group_ok_other; [congruence | done].
Qed.

Lemma map_push_grouped (key : string) (s : Systems.GBFSSystem)
    (seen : list Systems.GBFSSystem) (m : list (string * Systems.CitySystemGroup)) :
  Text.toLowerCase (Systems.location s) = key ->
  NoDup m.*1 ->
  key ∈ m.*1 ->
  Forall (group_ok seen) m ->
  Forall (group_ok (seen ++ [s])) (Systems.map_push key s m).
Proof.
  intros Hkey. induction m as [|[k g] m IH]; [by intros _ ?%not_elem_of_nil|].
  rewrite fmap_cons. cbn [fst]. intros Hnd Hin Hall.
  apply NoDup_cons in Hnd as [Hk Hnd].
  apply Forall_cons in Hall as [Hg Hall].
  simpl Systems.map_push.
  destruct (String.eqb_spec key k) as [->|Hne].
  - constructor; [by apply group_ok_push|].
    by destruct (map_push_other k s seen m Hkey Hk Hall) as [_ H].
  - constructor; [apply group_ok_other; [congruence | done]|].
    apply IH; [done | | done]. apply elem_of_cons in Hin as [->|H]; done.
Qed.

Lemma map_push_app_notin (key : string) (s : Systems.GBFSSystem)
    (m m2 : list (string * Systems.CitySystemGroup)) :
  key ∉ m.*1 ->
  Systems.map_push key s (m ++ m2) = m ++ Systems.map_push key s m2.
Proof.
  induction m as [|[k g] m IH]; simpl; [done|].
  rewrite not_elem_of_cons. intros [Hne Hnot].
  destruct (String.eqb_spec key k) as [->|_]; [done|]. by rewrite IH.
Qed.

Lemma add_system_grouped (seen : list Systems.GBFSSystem) (s : Systems.GBFSSystem)
    (m : list (string * Systems.CitySystemGroup)) :
  grouped seen m -> grouped (seen ++ [s]) (Systems.add_system m s).
Proof.
  intros [Hkeys Hall]. unfold Systems.add_system. cbv zeta.
  set (key := Text.toLowerCase (Systems.location s)).
  assert (Hnd : NoDup m.*1) by (rewrite Hkeys; apply set_order_NoDup).
  assert (Hsnoc : set_order [] (Text.toLowerCase ∘ Systems.location <$> seen ++ [s]) =
            m.*1 ++ (if array_includes (Text.toLowerCase ∘ Systems.location <$> seen) key
                     then [] else [key])).
  { rewrite fmap_app. simpl. by rewrite set_order_snoc, Hkeys. }
  destruct (Systems.map_get key m) as [g|] eqn:Hget.
  - assert (Hin : key ∈ m.*1).
    { destruct (decide (key ∈ m.*1)) as [H|H]; [done|].
      apply map_get_None in H. congruence. }
    split.
    + rewrite map_push_keys, Hsnoc.
      rewrite Hkeys in Hin. apply set_order_elem_of in Hin as [Hin _].
      apply array_includes_elem_of in Hin. by rewrite Hin, app_nil_r.
    + by apply map_push_grouped.
  - apply map_get_None in Hget.
    assert (Hfresh : key ∉ (Text.toLowerCase ∘ Systems.location <$> seen)).
    { intros H. apply Hget. rewrite Hkeys. apply set_order_elem_of.
      split; [done | apply not_elem_of_nil]. }
    rewrite map_push_app_notin by done. simpl. rewrite String.eqb_refl.
    split.
    + rewrite fmap_app, Hsnoc. simpl.
      destruct (array_includes _ key) eqn:Hinc; [|done].
      apply array_includes_elem_of in Hinc. contradiction.
    + apply Forall_app. split.
      * by destruct (map_push_other key s seen m eq_refl Hget Hall) as [_ H].
      * constructor; [|done]. unfold group_ok.
        cbn [fst snd Systems.operators Systems.systemIds Systems.city
             Systems.groupCountryCode app].
        split; [|split].
        -- rewrite in_city_snoc. fold key. rewrite String.eqb_refl.
           by rewrite (in_city_nil_iff key seen Hfresh).
        -- done.
        -- by exists s, [].
Qed.

Lemma fold_add_system_grouped (systems seen : list Systems.GBFSSystem)
    (m : list (string * Systems.CitySystemGroup)) :
  grouped seen m -> grouped (seen ++ systems) (fold_left Systems.add_system systems m).
Proof.
  revert seen m. induction systems as [|s systems IH]; intros seen m Hm; simpl.
  - by rewrite app_nil_r.
  - rewrite (cons_middle s seen systems), app_assoc.
    apply IH. by apply add_system_grouped.
Qed.

(** X14.  [groupSystemsByCity] partitions the systems by lower-cased
    location.  The groups come in the order in which their cities first
    appear and no two groups share a lower-cased city; the operators of a
    group are exactly the systems of that city, in input order, and its ids
    are theirs; the group's display name and country code are those of its
    first operator; every system is in some group. *)
Theorem groupSystemsByCity_partition (systems : list Systems.GBFSSystem) :
  let groups := Systems.groupSystemsByCity systems in
  (Text.toLowerCase ∘ Systems.city <$> groups) =
    set_order [] (Text.toLowerCase ∘ Systems.location <$> systems) /\
  NoDup (Text.toLowerCase ∘ Systems.city <$> groups) /\
  Forall (fun g =>
            Systems.operators g = in_city (Text.toLowerCase (Systems.city g)) systems /\
            Systems.systemIds g = Systems.systemId <$> Systems.operators g /\
            exists first rest,
              Systems.operators g = first :: rest /\
              Systems.city g = Systems.location first /\
              Systems.groupCountryCode g = Systems.countryCode first) groups /\
  (forall s, s ∈ systems -> exists g, g ∈ groups /\ s ∈ Systems.operators g).
Proof.
  cbv zeta. unfold Systems.groupSystemsByCity.
  destruct systems as [|s0 systems]; [simpl|].
  { split; [done|]. split; [constructor|]. split; [constructor|].
    by intros s ?%not_elem_of_nil. }
  change (length (s0 :: systems) =? 0)%nat with false. cbv iota.
  generalize (s0 :: systems). clear s0 systems. intros all.
  assert (Hg : grouped all (fold_left Systems.add_system all [])).
  { apply (fold_add_system_grouped all [] []). split; [done | constructor]. }
  destruct Hg as [Hkeys Hall]. revert Hkeys Hall.
  generalize (fold_left Systems.add_system all []). intros m Hkeys Hall.
  assert (Hcity : Forall (fun entry : string * Systems.CitySystemGroup =>
                    Text.toLowerCase (Systems.city entry.2) = entry.1) m).
  { eapply Forall_impl; [exact Hall|]. intros [k g] (Hops & _ & first & rest & Hfirst & Hc & _).
    cbn [fst snd] in *. rewrite Hc.
    assert (Hin : first ∈ in_city k all) by (rewrite <- Hops, Hfirst; apply list_elem_of_here).
    unfold in_city in Hin. apply list_elem_of_In, List.filter_In in Hin as [_ Hin].
    by apply String.eqb_eq in Hin. }
  assert (Hkeys' : Text.toLowerCase ∘ Systems.city <$> m.*2 = m.*1).
  { clear -Hcity. induction Hcity as [|[k g] m Hk _ IH]; [done|].
    rewrite !fmap_cons. cbn [fst snd compose] in *. by rewrite Hk, IH. }
  split; [by rewrite Hkeys'|]. split; [rewrite Hkeys', Hkeys; apply set_order_NoDup|].
  split.
  - apply Forall_fmap. rewrite Forall_forall in Hall, Hcity. apply Forall_forall.
    intros [k g] Hin. simpl. destruct (Hall _ Hin) as (Hops & Hids & Hfirst).
    specialize (Hcity _ Hin). simpl in *. rewrite Hcity. by repeat split.
  - intros s Hs.
    assert (Hk : Text.toLowerCase (Systems.location s) ∈ m.*1).
    { rewrite Hkeys. apply set_order_elem_of. split; [|apply not_elem_of_nil].
      apply list_elem_of_fmap. by exists s. }
    apply list_elem_of_fmap in Hk as ([k g] & Hk & Hin). simpl in Hk.
    exists g. split; [apply list_elem_of_fmap; by exists (k, g)|].
    rewrite Forall_forall in Hall. destruct (Hall _ Hin) as (Hops & _). simpl in Hops.
    rewrite Hops. unfold in_city. apply list_elem_of_In, List.filter_In.
    split; [by apply list_elem_of_In | apply String.eqb_eq; done].
Qed.

(** ** System search  (src/utils/countryUtils.ts, 123-144) *)

Lemma append_assoc (s t u : string) : (s +:+ t) +:+ u = s +:+ (t +:+ u).
Proof.
  induction s as [|c s IH]; [done|]. rewrite !append_cons. by rewrite IH.
Qed.

Lemma toLowerCase_empty (s : string) :
  String.eqb (Text.toLowerCase s) "" = String.eqb s "".
Proof. by destruct s. Qed.

Lemma contains_trans (a b c : string) : contains a b -> contains b c -> contains a c.
Proof.
  intros (p1 & q1 & ->) (p2 & q2 & ->). exists (p2 +:+ p1), (q1 +:+ q2).
  by rewrite !append_assoc.
Qed.

Lemma filter_filter_impl {A : Type} (f g : A -> bool) (l : list A) :
  (forall x, f x = true -> g x = true) ->
  List.filter f (List.filter g l) = List.filter f l.
Proof.
  intros Himp. induction l as [|x l IH]; [done|]. simpl.
  destruct (g x) eqn:Hg; simpl.
  - by rewrite IH.
  - destruct (f x) eqn:Hf; [|done]. apply Himp in Hf. congruence.
Qed.

(** The search ignores the case of the query: two queries with the
    same lower-case form select the same systems, in the same order. *)
Theorem searchSystems_ignores_case (systems : list Systems.GBFSSystem) (q1 q2 : string) :
  Text.toLowerCase q1 = Text.toLowerCase q2 ->
  Systems.searchSystems systems q1 = Systems.searchSystems systems q2.
Proof.
  intros Heq. unfold Systems.searchSystems. cbv zeta.
  rewrite <- (toLowerCase_empty q1), <- (toLowerCase_empty q2), Heq.
  done.
Qed.

Lemma searchSystems_ignores_case_witness :
  Systems.searchSystems small_directory "OSLO" = Systems.searchSystems small_directory "oslo".
Proof. apply (searchSystems_ignores_case small_directory "OSLO" "oslo"). reflexivity. Defined.

(** X15.  Refining a query narrows the result: when the lower-case form of
    a non-empty query [q] occurs inside the lower-case form of [q'],
    searching the results of [q] for [q'] gives what searching all systems
    for [q'] gives.  With the empty query the search returns nothing,
    although every name includes the empty string. *)
Theorem searchSystems_narrows (systems : list Systems.GBFSSystem) (q q' : string) :
  q <> ""%string ->
  contains (Text.toLowerCase q) (Text.toLowerCase q') ->
  Systems.searchSystems (Systems.searchSystems systems q) q' =
    Systems.searchSystems systems q' /\
  Systems.searchSystems systems "" = [].
Proof.
  intros Hq Hlow. split; [|done].
  unfold Systems.searchSystems. cbv zeta.
  destruct (String.eqb_spec q' "") as [|_]; [done|].
  destruct (String.eqb_spec q "") as [|_]; [done|].
  apply filter_filter_impl. intros x.
  rewrite !orb_true_iff, !includes_contains.
  intros [H|H]; [left | right]; by apply (contains_trans _ _ _ Hlow).
Qed.

Lemma searchSystems_narrows_witness :
  Systems.searchSystems (Systems.searchSystems small_directory "OS") "oslo" =
    Systems.searchSystems small_directory "oslo" /\
  Systems.searchSystems small_directory "" = [].
Proof.
  apply (searchSystems_narrows small_directory "OS" "oslo"); [discriminate|].
  exists ""%string, "lo"%string. reflexivity.
Defined.

(** ** Search box keys  (src/app/analytics/index.ts, 637-671) *)

Local Open Scope Z_scope.

Lemma handleKeyDown_arrow (key : SearchBox.Key) (st : SearchBox.State) :
  let n := Z.of_nat (length (SearchBox.suggestions st)) in
  let i := SearchBox.activeIndex st in
  SearchBox.isDropdownOpen st = true ->
  0 < n ->
  SearchBox.handleKeyDown key st =
    match key with
    | SearchBox.ArrowDown => Ret (SearchBox.setActiveIndex (Z.rem (i + 1) n) st)
    | SearchBox.ArrowUp => Ret (SearchBox.setActiveIndex (Z.rem (i - 1 + n) n) st)
    | _ => SearchBox.handleKeyDown key st
    end.
Proof.
  intros n i Hopen Hn. destruct key; try reflexivity;
    unfold SearchBox.handleKeyDown; cbv zeta; fold n i; rewrite Hopen;
    by destruct (Z.eqb_spec n 0) as [|_]; [lia|].
Qed.

Lemma setActiveIndex_same (st : SearchBox.State) :
  SearchBox.setActiveIndex (SearchBox.activeIndex st) st = st.
Proof. by destruct st. Qed.

Lemma rem_down (i n : Z) :
  0 <= i < n -> Z.rem (i + 1) n = if i + 1 =? n then 0 else i + 1.
Proof.
  intros Hi. destruct (Z.eqb_spec (i + 1) n) as [Heq|Hne].
  - rewrite Heq. apply Z.rem_same. lia.
  - apply Z.rem_small. lia.
Qed.

Lemma rem_up (i n : Z) :
  0 <= i < n -> Z.rem (i - 1 + n) n = if i =? 0 then n - 1 else i - 1.
Proof.
  intros Hi. destruct (Z.eqb_spec i 0) as [Heq|Hne].
  - rewrite Z.rem_small by lia. lia.
  - replace (i - 1 + n) with ((i - 1) + 1 * n) by lia.
    rewrite Z.rem_add by (lia || nia). apply Z.rem_small. lia.
Qed.

Lemma arrow_in_range (key : SearchBox.Key) (st : SearchBox.State) :
  SearchBox.is_arrow key = true ->
  SearchBox.isDropdownOpen st = true ->
  SearchBox.suggestions st <> [] ->
  -1 <= SearchBox.activeIndex st < Z.of_nat (length (SearchBox.suggestions st)) ->
  exists i,
    SearchBox.handleKeyDown key st = Ret (SearchBox.setActiveIndex i st) /\
    0 <= i < Z.of_nat (length (SearchBox.suggestions st)).
Proof.
  intros Hkey Hopen Hne Hi.
  set (n := Z.of_nat (length (SearchBox.suggestions st))) in *.
  assert (Hn : 0 < n).
  { unfold n. destruct (SearchBox.suggestions st); [done | simpl; lia]. }
  rewrite (handleKeyDown_arrow key st Hopen Hn). fold n.
  destruct key; try discriminate; eexists; (split; [reflexivity|]).
  - pose proof (Z.rem_bound_pos (SearchBox.activeIndex st + 1) n). lia.
  - destruct (Z.eq_dec (SearchBox.activeIndex st) (-1)) as [->|Hm].
    + destruct (Z.eq_dec n 1) as [->|H1]; [done|].
      rewrite Z.rem_small by lia. lia.
    + pose proof (Z.rem_bound_pos (SearchBox.activeIndex st - 1 + n) n). lia.
Qed.

(** X16.  In an open list of [n > 0] suggestions with an item [i] selected,
    ArrowDown moves to [i + 1] and from the last item to the first, ArrowUp
    moves to [i - 1] and from the first item to the last, and each undoes
    the other; nothing else in the state changes. *)
Theorem arrow_keys_cycle (st : SearchBox.State) :
  let n := Z.of_nat (length (SearchBox.suggestions st)) in
  let i := SearchBox.activeIndex st in
  SearchBox.isDropdownOpen st = true ->
  0 <= i < n ->
  SearchBox.handleKeyDown SearchBox.ArrowDown st =
    Ret (SearchBox.setActiveIndex (if i + 1 =? n then 0 else i + 1) st) /\
  SearchBox.handleKeyDown SearchBox.ArrowUp st =
    Ret (SearchBox.setActiveIndex (if i =? 0 then n - 1 else i - 1) st) /\
  SearchBox.press [SearchBox.ArrowDown; SearchBox.ArrowUp] st = Ret st /\
  SearchBox.press [SearchBox.ArrowUp; SearchBox.ArrowDown] st = Ret st.
Proof.
  intros n i Hopen Hi.
  assert (Hn : 0 < n) by lia.
  pose proof (handleKeyDown_arrow SearchBox.ArrowDown st Hopen Hn) as Hdown.
  pose proof (handleKeyDown_arrow SearchBox.ArrowUp st Hopen Hn) as Hup.
  cbv zeta in Hdown, Hup. fold n i in Hdown, Hup.
  rewrite (rem_down i n Hi) in Hdown. rewrite (rem_up i n Hi) in Hup.
  split; [done|]. split; [done|].
  split; cbn [SearchBox.press]; [rewrite Hdown | rewrite Hup]; rewrite bind_Ret.
  - set (j := if i + 1 =? n then 0 else i + 1).
    assert (Hj : Z.rem (j - 1 + n) n = i).
    { unfold j. destruct (Z.eqb_spec (i + 1) n) as [Heq|Hne].
      - rewrite Z.rem_small by lia. lia.
      - rewrite rem_up by lia. destruct (Z.eqb_spec (i + 1) 0); lia. }
    rewrite (handleKeyDown_arrow SearchBox.ArrowUp (SearchBox.setActiveIndex j st) Hopen Hn).
    rewrite bind_Ret. f_equal. unfold SearchBox.setActiveIndex.
    cbn [SearchBox.suggestions SearchBox.isDropdownOpen
         SearchBox.activeIndex SearchBox.searchQuery SearchBox.navigated].
    fold n. rewrite Hj. unfold i. by destruct st.
  - set (j := if i =? 0 then n - 1 else i - 1).
    assert (Hj : Z.rem (j + 1) n = i).
    { unfold j. destruct (Z.eqb_spec i 0) as [Heq|Hne].
      - rewrite rem_down by lia. destruct (Z.eqb_spec (n - 1 + 1) n); lia.
      - rewrite rem_down by lia. destruct (Z.eqb_spec (i - 1 + 1) n); lia. }
    rewrite (handleKeyDown_arrow SearchBox.ArrowDown (SearchBox.setActiveIndex j st) Hopen Hn).
    rewrite bind_Ret. f_equal. unfold SearchBox.setActiveIndex.
    cbn [SearchBox.suggestions SearchBox.isDropdownOpen
         SearchBox.activeIndex SearchBox.searchQuery SearchBox.navigated].
    fold n. rewrite Hj. unfold i. by destruct st.
Qed.

Lemma arrow_keys_cycle_witness :
  SearchBox.handleKeyDown SearchBox.ArrowDown (open_box 1) =
    Ret (SearchBox.setActiveIndex 0 (open_box 1)) /\
  SearchBox.handleKeyDown SearchBox.ArrowUp (open_box 1) =
    Ret (SearchBox.setActiveIndex 0 (open_box 1)) /\
  SearchBox.press [SearchBox.ArrowDown; SearchBox.ArrowUp] (open_box 1) = Ret (open_box 1) /\
  SearchBox.press [SearchBox.ArrowUp; SearchBox.ArrowDown] (open_box 1) = Ret (open_box 1).
Proof. apply (arrow_keys_cycle (open_box 1)); [reflexivity | vm_compute; by split]. Defined.

Lemma enter_clicks (st : SearchBox.State) :
  SearchBox.isDropdownOpen st = true ->
  SearchBox.suggestions st <> [] ->
  -1 <= SearchBox.activeIndex st < Z.of_nat (length (SearchBox.suggestions st)) ->
  exists cityGroup,
    cityGroup ∈ SearchBox.suggestions st /\
    SearchBox.handleKeyDown SearchBox.Enter st =
      Ret (SearchBox.handleSuggestionClick cityGroup st).
Proof.
  intros Hopen Hne Hi. unfold SearchBox.handleKeyDown. cbv zeta.
  set (n := Z.of_nat (length (SearchBox.suggestions st))) in *.
  assert (Hn : 0 < n).
  { unfold n. destruct (SearchBox.suggestions st); [done | simpl; lia]. }
  rewrite Hopen. destruct (Z.eqb_spec n 0) as [|_]; [lia|]. simpl negb. cbv iota.
  simpl orb. cbv iota. unfold SearchBox.click_at.
  destruct (Z.leb_spec 0 (SearchBox.activeIndex st)) as [Hpos|Hneg].
  - destruct (Z.ltb_spec (SearchBox.activeIndex st) n) as [_|]; [|lia]. simpl andb. cbv iota.
    destruct (lookup_lt_is_Some_2 (SearchBox.suggestions st)
                (Z.to_nat (SearchBox.activeIndex st))) as [g Hg]; [unfold n in *; lia|].
    rewrite Hg. exists g. split; [by eapply list_elem_of_lookup_2 | done].
  - simpl andb. cbv iota. destruct (Z.ltb_spec 0 n) as [_|]; [|lia].
    destruct (SearchBox.suggestions st) as [|g rest] eqn:Hs; [done|].
    exists g. split; [apply list_elem_of_here | done].
Qed.

(** X17.  In an open list of suggestions, any run of arrow keys followed by
    Enter selects one of the listed cities: the handler neither fails nor
    falls through to the search button's path, the query becomes that city's
    name, the list is cleared and closed, and exactly one navigation, to
    that city, is added.  This holds whether an item was selected at the
    start or none ([activeIndex = -1]). *)
Theorem enter_selects_listed_city (keys : list SearchBox.Key) (st : SearchBox.State) :
  SearchBox.isDropdownOpen st = true ->
  SearchBox.suggestions st <> [] ->
  -1 <= SearchBox.activeIndex st < Z.of_nat (length (SearchBox.suggestions st)) ->
  forallb SearchBox.is_arrow keys = true ->
  exists cityGroup st',
    cityGroup ∈ SearchBox.suggestions st /\
    SearchBox.press (keys ++ [SearchBox.Enter]) st = Ret st' /\
    SearchBox.searchQuery st' = Systems.city cityGroup /\
    SearchBox.navigated st' = SearchBox.navigated st ++ [Systems.city cityGroup] /\
    SearchBox.suggestions st' = [] /\
    SearchBox.isDropdownOpen st' = false.
Proof.
  revert st. induction keys as [|key keys IH]; intros st Hopen Hne Hi Hkeys.
  - destruct (enter_clicks st Hopen Hne Hi) as (g & Hg & Hclick).
    exists g, (SearchBox.handleSuggestionClick g st).
    split; [done|]. split; [|done].
    cbn [app SearchBox.press]. by rewrite Hclick, bind_Ret.
  - cbn [forallb] in Hkeys. apply andb_true_iff in Hkeys as [Hkey Hkeys].
    destruct (arrow_in_range key st Hkey Hopen Hne Hi) as (i & Hstep & Hrange).
    destruct (IH (SearchBox.setActiveIndex i st) Hopen Hne) as (g & st' & Hg & Hrun & Hrest);
      [cbn [SearchBox.setActiveIndex SearchBox.activeIndex SearchBox.suggestions]; lia
      | done |].
    exists g, st'. split; [done|]. split; [|done].
    rewrite <- app_comm_cons. cbn [SearchBox.press]. by rewrite Hstep, bind_Ret.
Qed.

Lemma enter_selects_listed_city_witness :
  exists cityGroup st',
    cityGroup ∈ SearchBox.suggestions (open_box (-1)) /\
    SearchBox.press ([SearchBox.ArrowUp; SearchBox.ArrowDown] ++ [SearchBox.Enter])
      (open_box (-1)) = Ret st' /\
    SearchBox.searchQuery st' = Systems.city cityGroup /\
    SearchBox.navigated st' =
      SearchBox.navigated (open_box (-1)) ++ [Systems.city cityGroup] /\
    SearchBox.suggestions st' = [] /\
    SearchBox.isDropdownOpen st' = false.
Proof.
  apply (enter_selects_listed_city [SearchBox.ArrowUp; SearchBox.ArrowDown] (open_box (-1)));
    [reflexivity | discriminate | vm_compute; split; [discriminate | reflexivity]
    | reflexivity].
Defined.

Local Close Scope Z_scope.

(** ** Suggestions  (src/app/analytics/index.ts, 252-267) *)

Lemma groups_members (systems : list Systems.GBFSSystem) :
  Forall (fun g => Systems.operators g <> []) (Systems.groupSystemsByCity systems) /\
  forall s, s ∈ systems <->
            exists g, g ∈ Systems.groupSystemsByCity systems /\ s ∈ Systems.operators g.
Proof.
  unfold Systems.groupSystemsByCity.
  destruct systems as [|s0 systems].
  { simpl. split; [constructor|]. intros s. split; [by intros ?%not_elem_of_nil|].
    by intros (g & ?%not_elem_of_nil & _). }
  change (length (s0 :: systems) =? 0)%nat with false. cbv iota.
  generalize (s0 :: systems). clear s0 systems. intros all.
  assert (Hg : grouped all (fold_left Systems.add_system all [])).
  { apply (fold_add_system_grouped all [] []). split; [done | constructor]. }
  destruct Hg as [Hkeys Hall]. revert Hkeys Hall.
  generalize (fold_left Systems.add_system all []). intros m Hkeys Hall.
  rewrite Forall_forall in Hall. split.
  - apply Forall_fmap, Forall_forall. intros [k g] Hin.
    destruct (Hall _ Hin) as (_ & _ & first & rest & Hfirst & _).
    cbn [snd compose] in *. by rewrite Hfirst.
  - intros s. split.
    + intros Hs.
      assert (Hk : Text.toLowerCase (Systems.location s) ∈ m.*1).
      { rewrite Hkeys. apply set_order_elem_of. split; [|apply not_elem_of_nil].
        apply list_elem_of_fmap. by exists s. }
      apply list_elem_of_fmap in Hk as ([k g] & Hk & Hin). cbn [fst] in Hk.
      exists g. split; [apply list_elem_of_fmap; by exists (k, g)|].
      destruct (Hall _ Hin) as (Hops & _). cbn [fst snd] in Hops.
      rewrite Hops. unfold in_city. apply list_elem_of_In, List.filter_In.
      split; [by apply list_elem_of_In | by apply String.eqb_eq].
    + intros (g & Hg & Hs). apply list_elem_of_fmap in Hg as ([k g'] & -> & Hin).
      destruct (Hall _ Hin) as (Hops & _). cbn [fst snd] in *.
      rewrite Hops in Hs. unfold in_city in Hs.
      apply list_elem_of_In, List.filter_In in Hs as [Hs _]. by apply list_elem_of_In.
Qed.

Lemma searchSystems_matches (systems : list Systems.GBFSSystem) (query : string)
    (s : Systems.GBFSSystem) :
  query <> ""%string ->
  s ∈ Systems.searchSystems systems query <-> s ∈ systems /\ matches query s.
Proof.
  intros Hq. unfold Systems.searchSystems. cbv zeta.
  destruct (String.eqb_spec query "") as [|_]; [done|].
  rewrite !list_elem_of_In, List.filter_In, orb_true_iff, !includes_contains.
  reflexivity.
Qed.

(** X18.  A search with a query of two or more characters suggests city
    groups made of matching systems only, none of them empty, and every
    matching system appears in some group.  The first suggestion is selected
    when there is one; otherwise no item is ([activeIndex = -1]). *)
Theorem suggestions_match_query (query : string) (systems : list Systems.GBFSSystem)
    (st : SearchBox.State) :
  (1 < String.length query)%nat ->
  let st' := SearchBox.debouncedSearch query systems st in
  Forall (fun g => Systems.operators g <> [] /\
                   forall s, s ∈ Systems.operators g -> s ∈ systems /\ matches query s)
         (SearchBox.suggestions st') /\
  (forall s, s ∈ systems -> matches query s ->
             exists g, g ∈ SearchBox.suggestions st' /\ s ∈ Systems.operators g) /\
  SearchBox.activeIndex st' = (if SearchBox.suggestions st' is [] then -1 else 0)%Z /\
  SearchBox.isDropdownOpen st' = SearchBox.isDropdownOpen st.
Proof.
  intros Hlen. assert (Hq : query <> ""%string) by (intros ->; simpl in Hlen; lia).
  cbv zeta. unfold SearchBox.debouncedSearch. cbv zeta.
  apply Nat.ltb_lt in Hlen. rewrite Hlen.
  cbn [SearchBox.suggestions SearchBox.activeIndex SearchBox.isDropdownOpen].
  destruct (groups_members (Systems.searchSystems systems query)) as [Hne Hmem].
  split; [|split; [|split]].
  - rewrite Forall_forall in Hne. apply Forall_forall. intros g Hg.
    split; [by apply Hne|]. intros s Hs.
    apply (searchSystems_matches systems query s Hq), Hmem. by exists g.
  - intros s Hs Hm. apply Hmem, searchSystems_matches; done.
  - by destruct (Systems.groupSystemsByCity _).
  - done.
Qed.

Lemma suggestions_match_query_witness :
  let st' := SearchBox.debouncedSearch "os" small_directory idle_box in
  Forall (fun g => Systems.operators g <> [] /\
                   forall s, s ∈ Systems.operators g ->
                             s ∈ small_directory /\ matches "os" s)
         (SearchBox.suggestions st') /\
  (forall s, s ∈ small_directory -> matches "os" s ->
             exists g, g ∈ SearchBox.suggestions st' /\ s ∈ Systems.operators g) /\
  SearchBox.activeIndex st' = (if SearchBox.suggestions st' is [] then -1 else 0)%Z /\
  SearchBox.isDropdownOpen st' = SearchBox.isDropdownOpen idle_box.
Proof. apply (suggestions_match_query "os" small_directory idle_box). simpl. lia. Defined.

(** ** Queue names  (src/app/analytics/index.ts, 420-437 and 512-515) *)

Lemma prefix_cons (a b : ascii) (s1 s2 : string) :
  String.prefix (String a s1) (String b s2) =
    if ascii_dec a b then String.prefix s1 s2 else false.
Proof. reflexivity. Qed.

Lemma prefix_empty (s : string) : String.prefix "" s = true.
Proof. by destruct s. Qed.

Lemma prefix_sep (c d : ascii) (r : string) :
  String.prefix "::" (String c (String d r)) = Ascii.eqb c ":" && Ascii.eqb d ":".
Proof.
  rewrite !prefix_cons, prefix_empty.
  destruct (Ascii.eqb_spec c ":") as [->|Hc], (Ascii.eqb_spec d ":") as [->|Hd];
    repeat (destruct (ascii_dec _ _)); try done; congruence.
Qed.

Lemma append_nil_r (s : string) : s +:+ "" = s.
Proof. induction s as [|c s IH]; [done|]. by rewrite append_cons, IH. Qed.

Lemma split_colons_first (s cur rest : string) :
  includes "::" (s +:+ ":") = false ->
  Phases.split_colons cur (s +:+ "::" +:+ rest) =
    (cur +:+ s) :: Phases.split_colons "" rest.
Proof.
  revert cur. induction s as [|c s IH]; intros cur Hs.
  - by rewrite append_nil, append_nil_r.
  - rewrite append_cons, includes_cons in Hs. apply orb_false_iff in Hs as [Hp Hs].
    rewrite append_cons. specialize (IH (cur +:+ String c "") Hs).
    rewrite append_assoc in IH. change (String c "" +:+ s) with (String c s) in IH.
    destruct s as [|d s].
    + change (String c ("" +:+ "::" +:+ rest)) with (String c (String ":" (String ":" rest))).
      cbn [Phases.split_colons].
      change (String c ("" +:+ ":")) with (String c (String ":" "")) in Hp.
      rewrite prefix_sep in Hp. rewrite Ascii.eqb_refl, andb_true_r in *. rewrite Hp.
      exact IH.
    + rewrite !append_cons in *. rewrite prefix_sep in Hp.
      cbn [Phases.split_colons]. rewrite Hp. exact IH.
Qed.

Lemma split_colons_none (s cur : string) :
  includes "::" s = false -> Phases.split_colons cur s = [cur +:+ s].
Proof.
  revert cur. induction s as [|c s IH]; intros cur Hs.
  - by rewrite append_nil_r.
  - rewrite includes_cons in Hs. apply orb_false_iff in Hs as [Hp Hs].
    specialize (IH (cur +:+ String c "") Hs).
    rewrite append_assoc in IH. change (String c "" +:+ s) with (String c s) in IH.
    destruct s as [|d s]; cbn [Phases.split_colons]; [done|].
    rewrite prefix_sep in Hp. by rewrite Hp.
Qed.

Lemma split_colons_head (s cur : string) :
  exists p tail,
    Phases.split_colons cur s = (cur +:+ p) :: tail /\
    (s = p \/ (includes "::" (p +:+ ":") = false /\ exists rest, s = p +:+ "::" +:+ rest)).
Proof.
  revert cur. induction s as [|c s IH]; intros cur.
  - exists ""%string, []. split; [by rewrite append_nil_r | by left].
  - destruct (IH (cur +:+ String c "")) as (p & tail & Hsplit & Hp).
    rewrite append_assoc in Hsplit. change (String c "" +:+ p) with (String c p) in Hsplit.
    destruct s as [|d s].
    + exists (String c p), tail. split; [done|]. left.
      destruct Hp as [<-|(_ & rest & Hrest)]; [done|].
      destruct p; discriminate Hrest.
    + cbn [Phases.split_colons].
      destruct (Ascii.eqb c ":" && Ascii.eqb d ":") eqn:Hsep.
      * apply andb_true_iff in Hsep as [->%Ascii.eqb_eq ->%Ascii.eqb_eq].
        exists ""%string, (Phases.split_colons "" s). split; [by rewrite append_nil_r|].
        right. split; [done|]. by exists s.
      * exists (String c p), tail. split; [done|].
        destruct Hp as [<-|(Hno & rest & Hrest)]; [by left|]. right.
        split; [|exists rest; by rewrite append_cons, <- Hrest].
        rewrite append_cons, includes_cons, Hno, orb_false_r.
        destruct p as [|e p].
        -- rewrite append_nil in Hrest. injection Hrest as -> _.
           change (String c ("" +:+ ":")) with (String c (String ":" "")).
           by rewrite prefix_sep.
        -- rewrite append_cons in Hrest. injection Hrest as -> _.
           rewrite append_cons. by rewrite prefix_sep.
Qed.

(** X19.  A result is attributed to the operator it was queued for exactly
    when the operator's id neither contains [::] nor ends in a colon: for a
    feed type without [::], splitting the queue name
    [`${systemId}::${feedType}`] gives back the id and the type if and only
    if [::] does not occur in the id followed by a colon. *)
Theorem queue_name_round_trip (systemId feedType : string) :
  no_separator feedType ->
  Phases.split_name (Phases.queue_name systemId feedType) = (systemId, Some feedType) <->
  no_separator (systemId +:+ ":").
Proof.
  unfold no_separator, Phases.queue_name. intros Hty. split.
  - unfold Phases.split_name.
    destruct (split_colons_head (systemId +:+ "::" +:+ feedType) "")
      as (p & tail & Hsplit & Hp).
    rewrite Hsplit, append_nil. intros Heq.
    assert (p = systemId) as -> by (destruct tail as [|? ?]; congruence).
    destruct Hp as [Hp|[Hno _]]; [|done].
    apply (f_equal String.length) in Hp. rewrite append_length in Hp. simpl in Hp. lia.
  - intros Hsid. unfold Phases.split_name.
    rewrite split_colons_first by done. by rewrite split_colons_none by done.
Qed.

Lemma queue_name_round_trip_witness :
  Phases.split_name (Phases.queue_name "oslo:bysykkel" "station_status") =
    ("oslo:bysykkel"%string, Some "station_status"%string) <->
  no_separator ("oslo:bysykkel" +:+ ":").
Proof. apply (queue_name_round_trip "oslo:bysykkel" "station_status"). reflexivity. Defined.

(** ** Re-queueing after re-classification
       (src/app/analytics/index.ts, 469-507) *)

Lemma prefix_append (p x : string) : String.prefix p (p +:+ x) = true.
Proof. apply prefix_app. by exists x. Qed.

Lemma status_feed_own (systemId : string) (feeds : gmap string string)
    (t : Classification.OperatorType) :
  List.filter (Phases.own systemId) (Pipeline.status_feed systemId feeds t) =
    Pipeline.status_feed systemId feeds t /\
  List.filter (fun feed => negb (Phases.own systemId feed))
              (Pipeline.status_feed systemId feeds t) = [] /\
  (length (Pipeline.status_feed systemId feeds t) <= 1)%nat.
Proof.
  assert (Hown : forall ty u,
            Phases.own systemId {| FeedFetch.name := systemId +:+ "::" +:+ ty;
                                   FeedFetch.url := u |} = true).
  { intros ty u. unfold Phases.own. cbn [FeedFetch.name].
    rewrite <- append_assoc. apply prefix_append. }
  unfold Pipeline.status_feed.
  destruct t; repeat (destruct (Pipeline.truthy_url _ _)); cbn [List.filter length];
    rewrite ?(Hown "station_status"%string), ?(Hown "vehicle_status"%string),
            ?(Hown "free_bike_status"%string); cbn [negb]; repeat split; lia.
Qed.

Lemma drop_first_filter (systemId : string) (queue : list FeedFetch.GBFSFeed) :
  List.filter (Phases.own systemId) (Pipeline.drop_first (systemId +:+ "::") queue) =
    tail (List.filter (Phases.own systemId) queue) /\
  List.filter (fun feed => negb (Phases.own systemId feed))
              (Pipeline.drop_first (systemId +:+ "::") queue) =
    List.filter (fun feed => negb (Phases.own systemId feed)) queue.
Proof.
  induction queue as [|feed queue [IH1 IH2]]; [done|].
  cbn [Pipeline.drop_first List.filter].
  change (String.prefix (systemId +:+ "::") (FeedFetch.name feed))
    with (Phases.own systemId feed).
  destruct (Phases.own systemId feed) eqn:Hp; cbn [negb tail List.filter];
    rewrite ?Hp; cbn [negb]; [done|].
  split; [exact IH1 | by rewrite IH2].
Qed.

(** X20.  Re-classification keeps the queue of status feeds in step with
    the operator's type.  If, before the step, the feeds queued under the
    operator's id are those of its current type, then afterwards they are
    those of its new type, and the feeds queued for the other operators are
    the same, in the same order.  In particular a station-based operator
    that turns free-floating without publishing a vehicle feed is left with
    no status feed at all. *)
Theorem reclassify_requeues (data data' : Pipeline.OperatorData)
    (queue queue' : list FeedFetch.GBFSFeed)
    (old : Classification.OperatorType) (feeds : gmap string string) :
  Pipeline.systemId data <> ""%string ->
  Pipeline.operatorType data = Some old ->
  Pipeline.feedsFromDiscovery data = Some feeds ->
  List.filter (Phases.own (Pipeline.systemId data)) queue =
    Pipeline.status_feed (Pipeline.systemId data) feeds old ->
  Pipeline.reclassify data queue = Ret (data', queue') ->
  exists new,
    Pipeline.operatorType data' = Some new /\
    List.filter (Phases.own (Pipeline.systemId data)) queue' =
      Pipeline.status_feed (Pipeline.systemId data) feeds new /\
    List.filter (fun feed => negb (Phases.own (Pipeline.systemId data) feed)) queue' =
      List.filter (fun feed => negb (Phases.own (Pipeline.systemId data) feed)) queue.
Proof.
  intros Hsid Htype Hfeeds Hinv. unfold Pipeline.reclassify. rewrite Htype, Hfeeds.
  destruct (truthy (Pipeline.vehicleTypesRaw data));
    [|intros [= <- <-]; by exists old].
  destruct (Classification.classifyOperatorType _ _ _) as [new| | |]; try discriminate.
  rewrite bind_Ret.
  destruct (decide (new = old)) as [->|Hne]; [intros [= <- <-]; by exists old|].
  destruct (String.eqb_spec (Pipeline.systemId data) "") as [|_]; [done|].
  intros [= <- <-]. exists new. split; [done|].
  destruct (drop_first_filter (Pipeline.systemId data) queue) as [Hd1 Hd2].
  destruct (status_feed_own (Pipeline.systemId data) feeds new) as (Hs1 & Hs2 & _).
  destruct (status_feed_own (Pipeline.systemId data) feeds old) as (_ & _ & Hlen).
  rewrite !List.filter_app, Hd1, Hd2, Hs1, Hs2, Hinv, app_nil_r. split; [|done].
  by destruct (Pipeline.status_feed _ feeds old) as [|? [|? ?]]; [| |simpl in Hlen; lia].
Qed.

Lemma reclassify_requeues_witness :
  exists new,
    Pipeline.operatorType
      {| Pipeline.systemId := "hybrid"; Pipeline.operatorName := "Hybrid";
         Pipeline.operatorType := Some free_floating;
         Pipeline.feedsFromDiscovery := Some hybrid_feeds;
         Pipeline.vehicleTypesRaw := scooter_evidence |} = Some new /\
    List.filter (Phases.own "hybrid")
      [{| FeedFetch.name := "other::vehicle_status";
          FeedFetch.url := "https://other.example/vehicle_status.json" |};
       {| FeedFetch.name := "hybrid::vehicle_status";
          FeedFetch.url := "https://op.example/vehicle_status.json" |}] =
      Pipeline.status_feed "hybrid" hybrid_feeds new /\
    List.filter (fun feed => negb (Phases.own "hybrid" feed))
      [{| FeedFetch.name := "other::vehicle_status";
          FeedFetch.url := "https://other.example/vehicle_status.json" |};
       {| FeedFetch.name := "hybrid::vehicle_status";
          FeedFetch.url := "https://op.example/vehicle_status.json" |}] =
      List.filter (fun feed => negb (Phases.own "hybrid" feed)) station_queue.
Proof.
  apply (reclassify_requeues hybrid_operator _ station_queue _ station_based hybrid_feeds);
    [discriminate | reflexivity | reflexivity | reflexivity | by vm_compute].
Defined.

(** ** Form factor and scooter override
       (src/app/analytics/index.ts, 458-466; gbfsClassification.ts, 56-68) *)

Lemma is_scooter_type_of (vt ff : JValue) :
  get vt "form_factor" = Ret ff ->
  Classification.is_scooter_type vt =
    if truthy ff then Classification.form_factor_includes ff "scooter" else Ret false.
Proof. intros Hget. unfold Classification.is_scooter_type. by rewrite Hget, bind_Ret. Qed.

Lemma form_factors_some (l mapped : list JValue) (b : bool) :
  Listing.js_map (fun vt => get vt "form_factor") l = Ret mapped ->
  js_some (fun ff => Classification.form_factor_includes ff "scooter")
          (List.filter truthy mapped) = Ret b ->
  js_some Classification.is_scooter_type l = Ret b.
Proof.
  revert mapped. induction l as [|vt l IH]; intros mapped.
  - intros [= <-]. done.
  - cbn [Listing.js_map js_some].
    destruct (get vt "form_factor") as [ff| | |] eqn:Hget; try discriminate.
    rewrite bind_Ret, (is_scooter_type_of vt ff Hget).
    destruct (Listing.js_map _ l) as [mapped'| | |]; try discriminate.
    rewrite bind_Ret. intros [= <-]. cbn [List.filter].
    destruct (truthy ff).
    + cbn [js_some].
      destruct (Classification.form_factor_includes ff "scooter") as [[|]| | |];
        try discriminate; rewrite !bind_Ret; [done|].
      by apply IH.
    + rewrite bind_Ret. by apply IH.
Qed.

(** X21.  The form factor shown for an operator and the scooter override
    read the same [vehicle_types] document the same way: whenever the
    pipeline's reading of it completes, the form factor it assigns is
    [scooter] exactly when the override of the classification fires, and an
    operator with the form factor [scooter] and at least one discovered feed
    is classified free-floating. *)
Theorem form_factor_agrees_with_override (feedContent : JValue) (shown : option string) :
  Phases.primary_form_factor feedContent = Ret shown ->
  Classification.scooter_override feedContent =
    Ret (bool_decide (shown = Some "scooter"%string)) /\
  forall (feeds : gmap string string) (operatorName : string),
    shown = Some "scooter"%string ->
    record_keys feeds <> [] ->
    Classification.classifyOperatorType feeds operatorName feedContent =
      Ret Classification.free_floating.
Proof.
  intros Hshown.
  assert (Hover : Classification.scooter_override feedContent =
                    Ret (bool_decide (shown = Some "scooter"%string))).
  { revert Hshown. unfold Phases.primary_form_factor, Classification.scooter_override.
    destruct (get feedContent "vehicle_types") as [vehicleTypes| | |] eqn:Hget;
      try discriminate.
    rewrite !bind_Ret.
    destruct (truthy feedContent) eqn:Htruthy.
    - destruct vehicleTypes as [| |b|n|s|l|props]; cbn [truthy];
        try (intros [= <-]; by repeat case_match).
      destruct (Listing.js_map _ l) as [mapped| | |] eqn:Hmap; try discriminate.
      rewrite bind_Ret. cbv zeta.
      destruct (js_some (fun ff => Classification.form_factor_includes ff "scooter")
                        (List.filter truthy mapped)) as [scooter| | |] eqn:Hsome;
        try discriminate.
      rewrite bind_Ret. rewrite (form_factors_some l mapped scooter Hmap Hsome).
      destruct scooter; [by intros [= <-]|].
      clear Hsome.
      destruct (js_some _ _) as [[|]| | |]; simpl; try discriminate; by intros [= <-].
    - destruct feedContent as [| |[|]|n|s| |]; try discriminate;
        cbn [get] in Hget.
      + injection Hget as <-. by intros [= <-].
      + injection Hget as <-. by intros [= <-].
      + destruct s; [|discriminate]. cbn in Hget. injection Hget as <-. by intros [= <-]. }
  split; [done|]. intros feeds operatorName -> Hkeys.
  unfold Classification.classifyOperatorType.
  destruct (record_keys feeds) eqn:Hk; [done|]. cbn [length Nat.eqb].
  by rewrite Hover, bind_Ret.
Qed.

Lemma form_factor_agrees_with_override_witness :
  Classification.scooter_override scooter_evidence =
    Ret (bool_decide (Some "scooter"%string = Some "scooter"%string)) /\
  forall (feeds : gmap string string) (operatorName : string),
    Some "scooter"%string = Some "scooter"%string ->
    record_keys feeds <> [] ->
    Classification.classifyOperatorType feeds operatorName scooter_evidence =
      Ret Classification.free_floating.
Proof. apply (form_factor_agrees_with_override scooter_evidence). by vm_compute. Defined.

(** ** Invariants of the two status parsers
       (src/app/analytics/index.ts, 114-138 and 142-201) *)

Lemma js_filter_length {A : Type} (f : A -> outcome bool) (l kept : list A) :
  js_filter f l = Ret kept -> (length kept <= length l)%nat.
Proof.
  revert kept. induction l as [|x l IH]; intros kept; cbn [js_filter].
  - intros [= <-]. done.
  - destruct (f x) as [b| | |]; try discriminate. rewrite bind_Ret.
    destruct (js_filter f l) as [kept'| | |]; try discriminate. rewrite bind_Ret.
    intros [= <-]. specialize (IH kept' eq_refl). destruct b; simpl; lia.
Qed.

(** X22.  Whenever [countFreeFloatingVehicles] returns counts, the number of
    available vehicles lies between 0 and the total, and the counts are the
    same whatever form factor and operator name are passed: the count is
    never restricted to the operator's primary form factor. *)
Theorem vehicle_counts_bounded (parsedFeed : Normalizer.ParsedFeed)
    (primaryFormFactor : JValue) (operatorName : string) (counts : Normalizer.VehicleCounts) :
  Normalizer.countFreeFloatingVehicles parsedFeed primaryFormFactor operatorName =
    Ret (Some counts) ->
  (0 <= Normalizer.available counts <= Normalizer.total counts)%Z /\
  forall otherFormFactor otherName,
    Normalizer.countFreeFloatingVehicles parsedFeed otherFormFactor otherName =
      Ret (Some counts).
Proof.
  intros Hcount. split; [|intros; exact Hcount].
  revert Hcount. unfold Normalizer.countFreeFloatingVehicles.
  destruct (negb (truthy (Normalizer.data parsedFeed))); [discriminate|].
  destruct (get (Normalizer.data parsedFeed) "vehicles") as [vs| | |]; try discriminate.
  rewrite bind_Ret.
  assert (Hchosen : forall vehicles,
            (availableVehicles ← js_filter Normalizer.is_available vehicles;
             Ret (Some {| Normalizer.total := Z.of_nat (length vehicles);
                          Normalizer.available := Z.of_nat (length availableVehicles) |}))
              = Ret (Some counts) ->
            (0 <= Normalizer.available counts <= Normalizer.total counts)%Z).
  { intros vehicles.
    destruct (js_filter Normalizer.is_available vehicles) as [kept| | |] eqn:Hkept;
      try discriminate.
    rewrite bind_Ret. intros [= <-]. apply js_filter_length in Hkept.
    cbn [Normalizer.available Normalizer.total]. lia. }
  destruct (as_array vs) as [l|].
  - rewrite bind_Ret. cbv zeta. apply Hchosen.
  - destruct (get (Normalizer.data parsedFeed) "bikes") as [bs| | |]; try discriminate.
    rewrite !bind_Ret. destruct (as_array bs) as [l|]; [|discriminate].
    cbv zeta. apply Hchosen.
Qed.

Lemma vehicle_counts_bounded_witness :
  (0 <= 1 <= 3)%Z /\
  forall otherFormFactor otherName,
    Normalizer.countFreeFloatingVehicles vehicles_example otherFormFactor otherName =
      Ret (Some {| Normalizer.total := 3; Normalizer.available := 1 |}).
Proof.
  apply (vehicle_counts_bounded vehicles_example (JStr "scooter") "Operator"
           {| Normalizer.total := 3; Normalizer.available := 1 |}).
  reflexivity.
Defined.

Lemma field_of (v r : JValue) (k : string) : get v k = Ret r -> field v k = r.
Proof. intros H. unfold field. by rewrite H. Qed.

Lemma set_add_length (v : JValue) (members : list JValue) :
  (length members <= length (Normalizer.set_add v members) <= length members + 1)%nat /\
  (1 <= length (Normalizer.set_add v members))%nat.
Proof.
  unfold Normalizer.set_add.
  destruct (existsb (Normalizer.same_value_zero v) members) eqn:Hex.
  - split; [lia|]. destruct members; [discriminate | simpl; lia].
  - rewrite length_app. simpl. lia.
Qed.

Lemma plus_Ret (a b c : Z) : Normalizer.plus a b = Ret c -> c = (a + b)%Z.
Proof.
  unfold Normalizer.plus.
  destruct (Normalizer.safe a && Normalizer.safe b && Normalizer.safe (a + b));
    [by intros [= <-] | discriminate].
Qed.

Lemma add_number_Ret (a c : Z) (v : JValue) :
  Normalizer.add_number a v = Ret c -> c = (a + number_or_zero v)%Z.
Proof.
  unfold Normalizer.add_number, number_or_zero.
  destruct v; try (intros [= <-]; lia). apply plus_Ret.
Qed.

Lemma bind_Ret_inv {A B : Type} (m : outcome A) (f : A -> outcome B) (b : B) :
  m ≫= f = Ret b -> exists a, m = Ret a /\ f a = Ret b.
Proof. destruct m as [a| | |]; try discriminate. intros H. by exists a. Qed.

Lemma visit_station_step (acc acc' : Normalizer.Acc) (station : JValue) :
  Normalizer.visit_station acc station = Ret acc' ->
  (Normalizer.totalBikesTotal acc' - Normalizer.totalBikesAvailable acc' =
     Normalizer.totalBikesTotal acc - Normalizer.totalBikesAvailable acc
       + disabled_at station)%Z /\
  (Normalizer.totalDocksAvailable acc' =
     Normalizer.totalDocksAvailable acc + docks_at station)%Z /\
  (length (Normalizer.stationIds acc) <= length (Normalizer.stationIds acc')
     <= length (Normalizer.stationIds acc) + 1)%nat /\
  (1 <= length (Normalizer.stationIds acc'))%nat.
Proof.
  unfold Normalizer.visit_station, disabled_at, docks_at.
  intros H.
  apply bind_Ret_inv in H as (sid & _ & H). cbv zeta in H.
  apply bind_Ret_inv in H as (vta & _ & H).
  apply bind_Ret_inv in H as (bikes & _ & H).
  apply bind_Ret_inv in H as (available & Havailable%plus_Ret & H).
  apply bind_Ret_inv in H as (nbd & Hnbd%field_of & H).
  apply bind_Ret_inv in H as (nvd & Hnvd%field_of & H).
  apply bind_Ret_inv in H as (with_bikes & Hwith%add_number_Ret & H).
  apply bind_Ret_inv in H as (at_station & Hat%add_number_Ret & H).
  apply bind_Ret_inv in H as (total & Htotal%plus_Ret & H).
  apply bind_Ret_inv in H as (nda & Hnda%field_of & H).
  apply bind_Ret_inv in H as (docks & Hdocks%add_number_Ret & H).
  injection H as <-. rewrite Hnbd, Hnvd, Hnda.
  cbn [Normalizer.totalBikesTotal Normalizer.totalBikesAvailable
       Normalizer.totalDocksAvailable Normalizer.stationIds].
  pose proof (set_add_length sid (Normalizer.stationIds acc)). repeat split; lia.
Qed.

Lemma visit_stations_fold (stations : list JValue) (acc acc' : Normalizer.Acc) :
  js_fold Normalizer.visit_station stations acc = Ret acc' ->
  (Normalizer.totalBikesTotal acc' - Normalizer.totalBikesAvailable acc' =
     Normalizer.totalBikesTotal acc - Normalizer.totalBikesAvailable acc
       + disabled_sum stations)%Z /\
  (Normalizer.totalDocksAvailable acc' =
     Normalizer.totalDocksAvailable acc + docks_sum stations)%Z /\
  (length (Normalizer.stationIds acc) <= length (Normalizer.stationIds acc')
     <= length (Normalizer.stationIds acc) + length stations)%nat /\
  (stations <> [] -> 1 <= length (Normalizer.stationIds acc'))%nat.
Proof.
  revert acc. induction stations as [|station stations IH]; intros acc; cbn [js_fold].
  - intros [= <-]. simpl. repeat split; try lia. done.
  - destruct (Normalizer.visit_station acc station) as [acc1| | |] eqn:Hstep;
      try discriminate.
    rewrite bind_Ret. intros Hrest.
    destruct (visit_station_step _ _ _ Hstep) as (H1 & H2 & H3 & H4).
    destruct (IH _ Hrest) as (I1 & I2 & I3 & I4).
    cbn [disabled_sum docks_sum fold_right length].
    fold (disabled_sum stations). fold (docks_sum stations).
    repeat split; try lia.
Qed.

(** X23.  Whenever [parseStationStatusFeed] returns totals for a list of
    stations and every sum it forms is exact (the counters are integers and
    no sum leaves the range up to 2^53), the total bike count is the
    available count plus the disabled counts published under
    [num_bikes_disabled] and under [num_vehicles_disabled], both added when
    a station carries both; the dock count is the sum of the numeric
    [num_docks_available]; the station count is at most the number of
    stations and at least one when there is a station; and the [error]
    field is always [null]. *)
Theorem station_totals_invariant (parsedFeed : Normalizer.ParsedFeed)
    (operatorName : string) (totals : Normalizer.StationTotals) :
  Normalizer.parseStationStatusFeed parsedFeed operatorName = Ret (Some totals) ->
  exists stations,
    get (Normalizer.data parsedFeed) "stations" = Ret (JArr stations) /\
    (Normalizer.bikesTotal totals =
       Normalizer.bikesAvailable totals + disabled_sum stations)%Z /\
    Normalizer.docksAvailable totals = docks_sum stations /\
    (Normalizer.stationCount totals <= Z.of_nat (length stations))%Z /\
    (stations <> [] -> 1 <= Normalizer.stationCount totals)%Z /\
    Normalizer.error totals = None.
Proof.
  unfold Normalizer.parseStationStatusFeed.
  destruct (negb (truthy (Normalizer.data parsedFeed))); [discriminate|].
  destruct (get (Normalizer.data parsedFeed) "stations") as [stations| | |];
    try discriminate.
  rewrite bind_Ret. destruct stations as [| | | | |l|]; try discriminate.
  destruct (js_fold Normalizer.visit_station l _) as [acc| | |] eqn:Hfold;
    try discriminate.
  rewrite bind_Ret. intros [= <-]. exists l.
  destruct (visit_stations_fold _ _ _ Hfold) as (H1 & H2 & H3 & H4).
  cbn [Normalizer.totalBikesTotal Normalizer.totalBikesAvailable
       Normalizer.totalDocksAvailable Normalizer.stationIds length] in *.
  cbn [Normalizer.bikesTotal Normalizer.bikesAvailable Normalizer.docksAvailable
       Normalizer.stationCount Normalizer.error].
  unfold Normalizer.set_size.
  repeat split; try lia. intros Hne. specialize (H4 Hne). lia.
Qed.

Lemma station_totals_invariant_witness :
  exists stations,
    get (Normalizer.data both_disabled_names) "stations" = Ret (JArr stations) /\
    (9 = 5 + disabled_sum stations)%Z /\
    7%Z = docks_sum stations /\
    (1 <= Z.of_nat (length stations))%Z /\
    (stations <> [] -> 1 <= 1)%Z /\
    @None string = None.
Proof.
  apply (station_totals_invariant both_disabled_names "Operator"
           {| Normalizer.bikesAvailable := 5; Normalizer.bikesTotal := 9;
              Normalizer.docksAvailable := 7; Normalizer.stationCount := 1;
              Normalizer.error := None |}).
  reflexivity.
Defined.

(** ** City page  (src/app/analytics/index.ts, 317-369) *)

Lemma groups_by_key (systems : list Systems.GBFSSystem) :
  Forall (fun g => Systems.operators g =
                     in_city (Text.toLowerCase (Systems.city g)) systems /\
                   Systems.operators g <> [])
         (Systems.groupSystemsByCity systems) /\
  (Text.toLowerCase ∘ Systems.city <$> Systems.groupSystemsByCity systems) =
    set_order [] (Text.toLowerCase ∘ Systems.location <$> systems).
Proof.
  unfold Systems.groupSystemsByCity.
  destruct systems as [|s0 systems]; [split; [constructor | done]|].
  change (length (s0 :: systems) =? 0)%nat with false. cbv iota.
  generalize (s0 :: systems). clear s0 systems. intros all.
  assert (Hg : grouped all (fold_left Systems.add_system all [])).
  { apply (fold_add_system_grouped all [] []). split; [done | constructor]. }
  destruct Hg as [Hkeys Hall]. revert Hkeys Hall.
  generalize (fold_left Systems.add_system all []). intros m Hkeys Hall.
  assert (Hcity : Forall (fun entry : string * Systems.CitySystemGroup =>
                    Text.toLowerCase (Systems.city entry.2) = entry.1) m).
  { eapply Forall_impl; [exact Hall|].
    intros [k g] (Hops & _ & first & rest & Hfirst & Hc & _).
    cbn [fst snd] in *. rewrite Hc.
    assert (Hin : first ∈ in_city k all) by (rewrite <- Hops, Hfirst; apply list_elem_of_here).
    unfold in_city in Hin. apply list_elem_of_In, List.filter_In in Hin as [_ Hin].
    by apply String.eqb_eq in Hin. }
  split.
  - apply Forall_fmap. rewrite Forall_forall in Hall, Hcity. apply Forall_forall.
    intros [k g] Hin. destruct (Hall _ Hin) as (Hops & _ & first & rest & Hfirst & _).
    specialize (Hcity _ Hin). cbn [fst snd compose] in *. rewrite Hcity.
    split; [done | by rewrite Hfirst].
  - rewrite <- Hkeys. clear -Hcity. induction Hcity as [|[k g] m Hk _ IH]; [done|].
    rewrite !fmap_cons. cbn [fst snd compose] in *. by rewrite Hk, IH.
Qed.

Lemma in_city_elem_of (key : string) (systems : list Systems.GBFSSystem)
    (s : Systems.GBFSSystem) :
  s ∈ in_city key systems <-> s ∈ systems /\ Text.toLowerCase (Systems.location s) = key.
Proof.
  unfold in_city. rewrite !list_elem_of_In, List.filter_In, String.eqb_eq. done.
Qed.

Lemma city_resolves_aux (cityParam : string) (allSystems : list Systems.GBFSSystem) :
  allSystems <> [] ->
  cityParam <> ""%string ->
  match CityPage.resolve (Some cityParam) allSystems with
  | CityPage.Resolved cityGroup =>
      Systems.operators cityGroup = in_city (Text.toLowerCase cityParam) allSystems /\
      Systems.operators cityGroup <> [] /\
      Text.toLowerCase (Systems.city cityGroup) = Text.toLowerCase cityParam
  | CityPage.NoMatch => in_city (Text.toLowerCase cityParam) allSystems = []
  | _ => False
  end.
Proof.
  intros Hsys Hcity.
  unfold CityPage.resolve.
  destruct (String.eqb_spec cityParam "") as [|_]; [done|].
  destruct allSystems as [|s0 rest]; [done|].
  change (length (s0 :: rest) =? 0)%nat with false. cbv iota zeta.
  generalize dependent (s0 :: rest). intros all _.
  destruct (groups_by_key all) as [Hgroups Hkeys].
  destruct (List.find _ _) as [g|] eqn:Hfind.
  - apply List.find_some in Hfind as [Hin Heq]. apply String.eqb_eq in Heq.
    rewrite Forall_forall in Hgroups.
    destruct (Hgroups g) as [Hops Hne]; [by apply list_elem_of_In|].
    by rewrite <- Heq.
  - apply in_city_nil_iff. intros Hkey.
    assert (Hk : Text.toLowerCase cityParam ∈
                   (Text.toLowerCase ∘ Systems.city <$> Systems.groupSystemsByCity all)).
    { rewrite Hkeys. apply set_order_elem_of. split; [done | apply not_elem_of_nil]. }
    apply list_elem_of_fmap in Hk as (g & Hg & Hin).
    apply list_elem_of_In in Hin.
    pose proof (List.find_none _ _ Hfind g Hin) as Hno. cbn beta in Hno.
    apply String.eqb_neq in Hno. cbn [compose] in Hg. congruence.
Qed.

(** X24.  The city page shows a group exactly when some loaded system lies
    in the city named by [?city], case ignored, and the group then holds
    every system of that city, in catalog order.  An absent or empty
    parameter clears the page, whatever is loaded. *)
Theorem city_page_resolution (cityParam : string) (allSystems : list Systems.GBFSSystem) :
  allSystems <> [] ->
  cityParam <> ""%string ->
  match CityPage.resolve (Some cityParam) allSystems with
  | CityPage.Resolved cityGroup =>
      Systems.operators cityGroup = in_city (Text.toLowerCase cityParam) allSystems /\
      Systems.operators cityGroup <> [] /\
      Text.toLowerCase (Systems.city cityGroup) = Text.toLowerCase cityParam
  | CityPage.NoMatch => in_city (Text.toLowerCase cityParam) allSystems = []
  | _ => False
  end /\
  CityPage.resolve None allSystems = CityPage.Cleared /\
  CityPage.resolve (Some ""%string) allSystems = CityPage.Cleared.
Proof.
  intros Hsys Hcity. split; [by apply city_resolves_aux | done].
Qed.

Lemma city_page_resolution_witness :
  match CityPage.resolve (Some "oslo"%string) small_directory with
  | CityPage.Resolved cityGroup =>
      Systems.operators cityGroup = in_city (Text.toLowerCase "oslo") small_directory /\
      Systems.operators cityGroup <> [] /\
      Text.toLowerCase (Systems.city cityGroup) = Text.toLowerCase "oslo"
  | CityPage.NoMatch => in_city (Text.toLowerCase "oslo") small_directory = []
  | _ => False
  end /\
  CityPage.resolve None small_directory = CityPage.Cleared /\
  CityPage.resolve (Some ""%string) small_directory = CityPage.Cleared.
Proof. apply (city_page_resolution "oslo" small_directory); discriminate. Defined.

(** X25.  A suggestion always leads somewhere: for a suggested city group
    with a non-empty city name, the page reached with that name as [?city]
    resolves against the loaded systems, and the group it shows holds every
    operator of the suggestion, together with the city's operators that the
    query did not match. *)
Theorem suggestion_resolves (query : string) (allSystems : list Systems.GBFSSystem)
    (suggestion : Systems.CitySystemGroup) :
  suggestion ∈ Systems.groupSystemsByCity (Systems.searchSystems allSystems query) ->
  Systems.city suggestion <> ""%string ->
  exists cityGroup,
    CityPage.resolve (Some (Systems.city suggestion)) allSystems =
      CityPage.Resolved cityGroup /\
    Systems.operators cityGroup =
      in_city (Text.toLowerCase (Systems.city suggestion)) allSystems /\
    forall s, s ∈ Systems.operators suggestion -> s ∈ Systems.operators cityGroup.
Proof.
  intros Hin Hcity.
  destruct (groups_by_key (Systems.searchSystems allSystems query)) as [Hgroups _].
  rewrite Forall_forall in Hgroups. destruct (Hgroups _ Hin) as [Hops Hne].
  assert (Hsub : forall s, s ∈ Systems.operators suggestion ->
            s ∈ in_city (Text.toLowerCase (Systems.city suggestion)) allSystems).
  { intros s Hs. rewrite Hops in Hs. apply in_city_elem_of in Hs as [Hs Hkey].
    apply in_city_elem_of. split; [|done].
    unfold Systems.searchSystems in Hs. destruct (String.eqb query ""); [by apply not_elem_of_nil in Hs|].
    apply list_elem_of_In, List.filter_In in Hs as [Hs _]. by apply list_elem_of_In. }
  assert (Hsys : allSystems <> []).
  { destruct (Systems.operators suggestion) as [|s ops] eqn:Hs; [done|].
    specialize (Hsub s (list_elem_of_here _ _)).
    apply in_city_elem_of in Hsub as [Hsub _]. intros ->. by apply not_elem_of_nil in Hsub. }
  pose proof (city_resolves_aux (Systems.city suggestion) allSystems Hsys Hcity) as Hres.
  destruct (CityPage.resolve _ _) as [| |g|]; try done.
  - exists g. destruct Hres as (Hg & _). split; [done|]. split; [done|].
    intros s Hs. rewrite Hg. by apply Hsub.
  - destruct (Systems.operators suggestion) as [|s ops] eqn:Hs; [done|].
    specialize (Hsub s (list_elem_of_here _ _)). rewrite Hres in Hsub.
    by apply not_elem_of_nil in Hsub.
Qed.

Lemma suggestion_resolves_witness :
  exists cityGroup,
    CityPage.resolve (Some (Systems.city voi_suggestion)) small_directory =
      CityPage.Resolved cityGroup /\
    Systems.operators cityGroup =
      in_city (Text.toLowerCase (Systems.city voi_suggestion)) small_directory /\
    forall s, s ∈ Systems.operators voi_suggestion -> s ∈ Systems.operators cityGroup.
Proof.
  apply (suggestion_resolves "voi" small_directory voi_suggestion);
    [vm_compute; apply list_elem_of_here | discriminate].
Defined.

(** ** Number formatting  (src/app/analytics/index.ts, 246-249) *)

Lemma is_digit_word (c : ascii) : Cards.is_digit c = true -> Cards.is_word c = true.
Proof. intros H. unfold Cards.is_word. cbv zeta. by rewrite H. Qed.

Lemma length_three (s : string) :
  String.length s = 3 -> exists x y z, s = String x (String y (String z "")).
Proof.
  destruct s as [|x [|y [|z [|w s]]]]; try discriminate. intros _. by exists x, y, z.
Qed.

Lemma groups_follow_app (n : nat) (r abc : string) :
  (String.length r <= n)%nat ->
  r <> ""%string ->
  digits_only r = true -> digits_only abc = true -> String.length abc = 3 ->
  Cards.groups_follow (r +:+ abc) = Cards.groups_follow r.
Proof.
  intros Hn Hr Hdr Hd Hlen. destruct (length_three abc Hlen) as (x & y & z & ->).
  cbn [digits_only] in Hd. apply andb_true_iff in Hd as [Hx Hd].
  apply andb_true_iff in Hd as [Hy Hd]. apply andb_true_iff in Hd as [Hz _].
  revert r Hn Hr Hdr. induction n as [n IH] using lt_wf_ind. intros r Hn Hr Hdr.
  destruct r as [|a [|b [|c r']]]; [done| | |].
  - cbn [digits_only] in Hdr. apply andb_true_iff in Hdr as [Ha _].
    rewrite append_cons, append_nil. cbn [Cards.groups_follow Cards.starts_with_digit].
    rewrite Hz. cbn [negb orb]. by rewrite !andb_false_r.
  - rewrite !append_cons, append_nil. cbn [Cards.groups_follow Cards.starts_with_digit].
    rewrite Hy. cbn [negb orb]. by rewrite !andb_false_r.
  - cbn [digits_only] in Hdr. apply andb_true_iff in Hdr as [Ha Hdr].
    apply andb_true_iff in Hdr as [Hb Hdr]. apply andb_true_iff in Hdr as [Hc Hdr].
    rewrite !append_cons. cbn [Cards.groups_follow]. rewrite Ha, Hb, Hc. cbn [andb].
    destruct r' as [|d r''].
    + rewrite append_nil. cbn [Cards.groups_follow Cards.starts_with_digit].
      rewrite Hx, Hy, Hz. reflexivity.
    + assert (Hd' : Cards.is_digit d = true).
      { cbn [digits_only] in Hdr. by apply andb_true_iff in Hdr as [? _]. }
      rewrite append_cons. cbn [Cards.starts_with_digit]. rewrite Hd'. cbn [negb orb].
      rewrite <- append_cons.
      apply (IH (String.length (String d r''))); [simpl in *; lia | done | done | done].
Qed.

Lemma replace_from_cons (prev : option ascii) (c : ascii) (s : string) :
  Cards.replace_from prev (String c s) =
    (if Cards.not_boundary prev (String c s) && Cards.groups_follow (String c s)
     then " " else "")%string +:+ String c (Cards.replace_from (Some c) s).
Proof. reflexivity. Qed.

Lemma replace_from_last (d : ascii) (abc : string) :
  Cards.is_digit d = true -> digits_only abc = true -> String.length abc = 3 ->
  Cards.replace_from (Some d) abc = " " +:+ abc.
Proof.
  intros Hd Habc Hlen. destruct (length_three abc Hlen) as (x & y & z & ->).
  cbn [digits_only] in Habc. apply andb_true_iff in Habc as [Hx Habc].
  apply andb_true_iff in Habc as [Hy Habc]. apply andb_true_iff in Habc as [Hz _].
  rewrite !replace_from_cons.
  cbn [Cards.groups_follow Cards.starts_with_digit Cards.not_boundary Cards.replace_from].
  unfold Cards.not_boundary.
  rewrite Hx, Hy, Hz, (is_digit_word d Hd), (is_digit_word x Hx), !andb_false_r.
  reflexivity.
Qed.

Lemma replace_from_app (ds abc : string) (prev : option ascii) :
  ds <> ""%string ->
  digits_only ds = true -> digits_only abc = true -> String.length abc = 3 ->
  Cards.replace_from prev (ds +:+ abc) = Cards.replace_from prev ds +:+ " " +:+ abc.
Proof.
  intros Hne Hds Habc Hlen. revert prev Hne Hds.
  induction ds as [|d ds IH]; intros prev Hne Hds; [done|].
  cbn [digits_only] in Hds. apply andb_true_iff in Hds as [Hd Hds].
  rewrite append_cons, !replace_from_cons.
  rewrite <- append_cons.
  rewrite (groups_follow_app (String.length (String d ds)) (String d ds) abc);
    [|done|done|by cbn [digits_only]; rewrite Hd, Hds|done|done].
  rewrite append_cons.
  change (Cards.not_boundary prev (String d (ds +:+ abc)))
    with (Cards.not_boundary prev (String d ds)).
  rewrite append_assoc, append_cons. do 2 f_equal.
  destruct ds as [|e ds].
  - rewrite append_nil. rewrite (replace_from_last d abc Hd Habc Hlen).
    cbn [Cards.replace_from Cards.groups_follow].
    by rewrite andb_false_r.
  - by apply IH.
Qed.

(** X26.  [formatNumberWithSpaces] groups decimal digits in threes from the
    right: a run of up to three digits is left as it is, and for a longer
    run the last three digits are set off by one space from the formatted
    rest.  [null] gives the empty string. *)
Theorem digits_grouped_in_threes (ds abc : string) :
  digits_only ds = true -> digits_only abc = true -> String.length abc = 3%nat ->
  ((String.length ds <= 3)%nat -> Cards.formatDigits (Some ds) = ds) /\
  (ds <> ""%string ->
   Cards.formatDigits (Some (ds +:+ abc)) = Cards.formatDigits (Some ds) +:+ " " +:+ abc) /\
  Cards.formatNumberWithSpaces None = ""%string.
Proof.
  intros Hds Habc Hlen. split; [|split; [|done]].
  - intros Hshort. unfold Cards.formatDigits.
    destruct ds as [|a [|b [|c [|d ds]]]]; [done| | | |simpl in Hshort; lia];
      cbn [digits_only] in Hds; repeat (apply andb_true_iff in Hds as [?%is_digit_word Hds]);
      rewrite !replace_from_cons;
      cbn [Cards.groups_follow Cards.replace_from Cards.starts_with_digit];
      unfold Cards.not_boundary;
      repeat match goal with H : Cards.is_word _ = true |- _ => rewrite H; clear H end;
      cbn [Bool.eqb andb]; rewrite ?andb_false_r; reflexivity.
  - intros Hne. unfold Cards.formatDigits. by apply replace_from_app.
Qed.

Lemma digits_grouped_in_threes_witness :
  ((String.length "12" <= 3)%nat -> Cards.formatDigits (Some "12"%string) = "12"%string) /\
  ("12"%string <> ""%string ->
   Cards.formatDigits (Some ("12" +:+ "345")) =
     Cards.formatDigits (Some "12"%string) +:+ " " +:+ "345") /\
  Cards.formatNumberWithSpaces None = ""%string.
Proof. apply (digits_grouped_in_threes "12" "345"); reflexivity. Defined.

(** ** Order of the operator cards  (src/app/analytics/index.ts, 810-831) *)

Lemma compare_not_after (a b : option Z) : (Cards.compare a b <= 0)%Z <-> not_after a b.
Proof. destruct a, b; simpl; lia. Qed.

Lemma not_after_trans (a b c : option Z) : not_after a b -> not_after b c -> not_after a c.
Proof. destruct a, b, c; simpl; try done; lia. Qed.

Lemma not_after_total (a b : option Z) : not_after a b \/ not_after b a.
Proof. destruct a, b; simpl; try tauto; lia. Qed.

Lemma insert_Permutation {A : Type} (key : A -> option Z) (x : A) (l : list A) :
  Cards.insert (by_fleet key) x l ≡ₚ x :: l.
Proof.
  induction l as [|y l IH]; [done|]. cbn [Cards.insert].
  destruct (by_fleet key x y <=? 0)%Z; [done|]. rewrite IH. apply Permutation_swap.
Qed.

Lemma sort_Permutation {A : Type} (key : A -> option Z) (l : list A) :
  Cards.sort (by_fleet key) l ≡ₚ l.
Proof.
  induction l as [|x l IH]; [done|]. unfold Cards.sort in *. cbn [fold_right].
  by rewrite insert_Permutation, IH.
Qed.

Lemma insert_sorted {A : Type} (key : A -> option Z) (x : A) (l : list A) :
  StronglySorted (fleet_before key) l ->
  StronglySorted (fleet_before key) (Cards.insert (by_fleet key) x l).
Proof.
  induction 1 as [|y l Hl IH Hy]; cbn [Cards.insert]; [repeat constructor|].
  destruct (Z.leb_spec (by_fleet key x y) 0) as [Hle|Hgt].
  - apply compare_not_after in Hle. constructor; [by constructor|].
    constructor; [done|]. eapply Forall_impl; [exact Hy|].
    intros z Hz. by eapply not_after_trans.
  - assert (Hyx : fleet_before key y x).
    { destruct (not_after_total (key y) (key x)) as [H|H]; [done|].
      apply compare_not_after in H. unfold by_fleet in Hgt. lia. }
    constructor; [done|]. rewrite insert_Permutation. by constructor.
Qed.

Lemma sort_sorted {A : Type} (key : A -> option Z) (l : list A) :
  StronglySorted (fleet_before key) (Cards.sort (by_fleet key) l).
Proof.
  induction l as [|x l IH]; [constructor|]. by apply insert_sorted.
Qed.

Lemma insert_filter {A : Type} (key : A -> option Z) (k : option Z) (x : A) (l : list A) :
  List.filter (fun a => bool_decide (key a = k)) (Cards.insert (by_fleet key) x l) =
  List.filter (fun a => bool_decide (key a = k)) (x :: l).
Proof.
  induction l as [|y l IH]; [done|]. cbn [Cards.insert].
  destruct (Z.leb_spec (by_fleet key x y) 0) as [Hle|Hgt]; [done|].
  cbn [List.filter] in *. rewrite IH.
  destruct (bool_decide_reflect (key x = k)) as [Hx|Hx]; [|done].
  destruct (bool_decide_reflect (key y = k)) as [Hy|Hy]; [|done].
  unfold by_fleet in Hgt. rewrite Hx, Hy in Hgt. destruct k; simpl in Hgt; lia.
Qed.

Lemma sort_filter {A : Type} (key : A -> option Z) (k : option Z) (l : list A) :
  List.filter (fun a => bool_decide (key a = k)) (Cards.sort (by_fleet key) l) =
  List.filter (fun a => bool_decide (key a = k)) l.
Proof.
  induction l as [|x l IH]; [done|]. unfold Cards.sort in *. cbn [fold_right].
  rewrite insert_filter. cbn [List.filter]. by rewrite IH.
Qed.

(** X27.  The cards are the operators that have display data, every one of
    them once, ordered by fleet size: larger totals first, operators without
    a total last, and operators that tie (equal totals, or no total) in
    their original order.  The comparator is consistent: it orders any two
    counts one way or the other, and transitively, so the order does not
    depend on how the engine sorts. *)
Theorem cards_by_fleet_size (operatorDisplayData : string -> option (option Z))
    (operators : list Systems.GBFSSystem) :
  let shown := Cards.shown_cards operatorDisplayData operators in
  let count := fleet operatorDisplayData in
  shown ≡ₚ List.filter (has_entry operatorDisplayData) operators /\
  StronglySorted (fun a b => not_after (count a) (count b)) shown /\
  (forall k, List.filter (fun op => bool_decide (count op = k)) shown =
             List.filter (fun op => bool_decide (count op = k))
                         (List.filter (has_entry operatorDisplayData) operators)) /\
  (forall a b c : option Z,
     ((Cards.compare a b <= 0)%Z \/ (Cards.compare b a <= 0)%Z) /\
     ((Cards.compare a b <= 0)%Z -> (Cards.compare b c <= 0)%Z ->
      (Cards.compare a c <= 0)%Z) /\
     ((Cards.compare a b < 0)%Z <-> (0 < Cards.compare b a)%Z)).
Proof.
  cbv zeta. unfold Cards.shown_cards. cbv zeta.
  fold (fleet operatorDisplayData). fold (has_entry operatorDisplayData).
  split; [apply (sort_Permutation (fleet operatorDisplayData))|].
  split; [apply (sort_sorted (fleet operatorDisplayData))|].
  split; [intros k; apply (sort_filter (fleet operatorDisplayData))|].
  intros a b c. rewrite !compare_not_after.
  split; [apply not_after_total|]. split; [apply not_after_trans|].
  destruct a, b; simpl; lia.
Qed.

(** An operator without an entry is not shown, the one whose count is
    still missing comes last. *)
Example cards_of_three_operators :
  Systems.name <$> Cards.shown_cards three_counts three_operators =
    ["Large"; "Small"; "Pending"]%string.
Proof. reflexivity. Qed.

(** ** Discovery results  (src/app/analytics/index.ts, 390-441) *)

Lemma discoverFeeds_total (doc : JValue) (fallback : string) :
  not_nullish doc -> exists r, Discovery.discoverFeeds doc fallback = Ret r.
Proof.
  intros Hdoc. unfold Discovery.discoverFeeds.
  destruct (unwrap_spec doc Hdoc) as (content & -> & Hc). rewrite bind_Ret. cbv zeta.
  destruct (scan_languages_spec content
              (set_order [] (Discovery.langPriority ++ object_keys content)) ∅
              (JStr fallback) Hc) as (s & -> & _).
  rewrite bind_Ret. destruct s as [urls nm|urls nm]; [eauto|].
  destruct (get_not_nullish content "feeds" Hc) as [f ->]. rewrite bind_Ret.
  destruct (as_array f) as [l|]; [|eauto].
  destruct (fold_add_feed_spec l urls) as (urls' & -> & _). rewrite bind_Ret.
  destruct (get_not_nullish content "name" Hc) as [n ->]. rewrite bind_Ret. eauto.
Qed.

Lemma truthy_url_default (feeds : gmap string string) (k u : string) :
  Pipeline.truthy_url feeds k = Some u -> default ""%string (feeds !! k) = u.
Proof.
  unfold Pipeline.truthy_url. destruct (feeds !! k) as [v|]; [|done].
  simpl. destruct (String.eqb v ""); [done|]. by intros [= ->].
Qed.

Lemma process_status_feed (systemId : string) (feeds : gmap string string)
    (t : Classification.OperatorType) (status : list FeedFetch.GBFSFeed) :
  (if bool_decide (t = Classification.station_based)
      && DiscoveryPhase.has_url feeds "station_status"
   then status ++ [DiscoveryPhase.queued systemId "station_status" feeds]
   else if bool_decide (t = Classification.free_floating) then
     if DiscoveryPhase.has_url feeds "vehicle_status"
     then status ++ [DiscoveryPhase.queued systemId "vehicle_status" feeds]
     else if DiscoveryPhase.has_url feeds "free_bike_status"
     then status ++ [DiscoveryPhase.queued systemId "free_bike_status" feeds]
     else status
   else status) = status ++ Pipeline.status_feed systemId feeds t.
Proof.
  unfold DiscoveryPhase.has_url, DiscoveryPhase.queued, Pipeline.status_feed.
  destruct (Pipeline.truthy_url feeds "station_status") as [u1|] eqn:H1;
    destruct (Pipeline.truthy_url feeds "vehicle_status") as [u2|] eqn:H2;
    destruct (Pipeline.truthy_url feeds "free_bike_status") as [u3|] eqn:H3;
    destruct t; repeat case_bool_decide; cbn [andb];
    repeat match goal with
           | H : is_Some None |- _ => by apply is_Some_None in H
           | H : ~ is_Some (Some _) |- _ => by destruct H
           | H : _ = _ |- _ => discriminate H
           end;
    rewrite ?app_nil_r, ?(truthy_url_default _ _ _ H1), ?(truthy_url_default _ _ _ H2),
            ?(truthy_url_default _ _ _ H3); done.
Qed.

(** X28.  Handling a discovery result never raises, whatever the server
    returned for the operator.  A result with an error or without data sets
    [discoveryError] to the error (or to the default message) and nothing
    else, and queues nothing.  A result with data is parsed by
    [discoverFeeds]: when no valid feed is found, [discoveryError] is set,
    the type is [unknown] and nothing is queued; otherwise there is no
    error, the entry holds the parsed name and feed map, the operator is
    classified from the feed map alone, its [system_information] and
    [vehicle_types] feeds are queued, and the status feed queued for it is
    the one that re-classification would queue for that type, so the queue
    starts out in step with the types. *)
Theorem discovery_result_processed (operator : Systems.GBFSSystem)
    (result : FeedFetch.GBFSFeedData)
    (allOptionalFeedsToFetch allStatusFeedsToFetch : list FeedFetch.GBFSFeed) :
  (DiscoveryPhase.has_error (FeedFetch.error result) = true \/
   truthy (FeedFetch.data result) = false ->
   DiscoveryPhase.process operator result allOptionalFeedsToFetch allStatusFeedsToFetch =
     Ret ({| DiscoveryPhase.discoveryError :=
               Some (DiscoveryPhase.error_or (FeedFetch.error result)
                       "Failed to fetch or parse gbfs.json.");
             DiscoveryPhase.operatorNameFromDiscovery := None;
             DiscoveryPhase.feedsFromDiscovery := None;
             DiscoveryPhase.operatorType := None |},
          allOptionalFeedsToFetch, allStatusFeedsToFetch)) /\
  (DiscoveryPhase.has_error (FeedFetch.error result) = false ->
   truthy (FeedFetch.data result) = true ->
   exists feeds name,
     Discovery.discoverFeeds (FeedFetch.data result) (Systems.name operator) =
       Ret (feeds, name) /\
     (feeds = ∅ ->
      DiscoveryPhase.process operator result allOptionalFeedsToFetch allStatusFeedsToFetch =
        Ret ({| DiscoveryPhase.discoveryError :=
                  Some "Discovery failed: No valid feeds found in gbfs.json."%string;
                DiscoveryPhase.operatorNameFromDiscovery := Some name;
                DiscoveryPhase.feedsFromDiscovery := Some feeds;
                DiscoveryPhase.operatorType := Some Classification.unknown |},
             allOptionalFeedsToFetch, allStatusFeedsToFetch)) /\
     (feeds <> ∅ ->
      exists t,
        Classification.classifyOperatorType feeds (Systems.name operator) JUndefined =
          Ret t /\
        DiscoveryPhase.process operator result allOptionalFeedsToFetch
                               allStatusFeedsToFetch =
          Ret ({| DiscoveryPhase.discoveryError := None;
                  DiscoveryPhase.operatorNameFromDiscovery := Some name;
                  DiscoveryPhase.feedsFromDiscovery := Some feeds;
                  DiscoveryPhase.operatorType := Some t |},
               allOptionalFeedsToFetch ++ optional_feeds (Systems.systemId operator) feeds,
               allStatusFeedsToFetch ++
                 Pipeline.status_feed (Systems.systemId operator) feeds t))).
Proof.
  unfold DiscoveryPhase.process. split.
  - intros Hbad.
    assert (Hor : DiscoveryPhase.has_error (FeedFetch.error result)
                  || negb (truthy (FeedFetch.data result)) = true).
    { destruct Hbad as [-> | ->]; [done | apply orb_true_r]. }
    by rewrite Hor.
  - intros Herr Hdata. rewrite Herr, Hdata. cbn [orb negb].
    destruct (discoverFeeds_total (FeedFetch.data result) (Systems.name operator)
                (truthy_not_nullish _ Hdata)) as ([feeds nm] & ->).
    exists feeds, nm. split; [done|].
    rewrite bind_Ret. cbv zeta. cbn [fst snd]. split.
    + intros Hempty. apply record_keys_empty in Hempty as Hkeys. by rewrite Hkeys.
    + intros Hne.
      destruct (Nat.eqb_spec (length (record_keys feeds)) 0) as [Hkeys|_].
      { by apply record_keys_empty in Hkeys. }
      destruct (classify_without_evidence_total feeds (Systems.name operator)) as [t Ht].
      exists t. split; [done|].
      rewrite Ht, bind_Ret, process_status_feed. unfold optional_feeds.
      by destruct (DiscoveryPhase.has_url feeds "system_information"),
                  (DiscoveryPhase.has_url feeds "vehicle_types");
        rewrite ?app_nil_r, <- ?app_assoc.
Qed.

Lemma discovery_result_processed_witness :
  DiscoveryPhase.process (system_of "Oslo Bysykkel" "Oslo" "NO" "oslobysykkel")
                         discovered_result [] [] =
    Ret ({| DiscoveryPhase.discoveryError := None;
            DiscoveryPhase.operatorNameFromDiscovery := Some (JStr "Oslo Bysykkel");
            DiscoveryPhase.feedsFromDiscovery := Some discovered_feeds;
            DiscoveryPhase.operatorType := Some Classification.station_based |},
         [],
         [{| FeedFetch.name := "oslobysykkel::station_status"; FeedFetch.url := "u" |}]).
Proof.
  destruct (proj2 (discovery_result_processed
                     (system_of "Oslo Bysykkel" "Oslo" "NO" "oslobysykkel")
                     discovered_result [] []) eq_refl eq_refl)
    as (feeds & name & Hrun & _ & Hfeeds).
  assert (Hdoc : Discovery.discoverFeeds (FeedFetch.data discovered_result)
                   (Systems.name (system_of "Oslo Bysykkel" "Oslo" "NO" "oslobysykkel")) =
                 Ret (discovered_feeds, JStr "Oslo Bysykkel")) by reflexivity.
  rewrite Hdoc in Hrun. injection Hrun as <- <-.
  destruct Hfeeds as (t & Ht & ->).
  - intros Hempty. apply (f_equal (lookup "station_status"%string)) in Hempty.
    discriminate Hempty.
  - assert (Hs : Classification.classifyOperatorType discovered_feeds
                   (Systems.name (system_of "Oslo Bysykkel" "Oslo" "NO" "oslobysykkel"))
                   JUndefined = Ret Classification.station_based) by reflexivity.
    rewrite Hs in Ht. injection Ht as <-. reflexivity.
Defined.
